(** * pyImSegm: ellipse fitting and supervised superpixel segmentation

    A shallow embedding of [segmentation/ellipse_fitting.py] and of
    [segment_image] from
    [experiments_segmentation/run_segm_slic_classif_graphcut.py].

    Conventions.
    - A float is a real number, an infinity or [nan]. In the test of
      [criterion] for the points inside the ellipse and in the conversion
      of [min_samples] to a count, where a float that the program has
      computed decides what it does next, every operation rounds to double
      precision ([Float64.round]). Elsewhere a float is the real number it
      stands for, and the value of a sum or of a logarithm that is only
      returned is taken exact. Doubles do not overflow here, and zero has
      no sign.
    - A Python call either returns or raises: [Py.result].
    - An argument that the code mutates in place is passed and returned
      explicitly (state passing); the array store of [add_overlap_ellipse]
      is a [Heap.heap] so that object identity can be stated.
    - Functions of other libraries (numpy's random generator, skimage,
      scipy) and of modules of the package that are not part of the two
      files appear as parameters of a Section or as fields of a class. *)

From Stdlib Require Import String Reals Lra Lia ZArith Bool List.
Import ListNotations.

(* Keep real literals as they are written when a goal is simplified. *)
#[global] Arguments IZR _ : simpl never.

(** ** Python results and exceptions *)

Module Py.

Inductive exn : Type :=
| ValueError (msg : string)
| AssertionError (msg : string)
| IndexError
| ZeroDivisionError
| AttributeError.

Inductive result (A : Type) : Type :=
| Return (a : A)
| Raise (e : exn).

Arguments Return {A} a.
Arguments Raise {A} e.

Definition bind {A B : Type} (r : result A) (k : A -> result B) : result B :=
  match r with
  | Return a => k a
  | Raise e => Raise e
  end.

Definition Rltb (x y : R) : bool := if Rlt_dec x y then true else false.
Definition Rleb (x y : R) : bool := if Rle_dec x y then true else false.

(** [int(x)] of a float: truncation towards zero. *)
Definition int_of_float (x : R) : Z :=
  if Rle_dec 0 x then Int_part x else (- Int_part (- x))%Z.

(** [a[i]] for one integer index: a negative index counts from the end,
    an index outside [-len, len) raises [IndexError]. *)
Definition getitem {A : Type} (a : list A) (i : Z) : result A :=
  let n := Z.of_nat (length a) in
  let j := if (i <? 0)%Z then (n + i)%Z else i in
  if ((0 <=? j) && (j <? n))%Z then
    match nth_error a (Z.to_nat j) with
    | Some x => Return x
    | None => Raise IndexError
    end
  else Raise IndexError.

(** [a[idx]] for an integer index array. *)
Fixpoint take {A : Type} (a : list A) (idx : list Z) : result (list A) :=
  match idx with
  | [] => Return []
  | i :: rest =>
      bind (getitem a i) (fun x =>
      bind (take a rest) (fun xs => Return (x :: xs)))
  end.

(** [a[mask]] for a boolean mask of the length of [a]. *)
Fixpoint compress {A : Type} (mask : list bool) (a : list A) : list A :=
  match mask, a with
  | b :: mask', x :: a' => if b then x :: compress mask' a' else compress mask' a'
  | _, _ => []
  end.

(** [np.sum] of a boolean array. *)
Definition count_true (mask : list bool) : nat := length (filter (fun b => b) mask).

(** [np.sum] of a float array. *)
Definition Rsum (l : list R) : R := fold_right Rplus 0%R l.

(** *** Facts about the comparisons *)

Lemma Rltb_true (x y : R) : Rltb x y = true <-> (x < y)%R.
Proof.
  unfold Rltb. destruct (Rlt_dec x y); split; intros; try assumption; try reflexivity.
  - discriminate.
  - contradiction.
Qed.

Lemma Rltb_false (x y : R) : Rltb x y = false <-> (y <= x)%R.
Proof.
  unfold Rltb. destruct (Rlt_dec x y); split; intros; try reflexivity.
  - discriminate.
  - lra.
  - lra.
Qed.

Lemma Rleb_true (x y : R) : Rleb x y = true <-> (x <= y)%R.
Proof.
  unfold Rleb. destruct (Rle_dec x y); split; intros; try assumption; try reflexivity.
  - discriminate.
  - contradiction.
Qed.

Lemma Rleb_false (x y : R) : Rleb x y = false <-> (y < x)%R.
Proof.
  unfold Rleb. destruct (Rle_dec x y); split; intros; try reflexivity.
  - discriminate.
  - lra.
  - lra.
Qed.

Ltac r_eval :=
  repeat match goal with
  | |- context [Rabs ?x] =>
      first [ rewrite (Rabs_pos_eq x) by lra | rewrite (Rabs_left x) by lra ]
  | |- context [Rltb ?x ?y] =>
      first [ rewrite (proj2 (Rltb_true x y)) by lra
            | rewrite (proj2 (Rltb_false x y)) by lra ]
  | |- context [Rleb ?x ?y] =>
      first [ rewrite (proj2 (Rleb_true x y)) by lra
            | rewrite (proj2 (Rleb_false x y)) by lra ]
  end.

End Py.

Notation "x <- e ;; k" := (Py.bind e (fun x => k))
  (at level 61, e at next level, right associativity).
Notation "' pat <- e ;; k" := (Py.bind e (fun x => match x with pat => k end))
  (at level 61, pat pattern, e at next level, right associativity).

(** ** Double-precision floats *)

Module Float64.
Import Py.

(** A value of a float array: a number, an infinity or [nan]. *)
Inductive float : Type :=
| Num (x : R)
| PInf
| NInf
| NaN.

(** *** Rounding to the nearest double, ties to even

    A double is [m * 2^k] with [|m| < 2^53] and [k >= -1074]; the range is
    taken as unbounded above (no overflow), and zero has no sign. *)

Definition representable (z : R) : Prop :=
  exists m k : Z,
    z = (IZR m * powerRZ 2 k)%R /\ (Z.abs m < 2 ^ 53)%Z /\ (-1074 <= k)%Z.

(** The exponent of the unit in the last place of a positive number. *)
Definition ulp_exp (x : R) : Z :=
  Z.max (Int_part (ln x / ln 2) - 52) (-1074).

(** The integer nearest to [y], the even one of two that are as near. *)
Definition nearest_even (y : R) : Z :=
  let f := Int_part y in
  let d := (y - IZR f)%R in
  if Rltb d (1 / 2) then f
  else if Rltb (1 / 2) d then (f + 1)%Z
  else if Z.even f then f else (f + 1)%Z.

Definition round_pos (x : R) : R :=
  (IZR (nearest_even (x / powerRZ 2 (ulp_exp x))) * powerRZ 2 (ulp_exp x))%R.

Definition round (x : R) : R :=
  if Rltb 0 x then round_pos x
  else if Rltb x 0 then (- round_pos (- x))%R
  else 0%R.

(** *** Powers of two *)

Lemma ln2_pos : (0 < ln 2)%R.
Proof. rewrite <- ln_1. apply ln_increasing; lra. Qed.

Lemma p2_exp (z : Z) : powerRZ 2 z = exp (IZR z * ln 2).
Proof. rewrite powerRZ_Rpower by lra. reflexivity. Qed.

Lemma p2_pos (z : Z) : (0 < powerRZ 2 z)%R.
Proof. apply powerRZ_lt. lra. Qed.

Lemma p2_lt (a b : Z) : (a < b)%Z -> (powerRZ 2 a < powerRZ 2 b)%R.
Proof.
  intro H. rewrite !p2_exp. apply exp_increasing.
  apply Rmult_lt_compat_r; [exact ln2_pos | apply IZR_lt; exact H].
Qed.

Lemma p2_le (a b : Z) : (a <= b)%Z -> (powerRZ 2 a <= powerRZ 2 b)%R.
Proof.
  intro H. destruct (Z.eq_dec a b) as [E|E]; [subst; lra|].
  apply Rlt_le. apply p2_lt. lia.
Qed.

Lemma p2_add (a b : Z) : powerRZ 2 (a + b) = (powerRZ 2 a * powerRZ 2 b)%R.
Proof. apply powerRZ_add. lra. Qed.

Lemma p2_IZR (z : Z) : (0 <= z)%Z -> powerRZ 2 z = IZR (2 ^ z).
Proof.
  intro H. destruct z as [|p|p]; [reflexivity | | lia].
  simpl. rewrite pow_IZR. rewrite positive_nat_Z. reflexivity.
Qed.

(** *** The exponent *)

Lemma exponent_bounds (x : R) :
  (0 < x)%R ->
  (powerRZ 2 (Int_part (ln x / ln 2)) <= x < powerRZ 2 (Int_part (ln x / ln 2) + 1))%R.
Proof.
  intro Hx. pose proof ln2_pos as H2.
  destruct (base_Int_part (ln x / ln 2)) as [Hlo Hhi].
  set (e := Int_part (ln x / ln 2)) in *.
  assert (Hq : (ln x / ln 2 * ln 2 = ln x)%R) by (field; lra).
  assert (Hexp : exp (ln x) = x) by (apply exp_ln; exact Hx).
  rewrite !p2_exp, plus_IZR. split.
  - apply Rle_trans with (exp (ln x)); [|lra].
    destruct (Rle_lt_or_eq_dec _ _ Hlo) as [Hlt|Heq].
    + apply Rlt_le. apply exp_increasing. rewrite <- Hq.
      apply Rmult_lt_compat_r; assumption.
    + rewrite Heq, Hq. lra.
  - apply Rle_lt_trans with (exp (ln x)); [lra|].
    apply exp_increasing. rewrite <- Hq at 1.
    apply Rmult_lt_compat_r; [exact H2 | lra].
Qed.

Lemma exponent_unique (x : R) (e : Z) :
  (powerRZ 2 e <= x < powerRZ 2 (e + 1))%R -> Int_part (ln x / ln 2) = e.
Proof.
  intros [Hlo Hhi].
  assert (Hx : (0 < x)%R) by (pose proof (p2_pos e); lra).
  destruct (exponent_bounds x Hx) as [Hlo' Hhi'].
  set (e' := Int_part (ln x / ln 2)) in *.
  destruct (Z.lt_trichotomy e' e) as [H|[H|H]]; [|exact H|].
  - assert (powerRZ 2 (e' + 1) <= powerRZ 2 e)%R by (apply p2_le; lia). lra.
  - assert (powerRZ 2 (e + 1) <= powerRZ 2 e')%R by (apply p2_le; lia). lra.
Qed.

(** *** The nearest integer *)

Lemma nearest_even_le (t : R) (q : Z) : (t <= IZR q)%R -> (nearest_even t <= q)%Z.
Proof.
  intro H. unfold nearest_even.
  destruct (base_Int_part t) as [Hlo Hhi].
  set (f := Int_part t) in *.
  assert (Hf : (f <= q)%Z) by (apply le_IZR; lra).
  assert (Hstep : (0 < t - IZR f)%R -> (f + 1 <= q)%Z).
  { intro Hd. assert (Hlt : (IZR f < IZR q)%R) by lra. apply lt_IZR in Hlt. lia. }
  destruct (Rltb (t - IZR f) (1 / 2)) eqn:E1; [exact Hf|].
  apply Rltb_false in E1.
  destruct (Rltb (1 / 2) (t - IZR f)); [apply Hstep; lra|].
  destruct (Z.even f); [exact Hf | apply Hstep; lra].
Qed.

Lemma nearest_even_ge (t : R) (q : Z) : (IZR q <= t)%R -> (q <= nearest_even t)%Z.
Proof.
  intro H. unfold nearest_even.
  destruct (base_Int_part t) as [Hlo Hhi].
  set (f := Int_part t) in *.
  assert (Hf : (q <= f)%Z).
  { assert (Hlt : (IZR q < IZR (f + 1))%R) by (rewrite plus_IZR; lra).
    apply lt_IZR in Hlt. lia. }
  destruct (Rltb (t - IZR f) (1 / 2)); [exact Hf|].
  destruct (Rltb (1 / 2) (t - IZR f)); [lia|].
  destruct (Z.even f); lia.
Qed.

(** *** What rounding keeps *)

Lemma scaled_integer (m k ue : Z) :
  (ue <= k)%Z ->
  (IZR m * powerRZ 2 k / powerRZ 2 ue = IZR (m * 2 ^ (k - ue)))%R.
Proof.
  intro H. replace k with ((k - ue) + ue)%Z at 1 by lia.
  rewrite p2_add, (p2_IZR (k - ue)) by lia. rewrite mult_IZR.
  pose proof (p2_pos ue). field. lra.
Qed.

Lemma below_power (m k : Z) :
  (Z.abs m < 2 ^ 53)%Z -> (IZR m * powerRZ 2 k < powerRZ 2 (53 + k))%R.
Proof.
  intro H. rewrite p2_add, (p2_IZR 53) by lia.
  apply Rmult_lt_compat_r; [apply p2_pos|]. apply IZR_lt. lia.
Qed.

Lemma round_pos_nonneg (x : R) : (0 < x)%R -> (0 <= round_pos x)%R.
Proof.
  intro H. unfold round_pos. pose proof (p2_pos (ulp_exp x)) as Hu.
  apply Rmult_le_pos; [|lra]. apply IZR_le. apply (nearest_even_ge _ 0).
  apply Rlt_le. apply Rdiv_lt_0_compat; assumption.
Qed.

(** A positive number with a small unit in the last place lies above the
    doubles that are no multiple of the unit. *)
Lemma coarse_unit (y : R) (m k : Z) :
  (0 < y)%R -> (Z.abs m < 2 ^ 53)%Z -> (-1074 <= k)%Z -> (k < ulp_exp y)%Z ->
  (IZR m * powerRZ 2 k < powerRZ 2 (Int_part (ln y / ln 2)))%R /\
  ulp_exp y = (Int_part (ln y / ln 2) - 52)%Z.
Proof.
  intros Hy Hm Hk Hlt. unfold ulp_exp in *.
  set (e := Int_part (ln y / ln 2)) in *.
  assert (He : (k <= e - 53)%Z) by lia.
  split; [|lia].
  apply Rlt_le_trans with (powerRZ 2 (53 + k)); [apply below_power; exact Hm|].
  apply p2_le. lia.
Qed.

Lemma round_pos_le (y z : R) :
  (0 < y <= z)%R -> representable z -> (round_pos y <= z)%R.
Proof.
  intros [Hy Hyz] (m & k & Hz & Hm & Hk). unfold round_pos.
  pose proof (p2_pos (ulp_exp y)) as Hu.
  destruct (exponent_bounds y Hy) as [Hlo _].
  destruct (Z_lt_le_dec k (ulp_exp y)) as [Hlt|Hge].
  - destruct (coarse_unit y m k Hy Hm Hk Hlt) as [Hsmall _]. subst z. lra.
  - assert (Hq : (y / powerRZ 2 (ulp_exp y) <= IZR (m * 2 ^ (k - ulp_exp y)))%R).
    { rewrite <- scaled_integer by exact Hge. rewrite <- Hz.
      apply Rmult_le_compat_r; [apply Rlt_le, Rinv_0_lt_compat; exact Hu | exact Hyz]. }
    apply nearest_even_le in Hq. apply IZR_le in Hq.
    rewrite <- scaled_integer in Hq by exact Hge. rewrite <- Hz in Hq.
    apply (Rmult_le_compat_r (powerRZ 2 (ulp_exp y))) in Hq; [|lra].
    replace (z / powerRZ 2 (ulp_exp y) * powerRZ 2 (ulp_exp y))%R with z in Hq
      by (field; lra).
    exact Hq.
Qed.

Lemma round_pos_ge (y z : R) :
  (0 < y)%R -> (z <= y)%R -> representable z -> (z <= round_pos y)%R.
Proof.
  intros Hy Hzy (m & k & Hz & Hm & Hk).
  pose proof (p2_pos (ulp_exp y)) as Hu.
  destruct (exponent_bounds y Hy) as [Hlo _].
  destruct (Z_lt_le_dec k (ulp_exp y)) as [Hlt|Hge].
  - destruct (coarse_unit y m k Hy Hm Hk Hlt) as [Hsmall Hue].
    set (e := Int_part (ln y / ln 2)) in *.
    apply Rle_trans with (powerRZ 2 e); [subst z; lra|].
    unfold round_pos.
    assert (Hq : (IZR (1 * 2 ^ (e - ulp_exp y)) <= y / powerRZ 2 (ulp_exp y))%R).
    { rewrite <- scaled_integer by lia. rewrite Rmult_1_l.
      apply Rmult_le_compat_r; [apply Rlt_le, Rinv_0_lt_compat; exact Hu | exact Hlo]. }
    apply nearest_even_ge in Hq. apply IZR_le in Hq.
    rewrite <- scaled_integer in Hq by lia. rewrite Rmult_1_l in Hq.
    apply (Rmult_le_compat_r (powerRZ 2 (ulp_exp y))) in Hq; [|lra].
    replace (powerRZ 2 e / powerRZ 2 (ulp_exp y) * powerRZ 2 (ulp_exp y))%R
      with (powerRZ 2 e) in Hq by (field; lra).
    exact Hq.
  - unfold round_pos.
    assert (Hq : (IZR (m * 2 ^ (k - ulp_exp y)) <= y / powerRZ 2 (ulp_exp y))%R).
    { rewrite <- scaled_integer by exact Hge. rewrite <- Hz.
      apply Rmult_le_compat_r; [apply Rlt_le, Rinv_0_lt_compat; exact Hu | exact Hzy]. }
    apply nearest_even_ge in Hq. apply IZR_le in Hq.
    rewrite <- scaled_integer in Hq by exact Hge. rewrite <- Hz in Hq.
    apply (Rmult_le_compat_r (powerRZ 2 (ulp_exp y))) in Hq; [|lra].
    replace (z / powerRZ 2 (ulp_exp y) * powerRZ 2 (ulp_exp y))%R with z in Hq
      by (field; lra).
    exact Hq.
Qed.

Lemma representable_opp (z : R) : representable z -> representable (- z).
Proof.
  intros (m & k & Hz & Hm & Hk). exists (- m)%Z, k.
  split; [rewrite opp_IZR, Hz; ring|]. split; [lia | exact Hk].
Qed.

Lemma representable_IZR (n : Z) : (Z.abs n < 2 ^ 53)%Z -> representable (IZR n).
Proof.
  intro H. exists n, 0%Z. split; [simpl; ring|]. split; [exact H | lia].
Qed.

Lemma round_opp (x : R) : round (- x) = (- round x)%R.
Proof.
  unfold round.
  destruct (Rltb 0 x) eqn:E1; destruct (Rltb x 0) eqn:E2;
    try apply Rltb_true in E1; try apply Rltb_false in E1;
    try apply Rltb_true in E2; try apply Rltb_false in E2.
  - lra.
  - rewrite (proj2 (Rltb_false 0 (- x))) by lra.
    rewrite (proj2 (Rltb_true (- x) 0)) by lra.
    rewrite Ropp_involutive. reflexivity.
  - rewrite (proj2 (Rltb_true 0 (- x))) by lra. ring.
  - rewrite (proj2 (Rltb_false 0 (- x))) by lra.
    rewrite (proj2 (Rltb_false (- x) 0)) by lra. ring.
Qed.

(** Rounding does not cross a double. *)
Lemma round_le (y z : R) : (y <= z)%R -> representable z -> (round y <= z)%R.
Proof.
  intros Hyz Hz. unfold round.
  destruct (Rltb 0 y) eqn:E1;
    [apply Rltb_true in E1; apply round_pos_le; [lra | exact Hz]|].
  apply Rltb_false in E1.
  destruct (Rltb y 0) eqn:E2; [|apply Rltb_false in E2; lra].
  apply Rltb_true in E2.
  destruct (Rle_lt_dec 0 z) as [Hpos|Hneg].
  - pose proof (round_pos_nonneg (- y)). lra.
  - pose proof (round_pos_ge (- y) (- z) ltac:(lra) ltac:(lra)
                  (representable_opp z Hz)). lra.
Qed.

Lemma round_ge (y z : R) : (z <= y)%R -> representable z -> (z <= round y)%R.
Proof.
  intros Hzy Hz.
  pose proof (round_le (- y) (- z) ltac:(lra) (representable_opp z Hz)) as H.
  rewrite round_opp in H. lra.
Qed.

(** A double rounds to itself. *)
Lemma round_representable (z : R) : representable z -> round z = z.
Proof.
  intro Hz. apply Rle_antisym; [apply round_le | apply round_ge];
    try exact Hz; lra.
Qed.

Lemma round_IZR (n : Z) : (Z.abs n < 2 ^ 53)%Z -> round (IZR n) = IZR n.
Proof. intro H. apply round_representable. apply representable_IZR. exact H. Qed.

Lemma round_0 : round 0 = 0%R.
Proof. apply (round_IZR 0). reflexivity. Qed.

Lemma round_dyadic (m k : Z) :
  (Z.abs m < 2 ^ 53)%Z -> (-1074 <= k)%Z ->
  round (IZR m * powerRZ 2 k) = (IZR m * powerRZ 2 k)%R.
Proof.
  intros Hm Hk. apply round_representable. exists m, k. auto.
Qed.

(** The rounding of a positive number from its exponent and the nearest
    multiple of its unit. *)
Lemma round_eval (x : R) (e n : Z) :
  (powerRZ 2 e <= x < powerRZ 2 (e + 1))%R ->
  nearest_even (x / powerRZ 2 (Z.max (e - 52) (-1074))) = n ->
  round x = (IZR n * powerRZ 2 (Z.max (e - 52) (-1074)))%R.
Proof.
  intros Hx Hn. pose proof (p2_pos e) as He.
  unfold round. rewrite (proj2 (Rltb_true 0 x)) by lra.
  unfold round_pos, ulp_exp. rewrite (exponent_unique x e Hx), Hn. reflexivity.
Qed.

Lemma nearest_even_eval (t : R) (f : Z) :
  (IZR f <= t < IZR f + 1)%R ->
  nearest_even t
  = if Rltb (t - IZR f) (1 / 2) then f
    else if Rltb (1 / 2) (t - IZR f) then (f + 1)%Z
    else if Z.even f then f else (f + 1)%Z.
Proof.
  intro H. unfold nearest_even.
  rewrite <- (Int_part_spec t f) by lra. reflexivity.
Qed.

Lemma round_down (x : R) (e f : Z) :
  (powerRZ 2 e <= x < powerRZ 2 (e + 1))%R ->
  (IZR f <= x / powerRZ 2 (Z.max (e - 52) (-1074)) < IZR f + 1 / 2)%R ->
  round x = (IZR f * powerRZ 2 (Z.max (e - 52) (-1074)))%R.
Proof.
  intros Hx Hf. apply round_eval; [exact Hx|].
  rewrite (nearest_even_eval _ f) by lra.
  rewrite (proj2 (Rltb_true _ _)) by lra. reflexivity.
Qed.

Lemma round_up (x : R) (e f : Z) :
  (powerRZ 2 e <= x < powerRZ 2 (e + 1))%R ->
  (IZR f + 1 / 2 < x / powerRZ 2 (Z.max (e - 52) (-1074)) < IZR f + 1)%R ->
  round x = (IZR (f + 1) * powerRZ 2 (Z.max (e - 52) (-1074)))%R.
Proof.
  intros Hx Hf. apply round_eval; [exact Hx|].
  rewrite (nearest_even_eval _ f) by lra.
  rewrite (proj2 (Rltb_false _ _)) by lra.
  rewrite (proj2 (Rltb_true _ _)) by lra. reflexivity.
Qed.

Example seven_tenths_of_ten :
  round (6305039478318694 / 9007199254740992 * 10) = 7%R.
Proof.
  rewrite (round_eval _ 2 7881299347898368).
  - simpl. lra.
  - simpl. lra.
  - rewrite (nearest_even_eval _ 7881299347898367).
    + rewrite (proj2 (Rltb_false _ _)) by (simpl; lra).
      rewrite (proj2 (Rltb_false _ _)) by (simpl; lra). reflexivity.
    + simpl. lra.
Qed.

(** [round x] for an [x] that is the integer [n]. *)
Ltac round_int n :=
  match goal with
  | |- context [round ?x] =>
      let H := fresh "H" in
      assert (H : round x = IZR n)
        by (replace x with (IZR n) by lra; apply round_IZR; reflexivity);
      rewrite H; clear H
  end.

(** *** Arithmetic on float values

    [rnd] is the rounding of the result: [round], or none where the value
    of a sum is taken exact. *)

Definition exact (x : R) : R := x.

Definition fneg (a : float) : float :=
  match a with
  | Num x => Num (- x)%R
  | PInf => NInf
  | NInf => PInf
  | NaN => NaN
  end.

Definition fadd (rnd : R -> R) (a b : float) : float :=
  match a, b with
  | Num x, Num y => Num (rnd (x + y)%R)
  | NaN, _ | _, NaN => NaN
  | PInf, NInf | NInf, PInf => NaN
  | PInf, _ | _, PInf => PInf
  | NInf, _ | _, NInf => NInf
  end.

Definition fsub (rnd : R -> R) (a b : float) : float := fadd rnd a (fneg b).

(** An infinity of the sign of [x]; [nan] at zero. *)
Definition signed_inf (x : R) : float :=
  if Rltb 0 x then PInf else if Rltb x 0 then NInf else NaN.

Definition fmul (rnd : R -> R) (a b : float) : float :=
  match a, b with
  | Num x, Num y => Num (rnd (x * y)%R)
  | NaN, _ | _, NaN => NaN
  | Num x, PInf | PInf, Num x => signed_inf x
  | Num x, NInf | NInf, Num x => signed_inf (- x)%R
  | PInf, PInf | NInf, NInf => PInf
  | PInf, NInf | NInf, PInf => NInf
  end.

Definition fdiv (rnd : R -> R) (a b : float) : float :=
  match a, b with
  | Num x, Num y =>
      if Req_dec_T y 0 then signed_inf x else Num (rnd (x / y)%R)
  | NaN, _ | _, NaN => NaN
  | Num _, (PInf | NInf) => Num 0
  | PInf, Num y => if Rltb y 0 then NInf else PInf
  | NInf, Num y => if Rltb y 0 then PInf else NInf
  | (PInf | NInf), (PInf | NInf) => NaN
  end.

(** [a <= b]; a comparison with [nan] is false. *)
Definition fle (a b : float) : bool :=
  match a, b with
  | NaN, _ | _, NaN => false
  | NInf, _ => true
  | _, PInf => true
  | Num x, Num y => Rleb x y
  | _, _ => false
  end.

(** [np.log] *)
Definition flog (x : R) : float :=
  if Rltb 0 x then Num (ln x) else if Rltb x 0 then NaN else NInf.

(** [np.sum] of a float array, its value taken exact. *)
Definition fsum (l : list float) : float := fold_right (fadd exact) (Num 0) l.

Lemma fsum_nums (l : list R) : fsum (map Num l) = Num (Rsum l).
Proof.
  induction l as [|x l IH]; [reflexivity|].
  change (fsum (map Num (x :: l))) with (fadd exact (Num x) (fsum (map Num l))).
  rewrite IH. reflexivity.
Qed.

End Float64.

(** ** RANSAC scored by a label-consistency criterion: [ransac_segm] *)

Module Ransac.
Import Py.

(** [min_samples] is an int or a float ([isinstance(min_samples, float)]). *)
Inductive number : Type :=
| PyInt (n : Z)
| PyFloat (x : R).

(** The running best criterion starts at [np.inf]. *)
Inductive fit : Type :=
| Inf
| Fin (x : R).

(** [model_fit < best_model_fit] *)
Definition fit_lt (x : R) (best : fit) : bool :=
  match best with
  | Inf => true
  | Fin y => Rltb x y
  end.

(** The state of numpy's global random generator: the raw draws still to
    come. Every sequence of samples is the outcome of some generator. *)
Definition rng : Type := nat -> nat.

(** [np.random.randint(0, high, size)]: [size] indices below [high]. *)
Definition randint (g : rng) (high size : nat) : result (list Z * rng) :=
  if (high =? 0)%nat then Raise (ValueError "low >= high")
  else Return (map (fun i => Z.of_nat (g i mod high)) (seq 0 size),
               fun i => g (size + i)%nat).

(** The interface [ransac_segm] expects of [model_class]: the constructor,
    [estimate] (which overwrites the parameters of the model it is called on
    and returns [True], [False] or [None]), [residuals] (one per point) and
    [criterion]. *)
Class ModelClass (Pt M : Type) : Type := {
  new_model : M;
  estimate : M -> list Pt -> M * option bool;
  residuals : M -> list Pt -> list R;
  criterion : M -> list Pt -> list R -> list Z -> list (list R) -> result R;
  residuals_length : forall m pts, length (residuals m pts) = length pts
}.

Lemma snoc_split {A : Type} (l pre post : list A) (x y : A) :
  l ++ [x] = pre ++ y :: post ->
  (exists post', post = post' ++ [x] /\ l = pre ++ y :: post') \/
  (pre = l /\ y = x /\ post = []).
Proof.
  intro H. destruct (@exists_last _ (y :: post)) as [front [z Hz]]; [discriminate|].
  rewrite Hz, app_assoc in H. apply app_inj_tail in H. destruct H as [Hl Hx].
  subst z. destruct post as [|p post].
  - right. destruct front as [|f front].
    + simpl in Hz. injection Hz as Hy. subst y. rewrite app_nil_r in Hl. auto.
    + simpl in Hz. injection Hz as _ Hz. destruct front; discriminate.
  - left. destruct front as [|f front]; [discriminate|].
    simpl in Hz. injection Hz as Hy Hz. subst f.
    exists front. split; [exact Hz | exact Hl].
Qed.

Section Trials.

Context {Pt M : Type} {MC : ModelClass Pt M}.
Variables (points points_all : list Pt) (weights : list R) (labels : list Z).
Variable table_prob : list (list R).
Variable residual_threshold : R.
Variable min_samples : nat.

(** What a trial that was not skipped hands to the comparison. *)
Record outcome : Type := {
  model : M;
  model_fit : R;
  model_inliers : list bool
}.

(** The four variables the loop carries. *)
Record best : Type := {
  best_model : option M;
  best_inlier_num : nat;
  best_model_fit : fit;
  best_inliers : option (list bool)
}.

Definition init : best :=
  {| best_model := None; best_inlier_num := 0;
     best_model_fit := Inf; best_inliers := None |}.

(** The loop body down to [model_fit]; [None] is the [continue]. *)
Definition trial (g : rng) : result (option outcome * rng) :=
  '(random_idxs, g') <- randint g (length points) min_samples ;;
  samples <- take points random_idxs ;;
  let '(m, success) := estimate new_model samples in
  match success with
  | Some false => Return (None, g')
  | _ =>
      let model_residuals := map Rabs (residuals m points) in
      let inliers := map (fun r => Rltb r residual_threshold) model_residuals in
      f <- criterion m points_all weights labels table_prob ;;
      Return (Some {| model := m; model_fit := f; model_inliers := inliers |}, g')
  end.

(** The comparison at the end of the loop body. *)
Definition update (st : best) (o : option outcome) : best :=
  match o with
  | None => st
  | Some o =>
      let sample_inlier_num := count_true (model_inliers o) in
      if fit_lt (model_fit o) (best_model_fit st) then
        if (best_inlier_num st <? sample_inlier_num)%nat then
          {| best_model := Some (model o);
             best_inlier_num := sample_inlier_num;
             best_model_fit := Fin (model_fit o);
             best_inliers := Some (model_inliers o) |}
        else
          {| best_model := Some (model o);
             best_inlier_num := best_inlier_num st;
             best_model_fit := Fin (model_fit o);
             best_inliers := best_inliers st |}
      else st
  end.

(** [for _ in range(max_trials)] *)
Fixpoint loop (n : nat) (g : rng) (st : best) : result best :=
  match n with
  | O => Return st
  | S n' => '(o, g') <- trial g ;; loop n' g' (update st o)
  end.

(** The trials of the loop alone, in order. *)
Fixpoint trial_outcomes (n : nat) (g : rng) : result (list (option outcome)) :=
  match n with
  | O => Return []
  | S n' =>
      '(o, g') <- trial g ;;
      os <- trial_outcomes n' g' ;;
      Return (o :: os)
  end.

(** After the loop: the final estimate on the tracked inliers,
    [points[best_inliers]]; the mask has one entry per point
    ([residuals_length]). *)
Definition finish (st : best) : result (option M * option (list bool)) :=
  match best_inliers st with
  | Some mask =>
      match best_model st with
      | Some m => Return (Some (fst (estimate m (compress mask points))), Some mask)
      | None => Raise AttributeError
      end
  | None => Return (best_model st, None)
  end.

(** A trial improves the criterion when its fit is below that of every
    earlier trial that was not skipped. *)
Definition improving (before : list (option outcome)) (o : outcome) : Prop :=
  forall o', In (Some o') before -> (model_fit o < model_fit o')%R.

(** The loop is the comparison folded over its trials. *)
Lemma loop_fold (n : nat) : forall g st,
  loop n g st = (os <- trial_outcomes n g ;; Return (fold_left update os st)).
Proof.
  induction n as [|n IH]; intros g st; simpl.
  - reflexivity.
  - destruct (trial g) as [[o g']|e]; simpl; [|reflexivity].
    rewrite IH. destruct (trial_outcomes n g'); reflexivity.
Qed.

(** A trial's [model_fit] is the criterion of its model on the full field. *)
Lemma trial_fit (g g' : rng) (o : outcome) :
  trial g = Return (Some o, g') ->
  criterion (model o) points_all weights labels table_prob = Return (model_fit o).
Proof.
  unfold trial. intro H.
  destruct (randint g (length points) min_samples) as [[idx g1]|]; simpl in H; [|discriminate].
  destruct (take points idx) as [samples|]; simpl in H; [|discriminate].
  destruct (estimate new_model samples) as [m success].
  destruct success as [[|]|];
    try (destruct (criterion m points_all weights labels table_prob) as [f|] eqn:E;
         simpl in H; [injection H as Ho _; subst o; exact E | discriminate]).
  discriminate.
Qed.

Lemma trial_outcomes_fit (n : nat) : forall g outs o,
  trial_outcomes n g = Return outs -> In (Some o) outs ->
  criterion (model o) points_all weights labels table_prob = Return (model_fit o).
Proof.
  induction n as [|n IH]; intros g outs o H Hin; simpl in H.
  - injection H as H. subst outs. contradiction.
  - destruct (trial g) as [[x g']|] eqn:Et; simpl in H; [|discriminate].
    destruct (trial_outcomes n g') as [os|] eqn:Eo; simpl in H; [|discriminate].
    injection H as H. subst outs. destruct Hin as [Hx|Hin].
    + subst x. eapply trial_fit; eassumption.
    + eapply IH; eassumption.
Qed.

Lemma trial_outcomes_length (n : nat) : forall g outs,
  trial_outcomes n g = Return outs -> length outs = n.
Proof.
  induction n as [|n IH]; intros g outs H; simpl in H.
  - injection H as H. subst outs. reflexivity.
  - destruct (trial g) as [[x g']|]; simpl in H; [|discriminate].
    destruct (trial_outcomes n g') as [os|] eqn:Eo; simpl in H; [|discriminate].
    injection H as H. subst outs. simpl. f_equal. eapply IH; eassumption.
Qed.

(** What the loop variables hold after the trials [outs]. *)
Definition model_inv (outs : list (option outcome)) (st : best) : Prop :=
  match best_model st with
  | None => best_model_fit st = Inf /\ forall o, ~ In (Some o) outs
  | Some m =>
      exists before o after,
        outs = before ++ Some o :: after /\ m = model o /\
        best_model_fit st = Fin (model_fit o) /\
        improving before o /\
        (forall o', In (Some o') after -> (model_fit o <= model_fit o')%R)
  end.

Definition mask_inv (outs : list (option outcome)) (st : best) : Prop :=
  match best_inliers st with
  | None =>
      best_inlier_num st = 0%nat /\
      forall before o after, outs = before ++ Some o :: after ->
        improving before o -> count_true (model_inliers o) = 0%nat
  | Some mask =>
      best_inlier_num st = count_true mask /\ (0 < count_true mask)%nat /\
      (exists before o after, outs = before ++ Some o :: after /\
         improving before o /\ model_inliers o = mask) /\
      (forall before o after, outs = before ++ Some o :: after ->
         improving before o ->
         (count_true (model_inliers o) <= count_true mask)%nat)
  end.

Lemma model_inv_step (outs : list (option outcome)) (st : best) (x : option outcome) :
  model_inv outs st -> model_inv (outs ++ [x]) (update st x).
Proof.
  unfold model_inv. intro H. destruct x as [o|]; simpl.
  - destruct (best_model st) as [m|] eqn:Em.
    + destruct H as (before & ob & after & Houts & Hm & Hfit & Himp & Hafter).
      rewrite Hfit. simpl. destruct (Rltb (model_fit o) (model_fit ob)) eqn:Elt.
      * apply Rltb_true in Elt.
        assert (Hnew : improving outs o).
        { intros o' Hin. subst outs. apply in_app_or in Hin.
          destruct Hin as [Hin|[Hin|Hin]].
          - specialize (Himp _ Hin). lra.
          - injection Hin as Hin. subst o'. exact Elt.
          - specialize (Hafter _ Hin). lra. }
        destruct (best_inlier_num st <? count_true (model_inliers o))%nat; simpl;
          exists outs, o, []; repeat split; auto; intros o' [].
      * apply Rltb_false in Elt. rewrite Em.
        exists before, ob, (after ++ [Some o]). subst outs.
        rewrite <- app_assoc. simpl. repeat split; auto.
        intros o' Hin. apply in_app_or in Hin. destruct Hin as [Hin|[Hin|[]]].
        -- auto.
        -- injection Hin as Hin. subst o'. exact Elt.
    + destruct H as [Hfit Hnone]. rewrite Hfit. simpl.
      assert (Hnew : improving outs o).
      { intros o' Hin. destruct (Hnone _ Hin). }
      destruct (best_inlier_num st <? count_true (model_inliers o))%nat; simpl;
        exists outs, o, []; repeat split; auto; intros o' [].
  - destruct (best_model st) as [m|].
    + destruct H as (before & ob & after & Houts & Hm & Hfit & Himp & Hafter).
      exists before, ob, (after ++ [None]). subst outs.
      rewrite <- app_assoc. simpl. repeat split; auto.
      intros o' Hin. apply in_app_or in Hin. destruct Hin as [Hin|[Hin|[]]].
      * auto.
      * discriminate.
    + destruct H as [Hfit Hnone]. split; [exact Hfit|].
      intros o Hin. apply in_app_or in Hin. destruct Hin as [Hin|[Hin|[]]].
      * exact (Hnone _ Hin).
      * discriminate.
Qed.

(** The comparison accepts a trial exactly when it improves the criterion. *)
Lemma fit_lt_improving (outs : list (option outcome)) (st : best) (o : outcome) :
  model_inv outs st ->
  fit_lt (model_fit o) (best_model_fit st) = true <-> improving outs o.
Proof.
  unfold model_inv. intro H. destruct (best_model st) as [m|].
  - destruct H as (before & ob & after & Houts & Hm & Hfit & Himp & Hafter).
    rewrite Hfit. simpl. rewrite Rltb_true. split.
    + intros Hlt o' Hin. subst outs. apply in_app_or in Hin.
      destruct Hin as [Hin|[Hin|Hin]].
      * specialize (Himp _ Hin). lra.
      * injection Hin as Hin. subst o'. exact Hlt.
      * specialize (Hafter _ Hin). lra.
    + intro Hnew. apply Hnew. subst outs. apply in_or_app. right. left. reflexivity.
  - destruct H as [Hfit Hnone]. rewrite Hfit. simpl. split; [|reflexivity].
    intros _ o' Hin. destruct (Hnone _ Hin).
Qed.

Lemma mask_inv_step (outs : list (option outcome)) (st : best) (x : option outcome) :
  model_inv outs st -> mask_inv outs st -> mask_inv (outs ++ [x]) (update st x).
Proof.
  intros Hmodel H. unfold mask_inv in *. destruct x as [o|]; simpl.
  - pose proof (fit_lt_improving outs st o Hmodel) as Hacc.
    destruct (fit_lt (model_fit o) (best_model_fit st)) eqn:Elt.
    + assert (Hnew : improving outs o) by (apply Hacc; reflexivity).
      destruct (best_inlier_num st <? count_true (model_inliers o))%nat eqn:Enum; simpl.
      * apply Nat.ltb_lt in Enum. split; [reflexivity|]. split; [lia|]. split.
        -- exists outs, o, []. auto.
        -- intros before o' after Hsplit Himp.
           apply snoc_split in Hsplit.
           destruct Hsplit as [(after' & _ & Houts)|(Hb & Ho & _)].
           ++ destruct (best_inliers st) as [mask|].
              ** destruct H as (Hn & _ & _ & Hmax). specialize (Hmax _ _ _ Houts Himp). lia.
              ** destruct H as (Hn & Hzero). rewrite (Hzero _ _ _ Houts Himp). lia.
           ++ injection Ho as Ho. subst o'. lia.
      * apply Nat.ltb_ge in Enum. destruct (best_inliers st) as [mask|].
        -- destruct H as (Hn & Hpos & (before & ob & after & Houts & Himp & Hmask) & Hmax).
           split; [exact Hn|]. split; [exact Hpos|]. split.
           ++ exists before, ob, (after ++ [Some o]). subst outs.
              rewrite <- app_assoc. auto.
           ++ intros before' o' after' Hsplit Himp'.
              apply snoc_split in Hsplit.
              destruct Hsplit as [(after'' & _ & Houts')|(Hb & Ho & _)].
              ** eapply Hmax; eassumption.
              ** injection Ho as Ho. subst o'. lia.
        -- destruct H as (Hn & Hzero). split; [exact Hn|].
           intros before' o' after' Hsplit Himp'.
           apply snoc_split in Hsplit.
           destruct Hsplit as [(after'' & _ & Houts')|(Hb & Ho & _)].
           ** eapply Hzero; eassumption.
           ** injection Ho as Ho. subst o'. lia.
    + assert (Hold : ~ improving outs o).
      { intro Hi. apply Hacc in Hi. discriminate. }
      destruct (best_inliers st) as [mask|].
      * destruct H as (Hn & Hpos & (before & ob & after & Houts & Himp & Hmask) & Hmax).
        split; [exact Hn|]. split; [exact Hpos|]. split.
        -- exists before, ob, (after ++ [Some o]). subst outs.
           rewrite <- app_assoc. auto.
        -- intros before' o' after' Hsplit Himp'.
           apply snoc_split in Hsplit.
           destruct Hsplit as [(after'' & _ & Houts')|(Hb & Ho & _)].
           ++ eapply Hmax; eassumption.
           ++ injection Ho as Ho. subst o' before'. contradiction.
      * destruct H as (Hn & Hzero). split; [exact Hn|].
        intros before' o' after' Hsplit Himp'.
        apply snoc_split in Hsplit.
        destruct Hsplit as [(after'' & _ & Houts')|(Hb & Ho & _)].
        -- eapply Hzero; eassumption.
        -- injection Ho as Ho. subst o' before'. contradiction.
  - destruct (best_inliers st) as [mask|].
    + destruct H as (Hn & Hpos & (before & ob & after & Houts & Himp & Hmask) & Hmax).
      split; [exact Hn|]. split; [exact Hpos|]. split.
      * exists before, ob, (after ++ [None]). subst outs. rewrite <- app_assoc. auto.
      * intros before' o' after' Hsplit Himp'.
        apply snoc_split in Hsplit.
        destruct Hsplit as [(after'' & _ & Houts')|(Hb & Ho & _)].
        -- eapply Hmax; eassumption.
        -- discriminate.
    + destruct H as (Hn & Hzero). split; [exact Hn|].
      intros before' o' after' Hsplit Himp'.
      apply snoc_split in Hsplit.
      destruct Hsplit as [(after'' & _ & Houts')|(Hb & Ho & _)].
      * eapply Hzero; eassumption.
      * discriminate.
Qed.

Lemma fold_update_inv (outs : list (option outcome)) :
  model_inv outs (fold_left update outs init) /\
  mask_inv outs (fold_left update outs init).
Proof.
  induction outs as [|x outs IH] using rev_ind.
  - simpl. split.
    + unfold model_inv. simpl. split; [reflexivity|]. intros o [].
    + unfold mask_inv. simpl. split; [reflexivity|].
      intros before o after Hsplit. destruct before; discriminate.
  - rewrite fold_left_app. simpl. destruct IH as [Hm Hk]. split.
    + apply model_inv_step. exact Hm.
    + apply mask_inv_step; assumption.
Qed.

(** A mask is tracked only beside a model. *)
Lemma mask_needs_model (outs : list (option outcome)) (st : best) :
  model_inv outs st -> mask_inv outs st ->
  best_model st = None -> best_inliers st = None.
Proof.
  unfold model_inv, mask_inv. intros Hm Hk Hnone. rewrite Hnone in Hm.
  destruct Hm as [_ Hno]. destruct (best_inliers st) as [mask|]; [|reflexivity].
  destruct Hk as (_ & _ & (before & o & after & Houts & _) & _).
  exfalso. apply (Hno o). subst outs. apply in_or_app. right. left. reflexivity.
Qed.

End Trials.

Arguments outcome : clear implicits.
Arguments best : clear implicits.

(** The checks of the arguments, before the loop. *)
Definition check_params (min_samples : number) (max_trials : Z) (npoints : nat)
  : result Z :=
  ms <- match min_samples with
        | PyFloat x =>
            if Rleb 0 x && Rleb x 1
            then Return (int_of_float (Float64.round (x * INR npoints)))
            else Raise (ValueError "`min_samples` as ration must be in range (0, 1)")
        | PyInt n => Return n
        end ;;
  if (ms <? 0)%Z then Raise (ValueError "`min_samples` must be greater than zero")
  else if (max_trials <? 0)%Z
       then Raise (ValueError "`max_trials` must be greater than zero")
       else Return ms.

Definition ransac_segm {Pt M : Type} {model_class : ModelClass Pt M} (g : rng)
  (points points_all : list Pt) (weights : list R) (labels : list Z)
  (table_prob : list (list R)) (min_samples : number)
  (residual_threshold : R) (max_trials : Z)
  : result (option M * option (list bool)) :=
  ms <- check_params min_samples max_trials (length points) ;;
  st <- loop points points_all weights labels table_prob residual_threshold
             (Z.to_nat ms) (Z.to_nat max_trials) g init ;;
  finish points st.

(** *** A model class to run the loop on

    A location on the line: [estimate] takes the first sample and fails on
    an empty one, a residual is the signed offset, the criterion is the
    total distance to the points of the field. *)

Module Location.

Definition loc_estimate (m : R) (samples : list R) : R * option bool :=
  match samples with
  | [] => (m, Some false)
  | x :: _ => (x, Some true)
  end.

Definition loc_residuals (m : R) (pts : list R) : list R :=
  map (fun p => (p - m)%R) pts.

Definition loc_criterion (m : R) (field : list R) (weights : list R)
  (labels : list Z) (table : list (list R)) : result R :=
  Return (Rsum (map (fun p => Rabs (p - m)) field)).

#[export] Instance model_class : ModelClass R R := {|
  new_model := 0%R;
  estimate := loc_estimate;
  residuals := loc_residuals;
  criterion := loc_criterion;
  residuals_length := fun m pts => length_map _ pts
|}.

(** A generator whose first draws are [0] and [2]. *)
Definition draws : rng := fun i => match i with 1%nat => 2%nat | _ => 0%nat end.

(** Three points to fit, and a field of one point. *)
Definition pts : list R := [0; 1; 10]%R.
Definition field : list R := [10%R].

(** The two trials of [draws] on [pts], with [min_samples = 1] and
    [residual_threshold = 2]. *)
Definition first_trial : outcome R :=
  {| model := 0%R; model_fit := 10%R; model_inliers := [true; true; false] |}.
Definition second_trial : outcome R :=
  {| model := 10%R; model_fit := 0%R; model_inliers := [false; false; true] |}.

End Location.

(** *** The call as a whole *)

Section Call.

Context {Pt M : Type} {MC : ModelClass Pt M}.
Variables (g : rng) (points points_all : list Pt) (weights : list R).
Variables (labels : list Z) (table_prob : list (list R)).
Variables (min_samples : number) (residual_threshold : R) (max_trials : Z).

Lemma ransac_segm_run (ms : Z) (outs : list (option (outcome M))) :
  check_params min_samples max_trials (length points) = Return ms ->
  trial_outcomes points points_all weights labels table_prob residual_threshold
    (Z.to_nat ms) (Z.to_nat max_trials) g = Return outs ->
  ransac_segm g points points_all weights labels table_prob min_samples
    residual_threshold max_trials
  = finish points (fold_left update outs init).
Proof.
  intros Hc Ht. unfold ransac_segm. rewrite Hc. simpl.
  rewrite loop_fold, Ht. reflexivity.
Qed.

Lemma ransac_segm_returns (r : option M * option (list bool)) :
  ransac_segm g points points_all weights labels table_prob min_samples
    residual_threshold max_trials = Return r ->
  exists ms outs,
    check_params min_samples max_trials (length points) = Return ms /\
    trial_outcomes points points_all weights labels table_prob residual_threshold
      (Z.to_nat ms) (Z.to_nat max_trials) g = Return outs /\
    finish points (fold_left update outs init) = Return r.
Proof.
  unfold ransac_segm. intro H.
  destruct (check_params min_samples max_trials (length points)) as [ms|] eqn:Hc;
    simpl in H; [|discriminate].
  rewrite loop_fold in H.
  destruct (trial_outcomes points points_all weights labels table_prob
              residual_threshold (Z.to_nat ms) (Z.to_nat max_trials) g)
    as [outs|] eqn:Ht; simpl in H; [|discriminate].
  exists ms, outs. auto.
Qed.

(** An argument that fails the checks raises before any trial is run. *)
Lemma ransac_segm_raises_early (e : exn) :
  check_params min_samples max_trials (length points) = Raise e ->
  ransac_segm g points points_all weights labels table_prob min_samples
    residual_threshold max_trials = Raise e.
Proof.
  intro Hc. unfold ransac_segm. rewrite Hc. reflexivity.
Qed.

End Call.

(** *** The checks of [min_samples] and [max_trials] *)

Lemma fraction_out_of_range (x : R) (max_trials : Z) (npoints : nat) :
  (x < 0 \/ 1 < x)%R ->
  check_params (PyFloat x) max_trials npoints
  = Raise (ValueError "`min_samples` as ration must be in range (0, 1)").
Proof.
  intro H. unfold check_params.
  assert (E : Rleb 0 x && Rleb x 1 = false).
  { destruct H as [H|H].
    - rewrite (proj2 (Rleb_false 0 x)) by lra. reflexivity.
    - rewrite (proj2 (Rleb_false x 1)) by lra. apply andb_false_r. }
  rewrite E. reflexivity.
Qed.

Lemma negative_count (n max_trials : Z) (npoints : nat) :
  (n < 0)%Z ->
  check_params (PyInt n) max_trials npoints
  = Raise (ValueError "`min_samples` must be greater than zero").
Proof.
  intro H. unfold check_params. simpl.
  apply Z.ltb_lt in H. rewrite H. reflexivity.
Qed.

Lemma negative_trials (n max_trials : Z) (npoints : nat) :
  (0 <= n)%Z -> (max_trials < 0)%Z ->
  check_params (PyInt n) max_trials npoints
  = Raise (ValueError "`max_trials` must be greater than zero").
Proof.
  intros Hn H. unfold check_params. simpl.
  apply Z.ltb_ge in Hn. rewrite Hn. apply Z.ltb_lt in H. rewrite H. reflexivity.
Qed.

Lemma fraction_product (x : R) (npoints : nat) :
  (0 <= x <= 1)%R ->
  (0 <= Float64.round (x * INR npoints))%R /\
  ((Z.of_nat npoints < 2 ^ 53)%Z -> (Float64.round (x * INR npoints) <= INR npoints)%R).
Proof.
  intro Hx. assert (Hn : (0 <= INR npoints)%R) by apply pos_INR.
  assert (Hp : (0 <= x * INR npoints <= INR npoints)%R) by nra.
  split.
  - apply Float64.round_ge; [lra|]. apply (Float64.representable_IZR 0). reflexivity.
  - intro Hsmall. apply Float64.round_le; [lra|]. rewrite INR_IZR_INZ.
    apply Float64.representable_IZR. lia.
Qed.

(** The count of a fraction: the product is rounded to a double, then
    truncated. *)
Lemma fraction_count (x : R) (max_trials : Z) (npoints : nat) :
  (0 <= x <= 1)%R -> (0 <= max_trials)%Z ->
  check_params (PyFloat x) max_trials npoints
  = Return (Int_part (Float64.round (x * INR npoints))) /\
  (0 <= Int_part (Float64.round (x * INR npoints)))%Z /\
  ((Z.of_nat npoints < 2 ^ 53)%Z ->
   (Int_part (Float64.round (x * INR npoints)) <= Z.of_nat npoints)%Z).
Proof.
  intros Hx Hm. destruct (fraction_product x npoints Hx) as [Hlo Hhi].
  set (y := Float64.round (x * INR npoints)) in *.
  destruct (base_Int_part y) as [Hfl Hfr].
  assert (Hb : (0 <= Int_part y)%Z).
  { assert (Hz : (IZR (-1) < IZR (Int_part y))%R) by lra. apply lt_IZR in Hz. lia. }
  split; [|split; [exact Hb|]].
  - unfold check_params.
    rewrite (proj2 (Rleb_true 0 x)) by lra.
    rewrite (proj2 (Rleb_true x 1)) by lra. simpl. fold y.
    unfold int_of_float. destruct (Rle_dec 0 y) as [_|Hneg]; [|lra].
    apply Z.ltb_ge in Hb. rewrite Hb.
    apply Z.ltb_ge in Hm. rewrite Hm. reflexivity.
  - intro Hsmall. specialize (Hhi Hsmall). apply le_IZR. rewrite <- INR_IZR_INZ. lra.
Qed.

(** The double nearest to [0.7], with ten points: the product rounds to
    [7.0] and the count is [7], one more than the floor of the product. *)
Example fraction_rounds_up :
  check_params (PyFloat (6305039478318694 / 9007199254740992)) 0 10 = Return 7%Z /\
  Int_part (6305039478318694 / 9007199254740992 * INR 10) = 6%Z.
Proof.
  split.
  - destruct (fraction_count (6305039478318694 / 9007199254740992) 0 10)
      as [Hc _]; [lra | lia |].
    rewrite Hc. f_equal. rewrite INR_IZR_INZ. simpl Z.of_nat.
    rewrite Float64.seven_tenths_of_ten. symmetry. apply Int_part_spec. lra.
  - rewrite INR_IZR_INZ. simpl Z.of_nat. symmetry. apply Int_part_spec. lra.
Qed.

(** *** Which trial the result comes from *)

(** [o], between the trials [before] and [after], is the first trial of
    [outs] that attains the lowest criterion among the trials not skipped. *)
Definition first_lowest {M : Type} (outs before : list (option (outcome M)))
  (o : outcome M) (after : list (option (outcome M))) : Prop :=
  outs = before ++ Some o :: after /\
  improving before o /\
  (forall o', In (Some o') after -> (model_fit o <= model_fit o')%R).

(** [o] improves the criterion when its turn comes, and no trial that does
    so has more inliers. *)
Definition most_inliers_improving {M : Type} (outs before : list (option (outcome M)))
  (o : outcome M) (after : list (option (outcome M))) : Prop :=
  outs = before ++ Some o :: after /\
  improving before o /\
  (forall before' o' after', outs = before' ++ Some o' :: after' ->
     improving before' o' ->
     (count_true (model_inliers o') <= count_true (model_inliers o))%nat).

(** C1, amended. When [ransac_segm] returns and some trial's estimate
    succeeded, the loop has tracked the model of the first trial that
    attains the lowest criterion over [(points_all, weights, labels,
    table_prob)] among the trials that were not skipped, and inlier counts
    play no part in which trial that is. This model is returned as it is
    only when no mask is tracked. With a mask, what is returned is this
    model after [estimate] has run on it with the points of the mask, which
    overwrites its parameters; the mask may be that of another trial. *)
Theorem ransac_segm_lowest_criterion {Pt M : Type} {MC : ModelClass Pt M}
  (g : rng) (points points_all : list Pt) (weights : list R) (labels : list Z)
  (table_prob : list (list R)) (min_samples : number) (residual_threshold : R)
  (max_trials : Z) (bm : option M) (bi : option (list bool)) :
  ransac_segm g points points_all weights labels table_prob min_samples
    residual_threshold max_trials = Return (bm, bi) ->
  exists ms outs,
    check_params min_samples max_trials (length points) = Return ms /\
    trial_outcomes points points_all weights labels table_prob residual_threshold
      (Z.to_nat ms) (Z.to_nat max_trials) g = Return outs /\
    (forall o, In (Some o) outs ->
       criterion (model o) points_all weights labels table_prob
       = Return (model_fit o)) /\
    ((exists o, In (Some o) outs) ->
     exists before o after,
       first_lowest outs before o after /\
       bm = Some match bi with
                 | Some mask => fst (estimate (model o) (compress mask points))
                 | None => model o
                 end).
Proof.
  intro H. apply ransac_segm_returns in H.
  destruct H as (ms & outs & Hc & Ht & Hf).
  exists ms, outs. split; [exact Hc|]. split; [exact Ht|]. split.
  - intros o Hin. eapply trial_outcomes_fit; eassumption.
  - intros [o1 Hin].
    destruct (fold_update_inv outs) as [Hm _].
    unfold model_inv in Hm. unfold finish in Hf.
    destruct (best_model (fold_left update outs init)) as [m|].
    + destruct Hm as (before & o & after & Houts & Hmo & _ & Himp & Hafter).
      exists before, o, after. split; [repeat split; assumption|].
      destruct (best_inliers (fold_left update outs init)) as [mask|];
        injection Hf as Hbm Hbi; subst; reflexivity.
    + destruct Hm as [_ Hno]. destruct (Hno _ Hin).
Qed.

(** Once the arguments pass the checks and the trials run, the call
    returns; what is [None] in the result is decided by the trials. *)
Lemma ransac_segm_result_shape {Pt M : Type} {MC : ModelClass Pt M}
  (g : rng) (points points_all : list Pt) (weights : list R) (labels : list Z)
  (table_prob : list (list R)) (min_samples : number) (residual_threshold : R)
  (max_trials : Z) (ms : Z) (outs : list (option (outcome M))) :
  check_params min_samples max_trials (length points) = Return ms ->
  trial_outcomes points points_all weights labels table_prob residual_threshold
    (Z.to_nat ms) (Z.to_nat max_trials) g = Return outs ->
  exists bm bi,
    ransac_segm g points points_all weights labels table_prob min_samples
      residual_threshold max_trials = Return (bm, bi) /\
    ((bm, bi) = (None, None) <-> (forall o, ~ In (Some o) outs)) /\
    ((exists o, In (Some o) outs) -> bm <> None) /\
    (bi <> None <->
     exists before o after,
       outs = before ++ Some o :: after /\ improving before o /\
       (0 < count_true (model_inliers o))%nat).
Proof.
  intros Hc Ht. rewrite (ransac_segm_run _ _ _ _ _ _ _ _ _ _ _ Hc Ht).
  destruct (fold_update_inv outs) as [Hm Hk].
  pose proof (mask_needs_model _ _ Hm Hk) as Hneed.
  unfold model_inv in Hm. unfold mask_inv in Hk. unfold finish.
  destruct (best_inliers (fold_left update outs init)) as [mask|].
  - destruct (best_model (fold_left update outs init)) as [m|].
    + destruct Hm as (before & o & after & Houts & _).
      destruct Hk as (_ & Hpos & (before' & o' & after' & Houts' & Himp' & Hmask) & _).
      eexists; eexists. split; [reflexivity|]. split; [|split].
      * split; [discriminate|]. intro Hno. exfalso. apply (Hno o).
        rewrite Houts. apply in_or_app. right. left. reflexivity.
      * intros _. discriminate.
      * split; [|discriminate]. intros _.
        exists before', o', after'. rewrite Hmask. auto.
    + discriminate Hneed. reflexivity.
  - destruct Hk as [_ Hzero].
    eexists; eexists. split; [reflexivity|]. split; [|split].
    + destruct (best_model (fold_left update outs init)) as [m|].
      * destruct Hm as (before & o & after & Houts & _).
        split; [discriminate|]. intro Hno. exfalso. apply (Hno o).
        rewrite Houts. apply in_or_app. right. left. reflexivity.
      * destruct Hm as [_ Hno]. split; [intros _; exact Hno | reflexivity].
    + intros [o Hin]. destruct (best_model (fold_left update outs init)) as [m|].
      * discriminate.
      * destruct Hm as [_ Hno]. destruct (Hno _ Hin).
    + split; [intro Hn; exfalso; apply Hn; reflexivity|].
      intros (before & o & after & Houts & Himp & Hpos).
      rewrite (Hzero _ _ _ Houts Himp) in Hpos. lia.
Qed.

(** C4. When a mask is returned, the returned model is the best model of
    the loop after one more [estimate] on exactly the points the mask
    selects. The mask is that of a trial which improved the criterion and
    has the most inliers among those that did; this need not be the trial
    the model comes from, as the run on three points of the line shows:
    its second trial has the lower criterion and fewer inliers, the model
    is its model, the mask is the first trial's. *)
Theorem ransac_segm_final_estimate :
  (forall (Pt M : Type) (MC : ModelClass Pt M)
     (g : rng) (points points_all : list Pt) (weights : list R) (labels : list Z)
     (table_prob : list (list R)) (min_samples : number) (residual_threshold : R)
     (max_trials : Z) (bm : option M) (mask : list bool),
     ransac_segm g points points_all weights labels table_prob min_samples
       residual_threshold max_trials = Return (bm, Some mask) ->
     exists ms outs,
       check_params min_samples max_trials (length points) = Return ms /\
       trial_outcomes points points_all weights labels table_prob residual_threshold
         (Z.to_nat ms) (Z.to_nat max_trials) g = Return outs /\
       (exists before o after,
          first_lowest outs before o after /\
          bm = Some (fst (estimate (model o) (compress mask points)))) /\
       (exists before o after,
          most_inliers_improving outs before o after /\ model_inliers o = mask))
  /\
  (exists o1 o2 : outcome R,
     trial_outcomes (MC := Location.model_class) [0; 1; 10]%R [10%R] [] [] [] 2%R
       1 2 Location.draws = Return [Some o1; Some o2] /\
     (model_fit o2 < model_fit o1)%R /\
     (count_true (model_inliers o2) < count_true (model_inliers o1))%nat /\
     ransac_segm (model_class := Location.model_class) Location.draws
       [0; 1; 10]%R [10%R] [] [] [] (PyInt 1) 2%R 2
     = Return (Some (fst (Location.loc_estimate (model o2)
                            (compress (model_inliers o1) [0; 1; 10]%R))),
               Some (model_inliers o1))).
Proof.
  split.
  - intros Pt M MC g points points_all weights labels table_prob min_samples
      residual_threshold max_trials bm mask H.
    apply ransac_segm_returns in H. destruct H as (ms & outs & Hc & Ht & Hf).
    exists ms, outs. split; [exact Hc|]. split; [exact Ht|].
    destruct (fold_update_inv outs) as [Hm Hk].
    unfold model_inv in Hm. unfold mask_inv in Hk. unfold finish in Hf.
    destruct (best_inliers (fold_left update outs init)) as [mask'|];
      [|destruct (best_model (fold_left update outs init)); discriminate].
    destruct (best_model (fold_left update outs init)) as [m|]; [|discriminate].
    injection Hf as Hbm Hmask. subst mask'.
    destruct Hm as (before & o & after & Houts & Hmo & _ & Himp & Hafter).
    destruct Hk as (_ & _ & (before' & o' & after' & Houts' & Himp' & Hmask) & Hmax).
    split.
    + exists before, o, after. split; [repeat split; assumption|].
      subst m. symmetry. exact Hbm.
    + exists before', o', after'. split; [|exact Hmask].
      split; [exact Houts'|]. split; [exact Himp'|].
      rewrite Hmask. exact Hmax.
  - eexists. eexists. split; [|split; [|split]].
    + simpl. unfold trial. simpl.
      unfold Location.loc_criterion, Location.loc_residuals. simpl.
      reflexivity.
    + simpl. r_eval. lra.
    + simpl. r_eval. unfold count_true. simpl. lia.
    + unfold ransac_segm. simpl. unfold trial. simpl.
      unfold Location.loc_criterion, Location.loc_residuals. simpl.
      r_eval. simpl. r_eval. reflexivity.
Qed.

(** *** Runs of the loop on the line *)

Example location_outcomes :
  trial_outcomes (MC := Location.model_class) Location.pts Location.field [] [] []
    2%R 1 2 Location.draws
  = Return [Some Location.first_trial; Some Location.second_trial].
Proof.
  simpl. unfold trial. simpl.
  unfold Location.loc_criterion, Location.loc_residuals. simpl. r_eval.
  unfold Location.first_trial, Location.second_trial.
  repeat f_equal; lra.
Qed.

Example location_two_trials :
  ransac_segm (model_class := Location.model_class) Location.draws
    Location.pts Location.field [] [] [] (PyInt 1) 2%R 2
  = Return (Some 0%R, Some [true; true; false]).
Proof.
  unfold ransac_segm. simpl. unfold trial. simpl.
  unfold Location.loc_criterion, Location.loc_residuals. simpl.
  r_eval. simpl. r_eval. reflexivity.
Qed.

(** C1 fails as stated. Of the two trials of [Location.draws] the second
    has the lower criterion, [0] against [10], and fewer inliers, one
    against two. The call returns the parameters of the first trial, not
    those of the second: the mask tracked is that of the first trial, and
    the final estimate on its points overwrites the model of the second. *)
Lemma lowest_criterion_not_returned :
  trial_outcomes (MC := Location.model_class) Location.pts Location.field [] [] []
    2%R 1 2 Location.draws
  = Return [Some Location.first_trial; Some Location.second_trial] /\
  (model_fit Location.second_trial < model_fit Location.first_trial)%R /\
  (count_true (model_inliers Location.second_trial)
   < count_true (model_inliers Location.first_trial))%nat /\
  model Location.first_trial <> model Location.second_trial /\
  exists bi,
    ransac_segm (model_class := Location.model_class) Location.draws
      Location.pts Location.field [] [] [] (PyInt 1) 2%R 2
    = Return (Some (model Location.first_trial), bi).
Proof.
  split; [exact location_outcomes|].
  split; [simpl; lra|].
  split; [unfold count_true; simpl; lia|].
  split; [simpl; lra|].
  exists (Some [true; true; false]). exact location_two_trials.
Qed.

(** With [residual_threshold = 0] no residual is below the threshold. *)
Example location_no_inlier :
  trial_outcomes (MC := Location.model_class) [0%R] [] [] [] [] 0%R 1 1
    (fun _ => 0%nat)
  = Return [Some {| model := 0%R; model_fit := 0%R; model_inliers := [false] |}].
Proof.
  simpl. unfold trial. simpl.
  unfold Location.loc_criterion, Location.loc_residuals. simpl. r_eval.
  reflexivity.
Qed.

(** C3 fails as stated: a trial's estimate succeeds, a model is returned,
    and the mask is [None]. *)
Lemma mask_none_beside_model :
  (exists o : outcome R,
     trial_outcomes (MC := Location.model_class) [0%R] [] [] [] [] 0%R 1 1
       (fun _ => 0%nat) = Return [Some o]) /\
  ransac_segm (model_class := Location.model_class) (fun _ => 0%nat)
    [0%R] [] [] [] [] (PyInt 1) 0%R 1
  = Return (Some 0%R, None).
Proof.
  split.
  - eexists. exact location_no_inlier.
  - unfold ransac_segm. simpl. unfold trial. simpl.
    unfold Location.loc_criterion, Location.loc_residuals. simpl. r_eval.
    reflexivity.
Qed.

Lemma ransac_segm_lowest_criterion_witness :
  exists ms outs,
    check_params (PyInt 1) 2 (length Location.pts) = Return ms /\
    trial_outcomes (MC := Location.model_class) Location.pts Location.field [] [] []
      2%R (Z.to_nat ms) (Z.to_nat 2) Location.draws = Return outs /\
    (forall o, In (Some o) outs ->
       Location.loc_criterion (model o) Location.field [] [] []
       = Return (model_fit o)) /\
    ((exists o, In (Some o) outs) ->
     exists before o after,
       first_lowest outs before o after /\
       Some 0%R
       = Some (fst (Location.loc_estimate (model o)
                      (compress [true; true; false] Location.pts)))).
Proof.
  exact (ransac_segm_lowest_criterion (MC := Location.model_class)
           Location.draws Location.pts Location.field [] [] [] (PyInt 1) 2%R 2
           (Some 0%R) (Some [true; true; false]) location_two_trials).
Defined.

Lemma ransac_segm_final_estimate_witness :
  exists ms outs,
    check_params (PyInt 1) 2 (length Location.pts) = Return ms /\
    trial_outcomes (MC := Location.model_class) Location.pts Location.field [] [] []
      2%R (Z.to_nat ms) (Z.to_nat 2) Location.draws = Return outs /\
    (exists before o after,
       first_lowest outs before o after /\
       Some 0%R
       = Some (fst (Location.loc_estimate (model o)
                      (compress [true; true; false] Location.pts)))) /\
    (exists before o after,
       most_inliers_improving outs before o after /\
       model_inliers o = [true; true; false]).
Proof.
  exact (proj1 ransac_segm_final_estimate R R Location.model_class
           Location.draws Location.pts Location.field [] [] [] (PyInt 1) 2%R 2%Z
           (Some 0%R) [true; true; false] location_two_trials).
Defined.

(** *** Calls without a successful estimate *)

Lemma getitem_in_range {A : Type} (a : list A) (j : nat) :
  (j < length a)%nat -> exists x, getitem a (Z.of_nat j) = Return x.
Proof.
  intro H. unfold getitem.
  assert (E1 : (Z.of_nat j <? 0)%Z = false) by (apply Z.ltb_ge; lia).
  rewrite E1.
  assert (E2 : ((0 <=? Z.of_nat j) && (Z.of_nat j <? Z.of_nat (length a)))%Z = true).
  { apply andb_true_intro. split; [apply Z.leb_le | apply Z.ltb_lt]; lia. }
  rewrite E2. rewrite Nat2Z.id.
  destruct (nth_error a j) as [x|] eqn:E.
  - exists x. reflexivity.
  - apply nth_error_None in E. lia.
Qed.

(** The indices [randint] draws below [len(points)] always select rows. *)
Lemma randint_take {A : Type} (a : list A) (g g' : rng) (size : nat) (idx : list Z) :
  randint g (length a) size = Return (idx, g') ->
  exists samples, take a idx = Return samples.
Proof.
  unfold randint. destruct (length a =? 0)%nat eqn:E; [discriminate|].
  apply Nat.eqb_neq in E. intro H. injection H as Hidx _. subst idx.
  induction (seq 0 size) as [|i l IH]; simpl.
  - exists []. reflexivity.
  - destruct (getitem_in_range a (g i mod length a)) as [x Hx].
    { apply Nat.mod_upper_bound. exact E. }
    destruct IH as [xs Hxs]. rewrite Hx, Hxs. simpl. eexists. reflexivity.
Qed.

Section NoEstimate.

Context {Pt M : Type} {MC : ModelClass Pt M}.
Variables (g : rng) (points points_all : list Pt) (weights : list R).
Variables (labels : list Z) (table_prob : list (list R)).
Variables (min_samples : number) (residual_threshold : R) (max_trials : Z).

(** [max_trials = 0]: no trial, the result is [(None, None)]. *)
Lemma ransac_segm_no_trials (ms : Z) :
  check_params min_samples 0 (length points) = Return ms ->
  ransac_segm g points points_all weights labels table_prob min_samples
    residual_threshold 0 = Return (None, None).
Proof.
  intro Hc. unfold ransac_segm. rewrite Hc. reflexivity.
Qed.

(** Every sample degenerate: each trial is skipped, the result is
    [(None, None)]. *)
Lemma ransac_segm_all_degenerate (ms : Z) :
  points <> [] ->
  (forall samples, snd (estimate new_model samples) = Some false) ->
  check_params min_samples max_trials (length points) = Return ms ->
  ransac_segm g points points_all weights labels table_prob min_samples
    residual_threshold max_trials = Return (None, None).
Proof.
  intros Hne Hdeg Hc. unfold ransac_segm. rewrite Hc. simpl.
  assert (Hloop : forall n g0, loop points points_all weights labels table_prob
                        residual_threshold (Z.to_nat ms) n g0 init = Return init).
  { induction n as [|n IH]; intro g0; simpl; [reflexivity|].
    unfold trial.
    destruct (randint g0 (length points) (Z.to_nat ms)) as [[idx g1]|e] eqn:Er.
    - destruct (randint_take _ _ _ _ _ Er) as [samples Hs]. simpl. rewrite Hs. simpl.
      specialize (Hdeg samples).
      destruct (estimate new_model samples) as [m success]. simpl in Hdeg.
      subst success. simpl. apply IH.
    - unfold randint in Er. destruct (length points =? 0)%nat eqn:E; [|discriminate].
      apply Nat.eqb_eq in E. destruct points; [contradiction|discriminate]. }
  rewrite Hloop. reflexivity.
Qed.

End NoEstimate.

(** *** A fraction of zero *)

Lemma int_of_float_zero : int_of_float 0 = 0%Z.
Proof.
  unfold int_of_float. destruct (Rle_dec 0 0) as [_|H]; [|lra].
  change 0%R with (INR 0). apply Int_part_INR.
Qed.

Lemma check_params_zero_fraction (max_trials : Z) (npoints : nat) :
  (0 <= max_trials)%Z -> check_params (PyFloat 0) max_trials npoints = Return 0%Z.
Proof.
  intro H. unfold check_params.
  rewrite (proj2 (Rleb_true 0 0)) by lra.
  rewrite (proj2 (Rleb_true 0 1)) by lra. simpl.
  rewrite Rmult_0_l, Float64.round_0, int_of_float_zero. simpl.
  apply Z.ltb_ge in H. rewrite H. reflexivity.
Qed.

(** C5 fails as stated at the fraction [0.0], which is outside [(0, 1]]:
    the call passes the checks, draws an empty sample in its one trial and
    returns. *)
Lemma zero_fraction_runs :
  ransac_segm (model_class := Location.model_class) Location.draws
    Location.pts Location.field [] [] [] (PyFloat 0) 2%R 1
  = Return (None, None).
Proof.
  unfold ransac_segm. rewrite check_params_zero_fraction by lia. reflexivity.
Qed.

(** C5, amended. The checks come before the loop, so a failed check raises
    whatever the trials would do. A fraction below [0] or above [1] raises;
    a fraction in [[0, 1]], zero included, becomes the count
    [int(min_samples * len(points))], the product rounded to a double and
    then truncated, which is not negative and, for fewer than [2^53]
    points, at most [len(points)]; a negative count raises; a negative
    [max_trials] raises. *)
Theorem ransac_segm_checks {Pt M : Type} {MC : ModelClass Pt M}
  (g : rng) (points points_all : list Pt) (weights : list R) (labels : list Z)
  (table_prob : list (list R)) (residual_threshold : R) :
  (forall x max_trials, (x < 0 \/ 1 < x)%R ->
     ransac_segm g points points_all weights labels table_prob (PyFloat x)
       residual_threshold max_trials
     = Raise (ValueError "`min_samples` as ration must be in range (0, 1)")) /\
  (forall x max_trials, (0 <= x <= 1)%R -> (0 <= max_trials)%Z ->
     check_params (PyFloat x) max_trials (length points)
     = Return (Int_part (Float64.round (x * INR (length points)))) /\
     (0 <= Int_part (Float64.round (x * INR (length points))))%Z /\
     ((Z.of_nat (length points) < 2 ^ 53)%Z ->
      (Int_part (Float64.round (x * INR (length points)))
       <= Z.of_nat (length points))%Z)) /\
  (forall n max_trials, (n < 0)%Z ->
     ransac_segm g points points_all weights labels table_prob (PyInt n)
       residual_threshold max_trials
     = Raise (ValueError "`min_samples` must be greater than zero")) /\
  (forall n max_trials, (0 <= n)%Z -> (max_trials < 0)%Z ->
     ransac_segm g points points_all weights labels table_prob (PyInt n)
       residual_threshold max_trials
     = Raise (ValueError "`max_trials` must be greater than zero")) /\
  (forall x max_trials, (0 <= x <= 1)%R -> (max_trials < 0)%Z ->
     ransac_segm g points points_all weights labels table_prob (PyFloat x)
       residual_threshold max_trials
     = Raise (ValueError "`max_trials` must be greater than zero")).
Proof.
  split; [|split; [|split; [|split]]].
  - intros x max_trials Hx. apply ransac_segm_raises_early.
    apply fraction_out_of_range. exact Hx.
  - intros x max_trials Hx Hm. apply fraction_count; assumption.
  - intros n max_trials Hn. apply ransac_segm_raises_early.
    apply negative_count. exact Hn.
  - intros n max_trials Hn Hm. apply ransac_segm_raises_early.
    apply negative_trials; assumption.
  - intros x max_trials Hx Hm. apply ransac_segm_raises_early.
    destruct (fraction_count x 0 (length points) Hx (Z.le_refl 0)) as [_ [Hlo _]].
    destruct (fraction_product x (length points) Hx) as [Hpos _].
    unfold check_params.
    rewrite (proj2 (Rleb_true 0 x)) by lra.
    rewrite (proj2 (Rleb_true x 1)) by lra. simpl.
    unfold int_of_float.
    destruct (Rle_dec 0 (Float64.round (x * INR (length points)))) as [_|Hneg];
      [|lra].
    apply Z.ltb_ge in Hlo. rewrite Hlo.
    apply Z.ltb_lt in Hm. rewrite Hm. reflexivity.
Qed.

Lemma ransac_segm_checks_witness :
  ransac_segm (model_class := Location.model_class) Location.draws
    Location.pts Location.field [] [] [] (PyFloat 2) 2%R 15
  = Raise (ValueError "`min_samples` as ration must be in range (0, 1)") /\
  (check_params (PyFloat (6305039478318694 / 9007199254740992)) 15
     (length (repeat 0%R 10))
   = Return (Int_part (Float64.round (6305039478318694 / 9007199254740992
                                      * INR (length (repeat 0%R 10))))) /\
   (0 <= Int_part (Float64.round (6305039478318694 / 9007199254740992
                                  * INR (length (repeat 0%R 10)))))%Z /\
   ((Z.of_nat (length (repeat 0%R 10)) < 2 ^ 53)%Z ->
    (Int_part (Float64.round (6305039478318694 / 9007199254740992
                              * INR (length (repeat 0%R 10))))
     <= Z.of_nat (length (repeat 0%R 10)))%Z)).
Proof.
  split.
  - apply (proj1 (ransac_segm_checks (MC := Location.model_class) Location.draws
                    Location.pts Location.field [] [] [] 2%R)).
    right. lra.
  - apply (proj1 (proj2 (ransac_segm_checks (MC := Location.model_class)
                           Location.draws (repeat 0%R 10) Location.field
                           [] [] [] 2%R))).
    + lra.
    + lia.
Defined.

(** C3, amended. With [max_trials = 0], or with points to draw from and an
    estimate that fails on every sample, the call returns [(None, None)].
    In general, once the arguments pass the checks and the trials run, the
    call returns; the result is [(None, None)] exactly when no trial's
    estimate succeeded; when one did, the model is not [None]; the mask is
    not [None] exactly when a trial that improved the criterion had an
    inlier. *)
Theorem ransac_segm_none_iff {Pt M : Type} {MC : ModelClass Pt M}
  (g : rng) (points points_all : list Pt) (weights : list R) (labels : list Z)
  (table_prob : list (list R)) (min_samples : number) (residual_threshold : R)
  (max_trials : Z) :
  (forall ms,
     check_params min_samples 0 (length points) = Return ms ->
     ransac_segm g points points_all weights labels table_prob min_samples
       residual_threshold 0 = Return (None, None)) /\
  (forall ms,
     points <> [] ->
     (forall samples, snd (estimate new_model samples) = Some false) ->
     check_params min_samples max_trials (length points) = Return ms ->
     ransac_segm g points points_all weights labels table_prob min_samples
       residual_threshold max_trials = Return (None, None)) /\
  (forall ms outs,
     check_params min_samples max_trials (length points) = Return ms ->
     trial_outcomes points points_all weights labels table_prob residual_threshold
       (Z.to_nat ms) (Z.to_nat max_trials) g = Return outs ->
     exists bm bi,
       ransac_segm g points points_all weights labels table_prob min_samples
         residual_threshold max_trials = Return (bm, bi) /\
       ((bm, bi) = (None, None) <-> (forall o, ~ In (Some o) outs)) /\
       ((exists o, In (Some o) outs) -> bm <> None) /\
       (bi <> None <->
        exists before o after,
          outs = before ++ Some o :: after /\ improving before o /\
          (0 < count_true (model_inliers o))%nat)).
Proof.
  split; [|split].
  - intros ms Hc. eapply ransac_segm_no_trials. exact Hc.
  - intros ms Hne Hdeg Hc. eapply ransac_segm_all_degenerate; eassumption.
  - intros ms outs Hc Ht. eapply ransac_segm_result_shape; eassumption.
Qed.

Lemma ransac_segm_none_iff_witness :
  exists bm bi,
    ransac_segm (model_class := Location.model_class) Location.draws
      Location.pts Location.field [] [] [] (PyInt 1) 2%R 2 = Return (bm, bi) /\
    ((bm, bi) = (None, None) <->
     (forall o, ~ In (Some o) [Some Location.first_trial; Some Location.second_trial])) /\
    ((exists o, In (Some o) [Some Location.first_trial; Some Location.second_trial]) ->
     bm <> None) /\
    (bi <> None <->
     exists before o after,
       [Some Location.first_trial; Some Location.second_trial]
       = before ++ Some o :: after /\ improving before o /\
       (0 < count_true (model_inliers o))%nat).
Proof.
  exact (proj2 (proj2 (ransac_segm_none_iff (MC := Location.model_class)
                         Location.draws Location.pts Location.field [] [] []
                         (PyInt 1) 2%R 2%Z))
           1%Z [Some Location.first_trial; Some Location.second_trial]
           eq_refl location_outcomes).
Defined.

End Ransac.

(** ** The label-consistency criterion: [EllipseModelSegm.criterion] *)

Module Ellipse.
Import Py Float64.

(** A row of an [(N, 2)] array. *)
Definition point : Type := (R * R)%type.

(** [self.params]: [xc, yc, a, b, theta], read by [criterion] as
    [r_org, c_org, r_rad, c_rad, phi]. *)
Record params : Type := {
  r_org : R;
  c_org : R;
  r_rad : R;
  c_rad : R;
  phi : R
}.

(** [np.max] of an integer array; an empty array has no maximum. *)
Definition np_max (a : list Z) : result Z :=
  match a with
  | [] => Raise (ValueError "zero-size array to reduction operation maximum")
  | x :: rest => Return (fold_left Z.max rest x)
  end.

(** The normalised squared radius of a point relative to the ellipse, as
    the code computes it: each operation rounds to a double, [np.sin] and
    [np.cos] to the nearest one, and a radius of zero gives an infinity or
    [nan]. *)
Definition distance (self : params) (pt : point) : float :=
  let sin_phi := round (sin (phi self)) in
  let cos_phi := round (cos (phi self)) in
  let r := round (fst pt - r_org self) in
  let c := round (snd pt - c_org self) in
  let a := fdiv round (Num (round (round (r * cos_phi) + round (c * sin_phi))))
                (Num (r_rad self)) in
  let b := fdiv round (Num (round (round (r * sin_phi) - round (c * cos_phi))))
                (Num (c_rad self)) in
  fadd round (fmul round a a) (fmul round b b).

(** [distances <= 1] *)
Definition inside (self : params) (pt : point) : bool :=
  fle (distance self pt) (Num 1).

(** [- np.log(p)] *)
Definition neg_log (p : R) : float := fneg (flog p).

(** [a * (b - c)] on arrays of one length. *)
Fixpoint weighted_diff (a : list R) (b c : list float) : list float :=
  match a, b, c with
  | x :: a', y :: b', z :: c' =>
      fmul exact (Num x) (fsub exact y z) :: weighted_diff a' b' c'
  | _, _, _ => []
  end.

Definition criterion (self : params) (points : list point) (weights : list R)
  (labels : list Z) (table_p : list (list R)) : result float :=
  if negb ((length points =? length weights)%nat
           && (length weights =? length labels)%nat)
  then Raise (AssertionError "different sizes for points and weights and labels")
  else
    match table_p with
    | [row0; row1] =>
        m <- np_max labels ;;
        ncols <- (if (length row0 =? length row1)%nat then Return (length row0)
                  else Raise IndexError) ;;
        if negb (m <? Z.of_nat ncols)%Z
        then Raise (AssertionError "labels exceed the table")
        else
          let inside_mask := map (inside self) points in
          let table_q0 := map neg_log row0 in
          let table_q1 := map neg_log row1 in
          let labels_in := compress inside_mask labels in
          w <- take weights labels_in ;;
          q0 <- take table_q0 labels_in ;;
          q1 <- take table_q1 labels_in ;;
          Return (fsum (weighted_diff w q0 q1))
    | _ => Raise (AssertionError "table shape")
    end.

(** [-log(table[indicator][class])], for a positive entry. *)
Definition cost (table_p : list (list R)) (indicator : nat) (class : Z) : R :=
  (- ln (nth (Z.to_nat class) (nth indicator table_p []) 0))%R.

(** The points, weights and labels, row by row. *)
Definition rows (points : list point) (weights : list R) (labels : list Z)
  : list (point * (R * Z)) :=
  combine points (combine weights labels).



(** The unit circle at the origin, and the default table of [criterion]. *)
Definition unit_circle : params :=
  {| r_org := 0; c_org := 0; r_rad := 1; c_rad := 1; phi := 0 |}.
Definition table_default : list (list R) :=
  [[1 / 10; 9 / 10]; [9 / 10; 1 / 10]]%R.

(** *** Indexing lemmas *)

Lemma compress_map {A B : Type} (p : A -> bool) (h : A -> B) (l : list A) :
  compress (map p l) (map h l) = map h (filter p l).
Proof.
  induction l as [|x l IH]; simpl; [reflexivity|].
  destruct (p x); simpl; rewrite IH; reflexivity.
Qed.

Lemma take_map {A B : Type} (a : list B) (h : A -> Z) (k : A -> B) (l : list A) :
  (forall x, In x l -> getitem a (h x) = Return (k x)) ->
  take a (map h l) = Return (map k l).
Proof.
  induction l as [|x l IH]; intro H; simpl; [reflexivity|].
  rewrite (H x (or_introl eq_refl)). simpl.
  rewrite IH by (intros y Hy; apply H; right; exact Hy). reflexivity.
Qed.

Lemma weighted_diff_map {A : Type} (w q0 q1 : A -> R) (l : list A) :
  weighted_diff (map w l) (map (fun x => Num (q0 x)) l) (map (fun x => Num (q1 x)) l)
  = map Num (map (fun x => (w x * (q0 x - q1 x))%R) l).
Proof.
  induction l as [|x l IH]; simpl; [reflexivity|]. rewrite IH.
  reflexivity.
Qed.

Lemma getitem_map {A B : Type} (f : A -> B) (a : list A) (d : A) (i : Z) :
  (0 <= i < Z.of_nat (length a))%Z ->
  getitem (map f a) i = Return (f (nth (Z.to_nat i) a d)).
Proof.
  intro H. unfold getitem. rewrite length_map.
  assert (E1 : (i <? 0)%Z = false) by (apply Z.ltb_ge; lia). rewrite E1.
  assert (E2 : ((0 <=? i) && (i <? Z.of_nat (length a)))%Z = true).
  { apply andb_true_intro. split; [apply Z.leb_le | apply Z.ltb_lt]; lia. }
  rewrite E2. rewrite nth_error_map.
  destruct (nth_error a (Z.to_nat i)) as [x|] eqn:E; simpl.
  - rewrite (nth_error_nth _ _ d E). reflexivity.
  - apply nth_error_None in E. lia.
Qed.

Lemma neg_log_positive (p : R) : (0 < p)%R -> neg_log p = Num (- ln p)%R.
Proof.
  intro H. unfold neg_log, flog. rewrite (proj2 (Rltb_true 0 p) H). reflexivity.
Qed.

(** The cost of a column of a positive row. *)
Lemma getitem_neg_log (row : list R) (i : Z) :
  (forall p, In p row -> (0 < p)%R) ->
  (0 <= i < Z.of_nat (length row))%Z ->
  getitem (map neg_log row) i = Return (Num (- ln (nth (Z.to_nat i) row 0%R))%R).
Proof.
  intros Hpos Hi. rewrite (getitem_map neg_log row 0%R i Hi).
  rewrite neg_log_positive; [reflexivity|]. apply Hpos. apply nth_In. lia.
Qed.

Lemma fold_max_lt (n : Z) (l : list Z) : forall x,
  (x < n)%Z -> (forall y, In y l -> (y < n)%Z) -> (fold_left Z.max l x < n)%Z.
Proof.
  induction l as [|y l IH]; intros x Hx Hl; simpl; [exact Hx|].
  apply IH.
  - specialize (Hl y (or_introl eq_refl)). lia.
  - intros z Hz. apply Hl. right. exact Hz.
Qed.

Lemma rows_unzip (points : list point) : forall (weights : list R) (labels : list Z),
  length points = length weights -> length weights = length labels ->
  points = map fst (rows points weights labels) /\
  weights = map (fun row => fst (snd row)) (rows points weights labels) /\
  labels = map (fun row => snd (snd row)) (rows points weights labels).
Proof.
  induction points as [|p points IH]; intros [|w weights] [|l labels] H1 H2;
    try discriminate; simpl.
  - auto.
  - injection H1 as H1. injection H2 as H2.
    destruct (IH weights labels H1 H2) as (Hp & Hw & Hl).
    unfold rows in *. repeat split; f_equal; assumption.
Qed.

(** The outcome of the checks on arguments that pass them. *)
Lemma criterion_checked (self : params) (points : list point) (weights : list R)
  (labels : list Z) (row0 row1 : list R) :
  length points = length weights ->
  length weights = length labels ->
  labels <> [] ->
  length row0 = length row1 ->
  (forall l, In l labels -> (l < Z.of_nat (length row0))%Z) ->
  criterion self points weights labels [row0; row1]
  = (let labels_in := compress (map (inside self) points) labels in
     w <- take weights labels_in ;;
     q0 <- take (map neg_log row0) labels_in ;;
     q1 <- take (map neg_log row1) labels_in ;;
     Return (fsum (weighted_diff w q0 q1))).
Proof.
  intros H1 H2 Hne Hrow Hlab. unfold criterion.
  rewrite H1, H2, !Nat.eqb_refl. simpl.
  destruct labels as [|l0 rest] eqn:El; [contradiction|]. simpl.
  rewrite Hrow, Nat.eqb_refl. simpl.
  assert (Hlt : (fold_left Z.max rest l0 <? Z.of_nat (length row1))%Z = true).
  { apply Z.ltb_lt. rewrite <- Hrow. apply fold_max_lt.
    - apply Hlab. left. reflexivity.
    - intros y Hy. apply Hlab. right. exact Hy. }
  rewrite Hlt. reflexivity.
Qed.

(** The code's sum on well-formed arguments and a positive table: over the
    inside points, the weight found at [weight_of] times the cost of the
    label in row [0] minus its cost in row [1]. *)
Lemma criterion_weighted (weight_of : point * (R * Z) -> R) (self : params)
  (points : list point) (weights : list R) (labels : list Z) (row0 row1 : list R) :
  length points = length weights ->
  length weights = length labels ->
  labels <> [] ->
  length row0 = length row1 ->
  (forall p, In p (row0 ++ row1) -> (0 < p)%R) ->
  (forall l, In l labels -> (0 <= l < Z.of_nat (length row0))%Z) ->
  (forall row, In row (rows points weights labels) ->
     inside self (fst row) = true ->
     getitem weights (snd (snd row)) = Return (weight_of row)) ->
  criterion self points weights labels [row0; row1]
  = Return (Num (Rsum (map (fun row =>
                              (weight_of row
                               * (cost [row0; row1] 0 (snd (snd row))
                                  - cost [row0; row1] 1 (snd (snd row))))%R)
                           (filter (fun row => inside self (fst row))
                                   (rows points weights labels))))).
Proof.
  intros H1 H2 Hne Hrow Hpos Hlab Hw.
  rewrite criterion_checked; try assumption.
  2:{ intros l Hl. apply Hlab. exact Hl. }
  cbv zeta.
  destruct (rows_unzip points weights labels H1 H2) as (Hp & Hws & Hl).
  set (rs := rows points weights labels) in *.
  assert (Hmask : compress (map (inside self) points) labels
                  = map (fun row => snd (snd row))
                        (filter (fun row => inside self (fst row)) rs)).
  { rewrite Hp at 1. rewrite Hl at 1. rewrite map_map. apply compress_map. }
  rewrite Hmask.
  set (F := filter (fun row => inside self (fst row)) rs).
  assert (HF : forall row, In row F -> In row rs /\ inside self (fst row) = true).
  { intros row Hin. apply filter_In in Hin. exact Hin. }
  rewrite (take_map weights (fun row => snd (snd row)) weight_of F).
  2:{ intros row Hin. destruct (HF row Hin) as [Hin' Hins]. apply Hw; assumption. }
  simpl.
  assert (Hin_lab : forall row, In row F ->
            (0 <= snd (snd row) < Z.of_nat (length row0))%Z).
  { intros row Hin. apply Hlab. rewrite Hl.
    apply (in_map (fun r : point * (R * Z) => snd (snd r)) rs row).
    apply (proj1 (HF row Hin)). }
  rewrite (take_map _ (fun row => snd (snd row))
             (fun row => Num (cost [row0; row1] 0 (snd (snd row)))) F).
  2:{ intros row Hin. unfold cost. simpl. apply getitem_neg_log.
      - intros p Hp0. apply Hpos. apply in_or_app. left. exact Hp0.
      - apply Hin_lab. exact Hin. }
  simpl.
  rewrite (take_map _ (fun row => snd (snd row))
             (fun row => Num (cost [row0; row1] 1 (snd (snd row)))) F).
  2:{ intros row Hin. unfold cost. simpl. apply getitem_neg_log.
      - intros p Hp1. apply Hpos. apply in_or_app. right. exact Hp1.
      - rewrite <- Hrow. apply Hin_lab. exact Hin. }
  simpl. rewrite weighted_diff_map, fsum_nums. reflexivity.
Qed.


(** *** The criterion on concrete fields *)

(** On the unit circle and points with integer coordinates every operation
    is exact. *)
Lemma distance_unit_circle (a b : Z) :
  (Z.abs a < 2 ^ 26)%Z -> (Z.abs b < 2 ^ 26)%Z ->
  distance unit_circle (IZR a, IZR b) = Num (IZR (a * a + b * b)).
Proof.
  intros Ha Hb. unfold distance, unit_circle.
  cbn [fst snd r_org c_org r_rad c_rad phi]. rewrite sin_0, cos_0.
  assert (R0 : round 0 = 0%R) by exact round_0.
  assert (R1 : round 1 = 1%R) by (apply (round_IZR 1); reflexivity).
  assert (Ra : round (IZR a) = IZR a) by (apply round_IZR; lia).
  assert (Rb : round (IZR b) = IZR b) by (apply round_IZR; lia).
  assert (Rnb : round (- IZR b) = (- IZR b)%R) by (rewrite round_opp, Rb; reflexivity).
  rewrite R0, R1, !Rminus_0_r, Ra, Rb, !Rmult_1_r, !Rmult_0_r, R0, Ra, Rb.
  rewrite Rplus_0_r, Rminus_0_l, Ra, Rnb.
  unfold fdiv. destruct (Req_dec_T 1 0) as [E|_]; [lra|].
  unfold Rdiv. rewrite Rinv_1, !Rmult_1_r, Ra, Rnb. cbn [fmul fadd].
  replace (- IZR b * - IZR b)%R with (IZR b * IZR b)%R by ring.
  rewrite <- !mult_IZR.
  rewrite (round_IZR (a * a)), (round_IZR (b * b)) by nia.
  rewrite <- plus_IZR, round_IZR by nia. reflexivity.
Qed.

Lemma inside_unit_circle (a b : Z) :
  (Z.abs a < 2 ^ 26)%Z -> (Z.abs b < 2 ^ 26)%Z ->
  inside unit_circle (IZR a, IZR b) = (a * a + b * b <=? 1)%Z.
Proof.
  intros Ha Hb. unfold inside. rewrite distance_unit_circle by assumption.
  cbn [fle]. destruct (a * a + b * b <=? 1)%Z eqn:E.
  - apply Rleb_true. apply Z.leb_le in E. apply (IZR_le _ 1). exact E.
  - apply Rleb_false. apply Z.leb_gt in E. apply (IZR_lt 1). exact E.
Qed.

Lemma inside_origin : inside unit_circle (0, 0)%R = true.
Proof. apply (inside_unit_circle 0 0); reflexivity. Qed.


Lemma table_default_positive (p : R) :
  In p ([1 / 10; 9 / 10] ++ [9 / 10; 1 / 10])%R -> (0 < p)%R.
Proof. simpl. intros [H|[H|[H|[H|[]]]]]; subst p; lra. Qed.

(** A point on the circle of radius [13] in exact arithmetic: the code
    computes [1.0000000000000002] for it, and it is not inside. *)
Example on_circle_outside :
  inside {| r_org := 0; c_org := 0; r_rad := 13; c_rad := 13; phi := 0 |}
    (5, 12)%R = false.
Proof.
  unfold inside, distance. cbn [fst snd r_org c_org r_rad c_rad phi].
  rewrite sin_0, cos_0.
  repeat first [ round_int 0%Z | round_int 1%Z | round_int 5%Z | round_int 12%Z
               | round_int (-12)%Z ].
  unfold fdiv. destruct (Req_dec_T 13 0) as [E|_]; [lra|].
  replace (IZR (-12) / 13)%R with (- (12 / 13))%R by lra.
  rewrite round_opp.
  rewrite (round_up (5 / 13) (-2) 6928614811339224) by (simpl; lra).
  rewrite (round_up (12 / 13) (-1) 8314337773607069) by (simpl; lra).
  cbn [fmul fadd].
  match goal with |- context [(- ?b * - ?b)%R] =>
    replace (- b * - b)%R with (b * b)%R by ring end.
  match goal with |- context [round (round (?a * ?a) + round (?b * ?b))] =>
    rewrite (round_down (a * a) (-3) 5329703701030173) by (simpl; lra);
    rewrite (round_up (b * b) (-1) 7674773329483449) by (simpl; lra)
  end.
  match goal with |- context [round (?s1 + ?s2)] =>
    rewrite (round_up (s1 + s2) 0 4503599627370496) by (simpl; lra)
  end.
  cbn [fle]. apply Rleb_false. simpl. lra.
Qed.


(** The weight the code multiplies by is the one at the index of the
    label, not the one of the point: two inside points of class [0] with
    weights [1] and [5] both count with weight [1]. *)
Example criterion_weight_of_label :
  criterion unit_circle [(0, 0); (0, 0)]%R [1; 5]%R [0; 0]%Z table_default
  = Return (Num (1 * (cost table_default 0 0 - cost table_default 1 0)
                 + (1 * (cost table_default 0 0 - cost table_default 1 0) + 0))%R).
Proof.
  unfold table_default.
  rewrite (criterion_weighted (fun _ => 1%R)).
  - unfold rows. simpl. rewrite inside_origin. reflexivity.
  - reflexivity.
  - reflexivity.
  - discriminate.
  - reflexivity.
  - exact table_default_positive.
  - intros l [Hl|[Hl|[]]]; subst l; simpl; lia.
  - intros row [Hrow|[Hrow|[]]] _; subst row; reflexivity.
Qed.



End Ellipse.

(** ** Arrays that are mutated in place *)

Module Heap.

(** A two-dimensional integer array, row by row. *)
Definition array2 : Type := list (list Z).

(** The identity of an array object, and the arrays alive. *)
Definition loc : Type := nat.
Definition heap : Type := loc -> array2.

Definition write (h : heap) (l : loc) (a : array2) : heap :=
  fun l' => if (l' =? l)%nat then a else h l'.

Definition shape (a : array2) : nat * nat :=
  (length a, match a with [] => 0%nat | row :: _ => length row end).

Fixpoint mapi_from {A B : Type} (f : nat -> A -> B) (i : nat) (l : list A) : list B :=
  match l with
  | [] => []
  | x :: l' => f i x :: mapi_from f (S i) l'
  end.

Definition mapi {A B : Type} (f : nat -> A -> B) (l : list A) : list B :=
  mapi_from f 0 l.

(** The elements of an array with their row and column. *)
Definition cells (a : array2) : list (nat * nat * Z) :=
  concat (mapi (fun r row => mapi (fun c v => (r, c, v)) row) a).

(** The positions of an array of a given shape. *)
Definition grid (sh : nat * nat) : list (nat * nat) :=
  concat (map (fun r => map (fun c => (r, c)) (seq 0 (snd sh))) (seq 0 (fst sh))).

End Heap.

(** ** Drawing an ellipse into a label image: [add_overlap_ellipse] *)

Module Overlap.
Import Py Heap.

Section Drawing.

(** The pixels of the ellipse with centre [(r, c)], radii [(r_radius,
    c_radius)] and the given orientation, before clipping: the
    rasterisation done by [segmentation.utils.drawing.ellipse], a module of
    the package that is not part of these files. *)
Variable ellipse_pixels : Z -> Z -> Z -> Z -> R -> list (Z * Z).

Definition in_shape (sh : nat * nat) (rc : Z * Z) : bool :=
  ((0 <=? fst rc) && (fst rc <? Z.of_nat (fst sh))
   && (0 <=? snd rc) && (snd rc <? Z.of_nat (snd sh)))%Z.

(** Modelled from the spec: [tl_visu.ellipse(r, c, r_radius, c_radius,
    orientation, shape)] of [segmentation.utils.drawing], which is not part
    of these files, returns the pixels of the ellipse clipped to [shape]. *)
Definition ellipse (r c r_radius c_radius : Z) (orientation : R) (sh : nat * nat)
  : list (Z * Z) :=
  filter (in_shape sh) (ellipse_pixels r c r_radius c_radius orientation).

(** [mask[r, c] == 1] after [mask = np.zeros(shape); mask[rr, cc] = 1]. *)
Definition in_mask (coords : list (Z * Z)) (r c : nat) : bool :=
  existsb (fun rc => ((fst rc =? Z.of_nat r) && (snd rc =? Z.of_nat c))%Z) coords.

(** [np.sum(segm == lb)] *)
Definition size_label (segm : array2) (lb : Z) : nat :=
  length (filter (fun cell => (snd cell =? lb)%Z) (cells segm)).

(** [np.sum(mask == 1)] *)
Definition size_mask (sh : nat * nat) (coords : list (Z * Z)) : nat :=
  length (filter (fun rc => in_mask coords (fst rc) (snd rc)) (grid sh)).

(** [np.sum(np.logical_and(segm == lb, mask == 1))] *)
Definition overlap (segm : array2) (coords : list (Z * Z)) (lb : Z) : nat :=
  length (filter (fun cell => (snd cell =? lb)%Z
                              && in_mask coords (fst (fst cell)) (snd (fst cell)))
                 (cells segm)).

(** [np.max(segm)] *)
Definition np_max (segm : array2) : result Z :=
  match concat segm with
  | [] => Raise (ValueError "zero-size array to reduction operation maximum")
  | x :: rest => Return (fold_left Z.max rest x)
  end.

(** [float(overlap) / float(min(sizes))] *)
Definition ratio (segm : array2) (coords : list (Z * Z)) (lb : Z) : result R :=
  let sizes := Nat.min (size_label segm lb) (size_mask (shape segm) coords) in
  if (sizes =? 0)%nat then Raise ZeroDivisionError
  else Return (INR (overlap segm coords lb) / INR sizes)%R.

(** The loop over the labels: [true] when it leaves by [return segm]. *)
Fixpoint filter_overlapping (segm : array2) (coords : list (Z * Z))
  (thr_overlap : R) (lbs : list Z) : result bool :=
  match lbs with
  | [] => Return false
  | lb :: rest =>
      x <- ratio segm coords lb ;;
      if Rltb thr_overlap x then Return true
      else filter_overlapping segm coords thr_overlap rest
  end.

(** [range(1, stop)] *)
Definition range1 (stop : Z) : list Z :=
  map Z.of_nat (seq 1 (Z.to_nat (stop - 1))).

(** [segm[mask == 1] = label] *)
Definition paint (segm : array2) (coords : list (Z * Z)) (label : Z) : array2 :=
  mapi (fun r row => mapi (fun c v => if in_mask coords r c then label else v) row) segm.

(** The call on the array at [segm]: what is returned or raised, and the
    arrays afterwards. *)
Definition add_overlap_ellipse (h : heap) (segm : loc)
  (ellipse_params : option (R * R * R * R * R)) (label : Z) (thr_overlap : R)
  : result loc * heap :=
  match ellipse_params with
  | None => (Return segm, h)
  | Some (c1, c2, height, width, phi) =>
      let coords := ellipse (int_of_float c1) (int_of_float c2)
                      (int_of_float height) (int_of_float width) phi
                      (shape (h segm)) in
      match np_max (h segm) with
      | Raise e => (Raise e, h)
      | Return m =>
          match filter_overlapping (h segm) coords thr_overlap (range1 (m + 1)) with
          | Raise e => (Raise e, h)
          | Return true => (Return segm, h)
          | Return false => (Return segm, write h segm (paint (h segm) coords label))
          end
      end
  end.

(** *** What a call that returns has done *)

Lemma write_same (h : heap) (l : loc) (a : array2) : write h l a l = a.
Proof. unfold write. rewrite Nat.eqb_refl. reflexivity. Qed.

Lemma write_other (h : heap) (l l' : loc) (a : array2) :
  l' <> l -> write h l a l' = h l'.
Proof.
  intro H. unfold write. apply Nat.eqb_neq in H. rewrite H. reflexivity.
Qed.

Lemma nth_error_mapi_from {A B : Type} (f : nat -> A -> B) (l : list A) :
  forall i n, nth_error (mapi_from f i l) n = option_map (f (i + n)%nat) (nth_error l n).
Proof.
  induction l as [|x l IH]; intros i n; simpl.
  - destruct n; reflexivity.
  - destruct n as [|n]; simpl.
    + rewrite Nat.add_0_r. reflexivity.
    + rewrite IH. rewrite Nat.add_succ_r. reflexivity.
Qed.

(** [segm[r][c]], when [(r, c)] is a position of the array. *)
Definition pixel (a : array2) (r c : nat) : option Z :=
  match nth_error a r with
  | Some row => nth_error row c
  | None => None
  end.

(** Painting sets the pixels of the mask and keeps the others. *)
Lemma paint_pixel (segm : array2) (coords : list (Z * Z)) (label : Z) (r c : nat) :
  pixel (paint segm coords label) r c
  = option_map (fun v => if in_mask coords r c then label else v) (pixel segm r c).
Proof.
  unfold pixel, paint, mapi. rewrite nth_error_mapi_from. simpl.
  destruct (nth_error segm r) as [row|]; simpl; [|reflexivity].
  rewrite nth_error_mapi_from. reflexivity.
Qed.

Lemma add_overlap_ellipse_none (h : heap) (segm : loc) (label : Z) (thr_overlap : R) :
  add_overlap_ellipse h segm None label thr_overlap = (Return segm, h).
Proof. reflexivity. Qed.

(** A call that returns hands back the array it was given; no other array
    has changed, and the array itself is as before or painted. *)
Lemma add_overlap_ellipse_returns (h h' : heap) (segm l : loc)
  (c1 c2 height width phi : R) (label : Z) (thr_overlap : R) :
  add_overlap_ellipse h segm (Some (c1, c2, height, width, phi)) label thr_overlap
  = (Return l, h') ->
  l = segm /\
  (forall l', l' <> segm -> h' l' = h l') /\
  (h' = h \/
   h' = write h segm
          (paint (h segm)
             (ellipse (int_of_float c1) (int_of_float c2) (int_of_float height)
                (int_of_float width) phi (shape (h segm)))
             label)).
Proof.
  unfold add_overlap_ellipse. intro H.
  destruct (np_max (h segm)) as [m|]; [|discriminate].
  match type of H with context [filter_overlapping ?a ?c ?t ?l] =>
    destruct (filter_overlapping a c t l) as [[|]|] end;
    try discriminate; injection H as Hl Hh; subst l h'.
  - split; [reflexivity|]. split; [reflexivity|]. left. reflexivity.
  - split; [reflexivity|]. split.
    + intros l' Hne. apply write_other. exact Hne.
    + right. reflexivity.
Qed.

(** The loop over the labels when no size is zero. *)
Lemma filter_overlapping_found (segm : array2) (coords : list (Z * Z))
  (thr_overlap : R) (lbs : list Z) :
  (forall lb, In lb lbs ->
     Nat.min (size_label segm lb) (size_mask (shape segm) coords) <> 0%nat) ->
  (exists lb x, In lb lbs /\ ratio segm coords lb = Return x /\ (thr_overlap < x)%R) ->
  filter_overlapping segm coords thr_overlap lbs = Return true.
Proof.
  induction lbs as [|lb lbs IH]; intros Hsz (lb' & x & Hin & Hr & Hx).
  - destruct Hin.
  - simpl. unfold ratio at 1.
    pose proof (Hsz lb (or_introl eq_refl)) as Hlb. apply Nat.eqb_neq in Hlb.
    rewrite Hlb. simpl.
    match goal with |- context [Rltb ?t ?y] => destruct (Rltb t y) eqn:E end;
      [reflexivity|].
    apply IH.
    + intros lb0 Hin0. apply Hsz. right. exact Hin0.
    + destruct Hin as [Heq|Hin].
      * subst lb'. unfold ratio in Hr. rewrite Hlb in Hr. injection Hr as Hr.
        subst x. apply Rltb_false in E. lra.
      * exists lb', x. auto.
Qed.

Lemma filter_overlapping_none (segm : array2) (coords : list (Z * Z))
  (thr_overlap : R) (lbs : list Z) :
  (forall lb, In lb lbs ->
     exists x, ratio segm coords lb = Return x /\ (x <= thr_overlap)%R) ->
  filter_overlapping segm coords thr_overlap lbs = Return false.
Proof.
  induction lbs as [|lb lbs IH]; intro H; simpl; [reflexivity|].
  destruct (H lb (or_introl eq_refl)) as (x & Hr & Hx). rewrite Hr. simpl.
  rewrite (proj2 (Rltb_false thr_overlap x)) by lra.
  apply IH. intros lb0 Hin0. apply H. right. exact Hin0.
Qed.

(** With every label from [1] to the maximum present and a mask that is
    not empty: an overlap above the threshold leaves all arrays as they
    are, and the array given is returned. *)
Lemma add_overlap_ellipse_unchanged (h : heap) (segm : loc)
  (c1 c2 height width phi : R) (label : Z) (thr_overlap : R) (m : Z) :
  let coords := ellipse (int_of_float c1) (int_of_float c2) (int_of_float height)
                  (int_of_float width) phi (shape (h segm)) in
  np_max (h segm) = Return m ->
  (forall lb, In lb (range1 (m + 1)) ->
     Nat.min (size_label (h segm) lb) (size_mask (shape (h segm)) coords) <> 0%nat) ->
  (exists lb x, In lb (range1 (m + 1)) /\
     ratio (h segm) coords lb = Return x /\ (thr_overlap < x)%R) ->
  add_overlap_ellipse h segm (Some (c1, c2, height, width, phi)) label thr_overlap
  = (Return segm, h).
Proof.
  intros coords Hm Hsz Hex. unfold add_overlap_ellipse. rewrite Hm.
  fold coords. rewrite (filter_overlapping_found _ _ _ _ Hsz Hex). reflexivity.
Qed.

(** With no ratio above the threshold, the array given is painted in place
    and returned. *)
Lemma add_overlap_ellipse_paints (h : heap) (segm : loc)
  (c1 c2 height width phi : R) (label : Z) (thr_overlap : R) (m : Z) :
  let coords := ellipse (int_of_float c1) (int_of_float c2) (int_of_float height)
                  (int_of_float width) phi (shape (h segm)) in
  np_max (h segm) = Return m ->
  (forall lb, In lb (range1 (m + 1)) ->
     exists x, ratio (h segm) coords lb = Return x /\ (x <= thr_overlap)%R) ->
  add_overlap_ellipse h segm (Some (c1, c2, height, width, phi)) label thr_overlap
  = (Return segm, write h segm (paint (h segm) coords label)).
Proof.
  intros coords Hm Hno. unfold add_overlap_ellipse. rewrite Hm.
  fold coords. rewrite (filter_overlapping_none _ _ _ _ Hno). reflexivity.
Qed.

(** *** A label that no pixel carries *)

(** On the image [[2]] the one object has label [2]; an ellipse that
    covers the pixel overlaps it with ratio [1]. *)
Lemma gap_overlap_ratio (coords : list (Z * Z)) :
  in_mask coords 0 0 = true ->
  ratio [[2%Z]] coords 2 = Return (INR 1 / INR 1)%R.
Proof.
  intro H. unfold ratio, size_label, size_mask, overlap. simpl.
  rewrite H. reflexivity.
Qed.

(** C9 on the image [[2]]: whatever the ellipse and the threshold, the
    call raises [ZeroDivisionError] at label [1], which no pixel carries,
    and so returns nothing; the arrays are as before. *)
Theorem add_overlap_ellipse_gap_raises (h : heap) (segm : loc)
  (params : R * R * R * R * R) (label : Z) (thr_overlap : R) :
  add_overlap_ellipse (write h segm [[2%Z]]) segm (Some params) label thr_overlap
  = (Raise ZeroDivisionError, write h segm [[2%Z]]).
Proof.
  destruct params as [[[[c1 c2] height] width] phi].
  unfold add_overlap_ellipse. rewrite write_same. reflexivity.
Qed.

(** C10 when no pixel carries label [1] and some label is larger: the call
    raises [ZeroDivisionError] and paints nothing. *)
Theorem add_overlap_ellipse_absent_label (h : heap) (segm : loc)
  (params : R * R * R * R * R) (label : Z) (thr_overlap : R) (m : Z) :
  np_max (h segm) = Return m ->
  (1 <= m)%Z ->
  size_label (h segm) 1 = 0%nat ->
  add_overlap_ellipse h segm (Some params) label thr_overlap
  = (Raise ZeroDivisionError, h).
Proof.
  intros Hm Hle Hsz. destruct params as [[[[c1 c2] height] width] phi].
  unfold add_overlap_ellipse. rewrite Hm.
  unfold range1. replace (m + 1 - 1)%Z with m by lia.
  destruct (Z.to_nat m) as [|n] eqn:En; [lia|].
  simpl. unfold ratio. rewrite Hsz. reflexivity.
Qed.

End Drawing.

(** Modelled from the spec: a rasteriser to run the calls on, in place of
    the one of [segmentation.utils.drawing], for ellipses along the axes:
    the pixels whose offset [(dr, dc)] from the centre satisfies
    [(dr * c_radius)^2 + (dc * r_radius)^2 <= (r_radius * c_radius)^2],
    whatever the orientation. *)
Definition axis_ellipse (r c r_radius c_radius : Z) (orientation : R) : list (Z * Z) :=
  filter (fun rc =>
            let dr := (fst rc - r)%Z in
            let dc := (snd rc - c)%Z in
            ((dr * c_radius) * (dr * c_radius) + (dc * r_radius) * (dc * r_radius)
             <=? (r_radius * c_radius) * (r_radius * c_radius))%Z)
         (concat (map (fun dr => map (fun dc => (r + dr, c + dc)%Z)
                                     (map (fun k => (Z.of_nat k - c_radius)%Z)
                                          (seq 0 (Z.to_nat (2 * c_radius + 1)))))
                      (map (fun k => (Z.of_nat k - r_radius)%Z)
                           (seq 0 (Z.to_nat (2 * r_radius + 1)))))).

Lemma add_overlap_ellipse_absent_label_witness :
  add_overlap_ellipse axis_ellipse (fun _ => [[0; 2]%Z]) 0%nat
    (Some (0, 0, 1, 1, 0)%R) 1 1%R
  = (Raise ZeroDivisionError, fun _ => [[0; 2]%Z]).
Proof.
  apply (add_overlap_ellipse_absent_label axis_ellipse (fun _ => [[0; 2]%Z]) 0%nat
           (0, 0, 1, 1, 0)%R 1 1%R 2).
  - reflexivity.
  - lia.
  - reflexivity.
Defined.

(** On [[2]] the ellipse at the only pixel covers it: the ratio of the
    object of label [2] is [1], above any threshold below [1]. *)
Example gap_premise :
  ratio [[2%Z]] (ellipse axis_ellipse 0 0 1 1 0%R (shape [[2%Z]])) 2
  = Return (INR 1 / INR 1)%R.
Proof. apply gap_overlap_ratio. reflexivity. Qed.

End Overlap.

(** ** Boundary points around object centres *)

Module Boundary.
Import Py.

Definition point : Type := (R * R)%type.
Definition center : Type := (Z * Z)%type.
Definition mask : Type := list (list bool).
Definition segmentation : Type := list (list Z).

(** The [edge] argument of the ray features: ['up'] (the default) or ['down']. *)
Inductive edge : Type :=
| Up
| Down.

Definition MIN_ELLIPSE_DAIM : R := 25.
Definition STRUC_ELEM_BG : R := 15.
Definition STRUC_ELEM_FG : R := 5.

(** Euclidean distance, as [cdist(..., metric='euclidean')] computes it. *)
Definition dist (p q : point) : R :=
  sqrt ((fst p - fst q) ^ 2 + (snd p - snd q) ^ 2).

Definition point_of_center (c : center) : point := (IZR (fst c), IZR (snd c)).

(** No two points of the list are closer than [thr]. *)
Fixpoint pairwise_far (thr : R) (pts : list point) : Prop :=
  match pts with
  | [] => True
  | p :: rest => (forall q, In q rest -> (thr <= dist p q)%R) /\ pairwise_far thr rest
  end.

(** [np.argmin]: the first index of the least element. *)
Fixpoint argmin_from (l : list R) (i best_i : nat) (best : R) : nat :=
  match l with
  | [] => best_i
  | x :: rest =>
      if Rltb x best then argmin_from rest (S i) i x
      else argmin_from rest (S i) best_i best
  end.

Definition argmin (l : list R) : result nat :=
  match l with
  | [] => Raise (ValueError "attempt to get argmin of an empty sequence")
  | x :: rest => Return (argmin_from rest 1 0 x)
  end.

(** [np.argmin(cdist(points, centers), axis=1)] *)
Fixpoint close_centers (points : list point) (centers : list center)
  : result (list nat) :=
  match points with
  | [] => Return []
  | p :: rest =>
      k <- argmin (map (fun c => dist p (point_of_center c)) centers) ;;
      ks <- close_centers rest centers ;;
      Return (k :: ks)
  end.

(** The last lines of [prepare_boundary_points_ray_dist] and of
    [prepare_boundary_points_close]: one group for each index up to the
    largest index of a nearest centre. *)
Definition group_by_center (points : list point) (centers : list center)
  : result (list (list point)) :=
  close_center <- close_centers points centers ;;
  match close_center with
  | [] => Raise (ValueError "zero-size array to reduction operation maximum")
  | _ =>
      Return (map (fun i => compress (map (fun k => (k =? i)%nat) close_center) points)
                  (seq 0 (list_max close_center + 1)))
  end.

Section Strategies.

(** [scipy.ndimage] and [skimage.morphology]: filling of holes, and the
    opening by a disk of a given radius. *)
Variable binary_fill_holes : mask -> mask.
Variable opening_disk : mask -> R -> mask.

(** [segmentation.descriptors], a module of the package that is not part
    of these files: the distance along each ray from a centre to the first
    edge of the mask, the points at given distances along the rays (with
    an optional shift of the angles), and the removal of points closer
    than a threshold. *)
Variable compute_ray_features_segm_2d : mask -> center -> edge -> list R.
Variable reconstruct_ray_features_2d : center -> list R -> option R -> list point.
Variable reduce_close_points : list point -> R -> list point.

Definition split_segm_background_foreground (seg : segmentation) (sel_bg sel_fg : R)
  : mask * mask :=
  let seg_bg := map (map (fun v => (0 <? v)%Z)) seg in
  let seg_bg := map (map negb) (binary_fill_holes seg_bg) in
  let seg_bg := if Rltb 0 sel_bg then opening_disk seg_bg sel_bg else seg_bg in
  let seg_fg := map (map (fun v => (v =? 1)%Z)) seg in
  let seg_fg := if Rltb 0 sel_fg then opening_disk seg_fg sel_fg else seg_fg in
  (seg_bg, seg_fg).

(** [ray[ray < min_diam] = min_diam] *)
Definition at_least (min_diam : R) (ray : list R) : list R :=
  map (fun r => if Rltb r min_diam then min_diam else r) ray.

(** The two halves of the points of one centre. *)
Definition points_bg_of (seg_bg : mask) (center : center) (close_points min_diam : R)
  : list point :=
  let ray_bg := at_least min_diam (compute_ray_features_segm_2d seg_bg center Up) in
  reduce_close_points (reconstruct_ray_features_2d center ray_bg None) close_points.

Definition points_fc_of (seg_fg : mask) (center : center) (close_points min_diam : R)
  : list point :=
  let ray_fc := at_least min_diam (compute_ray_features_segm_2d seg_fg center Down) in
  reduce_close_points (reconstruct_ray_features_2d center ray_fc None) close_points.


(** The rows stacked under [points] by the loop over the centres. *)
Definition ray_points (seg_bg : mask) (centers : list center) (close_points : R)
  : list point :=
  flat_map (fun center =>
              let ray := compute_ray_features_segm_2d seg_bg center Up in
              reduce_close_points (reconstruct_ray_features_2d center ray (Some 0%R))
                                  close_points)
           centers.

Definition prepare_boundary_points_ray_dist (seg : segmentation) (centers : list center)
  (close_points sel_bg sel_fg : R) : result (list (list point)) :=
  let '(seg_bg, _) := split_segm_background_foreground seg sel_bg sel_fg in
  match centers with
  | [] => Raise IndexError
  | _ =>
      (* [np.array((0, np.asarray(centers).shape[1]))]: the row [0, 2] *)
      let points := (0, 2)%R :: ray_points seg_bg centers close_points in
      group_by_center points centers
  end.

End Strategies.

(** *** The nearest centre *)



(** The index of the centre nearest to [p], among [c :: cs]. *)
Definition nearest (c : center) (cs : list center) (p : point) : nat :=
  argmin_from (map (fun c' => dist p (point_of_center c')) cs) 1 0
              (dist p (point_of_center c)).

Lemma close_centers_cons (points : list point) (c : center) (cs : list center) :
  close_centers points (c :: cs) = Return (map (nearest c cs) points).
Proof.
  induction points as [|p rest IH]; simpl; [reflexivity|].
  rewrite IH. reflexivity.
Qed.

Lemma compress_filter {A B : Type} (f : B -> bool) (g : A -> B) (l : list A) :
  compress (map f (map g l)) l = filter (fun x => f (g x)) l.
Proof.
  induction l as [|x l IH]; simpl; [reflexivity|].
  destruct (f (g x)); rewrite IH; reflexivity.
Qed.

Lemma list_max_ge (l : list nat) (k : nat) : In k l -> (k <= list_max l)%nat.
Proof.
  intro H. pose proof (proj1 (list_max_le l (list_max l)) (Nat.le_refl _)) as Hall.
  rewrite Forall_forall in Hall. apply Hall. exact H.
Qed.

(** With a centre and a point, the groups are those of the nearest
    centres: every point is in the group of its nearest centre, and a
    group holds nothing else. *)
Lemma group_by_center_groups (p0 : point) (points : list point)
  (c : center) (cs : list center) :
  exists groups,
    group_by_center (p0 :: points) (c :: cs) = Return groups /\
    (forall p, In p (p0 :: points) ->
       exists group, nth_error groups (nearest c cs p) = Some group /\ In p group) /\
    (forall i group p, nth_error groups i = Some group -> In p group ->
       In p (p0 :: points) /\ nearest c cs p = i).
Proof.
  unfold group_by_center. rewrite close_centers_cons.
  change (map (nearest c cs) (p0 :: points))
    with (nearest c cs p0 :: map (nearest c cs) points).
  cbv beta iota delta [Py.bind].
  change (nearest c cs p0 :: map (nearest c cs) points)
    with (map (nearest c cs) (p0 :: points)).
  set (pts := p0 :: points).
  set (ks := map (nearest c cs) pts).
  eexists. split; [reflexivity|]. split.
  - intros p Hin.
    assert (Hle : (nearest c cs p <= list_max ks)%nat).
    { apply list_max_ge. unfold ks. apply in_map. exact Hin. }
    exists (filter (fun q => (nearest c cs q =? nearest c cs p)%nat) pts). split.
    + rewrite nth_error_map.
      rewrite (nth_error_nth' _ 0%nat) by (rewrite length_seq; lia).
      rewrite seq_nth by lia. cbn [option_map Nat.add]. unfold ks.
      rewrite compress_filter. reflexivity.
    + apply filter_In. split; [exact Hin | apply Nat.eqb_refl].
  - intros i group p Hnth Hin.
    rewrite nth_error_map in Hnth.
    destruct (nth_error (seq 0 (list_max ks + 1)) i) as [a|] eqn:Ea; [|discriminate].
    cbn [option_map] in Hnth. injection Hnth as Hg.
    assert (Hi : (i < list_max ks + 1)%nat).
    { assert (Hsome : nth_error (seq 0 (list_max ks + 1)) i <> None) by congruence.
      apply nth_error_Some in Hsome. rewrite length_seq in Hsome. exact Hsome. }
    pose proof (nth_error_nth _ _ 0%nat Ea) as Hnth. rewrite seq_nth in Hnth by exact Hi.
    cbn [Nat.add] in Hnth. subst a group. unfold ks in Hin.
    rewrite compress_filter in Hin.
    apply (filter_In (fun x => (nearest c cs x =? i)%nat) p pts) in Hin.
    destruct Hin as [Hin Heq]. apply Nat.eqb_eq in Heq. auto.
Qed.

(** *** The seed row of [prepare_boundary_points_ray_dist] *)

Section RayDist.

Variable binary_fill_holes : mask -> mask.
Variable opening_disk : mask -> R -> mask.
Variable compute_ray_features_segm_2d : mask -> center -> edge -> list R.
Variable reconstruct_ray_features_2d : center -> list R -> option R -> list point.
Variable reduce_close_points : list point -> R -> list point.



(** C8 on any segmentation and any centres, at least one: the row [0, 2]
    that [points] starts from is among the points returned, in the group
    of the centre nearest to it. It is no point of any ray. *)
Theorem ray_dist_seed_row (seg : segmentation) (c : center) (cs : list center)
  (close_points sel_bg sel_fg : R) :
  exists groups group,
    prepare_boundary_points_ray_dist binary_fill_holes opening_disk
      compute_ray_features_segm_2d reconstruct_ray_features_2d reduce_close_points
      seg (c :: cs) close_points sel_bg sel_fg = Return groups /\
    nth_error groups (nearest c cs (0, 2)%R) = Some group /\
    In (0, 2)%R group.
Proof.
  unfold prepare_boundary_points_ray_dist.
  destruct (split_segm_background_foreground binary_fill_holes opening_disk seg
              sel_bg sel_fg) as [seg_bg seg_fg].
  match goal with |- context [group_by_center (?p0 :: ?pts) _] =>
    destruct (group_by_center_groups p0 pts c cs) as (groups & Hg & Hcover & _) end.
  destruct (Hcover (0, 2)%R (or_introl eq_refl)) as (group & Hnth & Hin).
  exists groups, group. auto.
Qed.

End RayDist.

(** *** The two halves of [prepare_boundary_points_ray_join] *)



(** Rays that all fall short of [min_diam] are all set to it. *)
Lemma at_least_below (min_diam : R) (ray : list R) :
  (forall r, In r ray -> (r < min_diam)%R) ->
  at_least min_diam ray = repeat min_diam (length ray).
Proof.
  induction ray as [|r ray IH]; intro H; simpl; [reflexivity|].
  rewrite (proj2 (Rltb_true r min_diam)) by (apply H; left; reflexivity).
  rewrite IH by (intros r' Hr'; apply H; right; exact Hr'). reflexivity.
Qed.

(** When no ray of either kind reaches [min_diam], and there are as many
    rays of one kind as of the other, the two halves are the same points. *)
Lemma ray_join_short_rays
  (compute_ray_features_segm_2d : mask -> center -> edge -> list R)
  (reconstruct_ray_features_2d : center -> list R -> option R -> list point)
  (reduce_close_points : list point -> R -> list point)
  (seg_bg seg_fg : mask) (c : center) (close_points min_diam : R) :
  (forall r, In r (compute_ray_features_segm_2d seg_bg c Up) -> (r < min_diam)%R) ->
  (forall r, In r (compute_ray_features_segm_2d seg_fg c Down) -> (r < min_diam)%R) ->
  length (compute_ray_features_segm_2d seg_bg c Up)
  = length (compute_ray_features_segm_2d seg_fg c Down) ->
  points_bg_of compute_ray_features_segm_2d reconstruct_ray_features_2d
    reduce_close_points seg_bg c close_points min_diam
  = points_fc_of compute_ray_features_segm_2d reconstruct_ray_features_2d
      reduce_close_points seg_fg c close_points min_diam.
Proof.
  intros Hbg Hfg Hlen. unfold points_bg_of, points_fc_of.
  rewrite (at_least_below _ _ Hbg), (at_least_below _ _ Hfg), Hlen. reflexivity.
Qed.


Lemma dist_sym (p q : point) : dist p q = dist q p.
Proof. unfold dist. f_equal. ring. Qed.


Section RayJoin.

Variable binary_fill_holes : mask -> mask.
Variable opening_disk : mask -> R -> mask.
Variable compute_ray_features_segm_2d : mask -> center -> edge -> list R.
Variable reconstruct_ray_features_2d : center -> list R -> option R -> list point.
Variable reduce_close_points : list point -> R -> list point.


End RayJoin.

(** *** The strategies on an image without foreground *)

Module Flat.

(** On a mask without holes [binary_fill_holes] changes nothing. *)
Definition fill_holes (m : mask) : mask := m.

(** The opening of a constant mask is the mask. *)
Definition opening (m : mask) (radius : R) : mask := m.

(** Modelled from the spec: [compute_ray_features_segm_2d] of
    [segmentation.descriptors], which is not part of these files, on a mask
    without any transition: no ray finds an edge, and each of the rays,
    four here, reports [-1]. *)
Definition rays (m : mask) (c : center) (e : edge) : list R := [-1; -1; -1; -1]%R.

(** Modelled from the spec: [reconstruct_ray_features_2d] of
    [segmentation.descriptors], which is not part of these files: the point
    at the given distance from the centre on each ray, the rays at evenly
    spaced angles, turned by the shift. *)
Definition reconstruct (c : center) (ray : list R) (shift : option R) : list point :=
  let angle k :=
    (2 * PI * INR k / INR (length ray)
     + match shift with Some a => a | None => 0 end)%R in
  map (fun kr => (IZR (fst c) + snd kr * cos (angle (fst kr)),
                  IZR (snd c) + snd kr * sin (angle (fst kr)))%R)
      (combine (seq 0 (length ray)) ray).

(** Modelled from the spec: [reduce_close_points] of
    [segmentation.descriptors], which is not part of these files: a point
    is kept when it is no closer than the threshold to any point kept
    after it. *)
Fixpoint reduce (pts : list point) (thr : R) : list point :=
  match pts with
  | [] => []
  | p :: rest =>
      let kept := reduce rest thr in
      if forallb (fun q => Rleb thr (dist p q)) kept then p :: kept else kept
  end.

Definition image : segmentation := [[0; 0; 0]; [0; 0; 0]; [0; 0; 0]]%Z.

End Flat.

Lemma flat_reduce_far (pts : list point) (thr : R) :
  pairwise_far thr (Flat.reduce pts thr).
Proof.
  induction pts as [|p rest IH]; simpl; [exact I|].
  destruct (forallb (fun q => Rleb thr (dist p q)) (Flat.reduce rest thr)) eqn:E.
  - simpl. split; [|exact IH]. intros q Hq.
    rewrite forallb_forall in E. apply Rleb_true. apply E. exact Hq.
  - exact IH.
Qed.




End Boundary.

(** ** Segmenting one image: [segment_image] *)

Module Pipeline.
Import Py.

Definition labels : Type := list Z.
Definition array2 : Type := list (list Z).
Definition proba : Type := list (list R).

(** What the call does to the world, in order. *)
Inductive event : Type :=
| LogDebug (msg : string)
| LogWarning (msg : string)
| SaveImage (path : string) (image : array2)
| SaveNpz (path : string) (soft : list (list (list R)))
| SaveFigure (path : string) (segm : array2)
| ImSaveMap (path : string)
| ImSaveUnary (dir idx_name : string) (lb : nat).

(** A computation that leaves a trace and returns or raises. *)
Definition io (A : Type) : Type := list event -> result A * list event.

Definition ret {A : Type} (a : A) : io A := fun t => (Return a, t).

Definition io_bind {A B : Type} (m : io A) (k : A -> io B) : io B :=
  fun t =>
    match m t with
    | (Return a, t') => k a t'
    | (Raise e, t') => (Raise e, t')
    end.

Definition emit (e : event) : io unit := fun t => (Return tt, t ++ [e]).

Definition lift {A : Type} (r : result A) : io A := fun t => (r, t).

(** [try: body except: handler], the bare [except] catching everything. *)
Definition try_except {A : Type} (body handler : io A) : io A :=
  fun t =>
    match body t with
    | (Return a, t') => (Return a, t')
    | (Raise _, t') => handler t'
    end.

Notation "x <~ m ;; k" := (io_bind m (fun x => k))
  (at level 61, m at next level, right associativity).
Notation "m ;;; k" := (io_bind m (fun _ => k))
  (at level 61, right associativity).

(** [a[idx]] for a two-dimensional integer index array. *)
Fixpoint take2 {A : Type} (a : list A) (idx : list (list Z)) : result (list (list A)) :=
  match idx with
  | [] => Return []
  | row :: rest =>
      Py.bind (take a row) (fun xs =>
      Py.bind (take2 a rest) (fun xss => Return (xs :: xss)))
  end.

(** [segm.astype(np.uint8)] *)
Definition astype_uint8 (segm : array2) : array2 :=
  map (map (fun v => (v mod 256)%Z)) segm.

(** [np.zeros(segm.shape)] *)
Definition zeros_like (segm : array2) : array2 :=
  map (map (fun _ => 0%Z)) segm.

(** [os.path.join(a, b)] *)
Definition path_join (a b : string) : string := (a ++ "/" ++ b)%string.

(** ['"%s"' % s] *)
Definition quoted (s : string) : string :=
  let q := String (Ascii.ascii_of_nat 34) EmptyString in (q ++ s ++ q)%string.

(** [gc_regul]: a number, or the matrix [gc_regul * label_penalty]. *)
Inductive regul : Type :=
| Scalar (x : R)
| Matrix (m : list (list R)).

Section SegmentImage.

(** Images, feature matrices, feature sets and label transitions, as the
    collaborators exchange them. *)
Variables (Img Features FeatureSet Transitions Item : Type).

(** The entries of [params] that [segment_image] reads. *)
Record params : Type := {
  img_type : string;
  slic_size : R;
  slic_regul : R;
  clr_space : option string;
  features : FeatureSet;
  gc_regul : R;
  gc_use_trans : bool;
  label_transitions : Transitions;
  gc_edge_type : string
}.

(** A trained classifier; [predict_proba] may be missing or fail. *)
Record classifier : Type := {
  predict : Features -> labels;
  predict_proba : Features -> result proba;
  classes_ : list Z;
  repr : string
}.

(** [run_segm_slic_model_graphcut] *)
Variable parse_imgs_idx_path : Item -> Z * string.
Variable get_idx_name : Z -> string -> string.
Variable load_image : string -> string -> Img.
(** [segmentation.superpixels], [pipelines], [descriptors], [graph_cuts] *)
Variable segment_slic_img2d : Img -> R -> R -> list (list Z).
Variable convert_img_color_space : Img -> string -> Img.
Variable compute_selected_features_img2d :
  Img -> list (list Z) -> FeatureSet -> Features * list string.
Variable compute_pairwise_cost_from_transitions : Transitions -> list (list R).
Variable segment_graph_cut_general :
  list (list Z) -> proba -> Img -> Features -> regul -> string -> labels.
(** [os.path.isdir] *)
Variable isdir : string -> bool.

Definition visu_dir (path_visu : option string) : option string :=
  match path_visu with
  | Some p => if isdir p then Some p else None
  | None => None
  end.

Definition export_draw_image_segm_contour (img : Img) (segm : array2)
  (path_out name posix : string) : io unit :=
  emit (LogDebug "export draw image segmentation countours") ;;;
  emit (SaveFigure (path_join path_out (name ++ posix ++ ".png")%string) segm).

(** The unary images saved when debugging, one per class:
    [idx_name + '_gc_unary-lb%i.png' % lb] for [lb] in
    [range(segm_soft.shape[2])]. *)
Definition save_unary (path_visu idx_name : string) (segm_soft : list (list (list R)))
  : io unit :=
  let nb := match segm_soft with
            | (px :: _) :: _ => length px
            | _ => 0%nat
            end in
  fold_right (fun lb k => emit (ImSaveUnary path_visu idx_name lb) ;;; k)
             (ret tt) (seq 0 nb).

Definition segment_image (imgs_idx_path : Item) (params : params) (classif : classifier)
  (path_out : string) (path_visu : option string) (show_debug_imgs : bool)
  : io (string * array2 * array2) :=
  let '(idx, path_img) := parse_imgs_idx_path imgs_idx_path in
  emit (LogDebug ("segmenting image: " ++ quoted path_img)%string) ;;;
  let idx_name := get_idx_name idx path_img in
  let img := load_image path_img (img_type params) in
  let slic := segment_slic_img2d img (slic_size params) (slic_regul params) in
  let img := convert_img_color_space img
               (match clr_space params with Some s => s | None => "rgb"%string end) in
  let feats := fst (compute_selected_features_img2d img slic (features params)) in
  let labels := predict classif feats in
  segm <~ lift (take2 labels slic) ;;
  let path_img := path_join path_out (idx_name ++ ".png")%string in
  emit (LogDebug ("export segmentation: " ++ path_img)%string) ;;;
  emit (SaveImage path_img (astype_uint8 segm)) ;;;
  match visu_dir path_visu with
  | Some dir => export_draw_image_segm_contour img segm dir idx_name ""
  | None => ret tt
  end ;;;
  soft <~ try_except
            (proba <~ lift (predict_proba classif feats) ;;
             segm_soft <~ lift (take2 proba slic) ;;
             emit (SaveNpz (path_join path_out (idx_name ++ ".npz")%string) segm_soft) ;;;
             ret (Some (proba, segm_soft)))
            (emit (LogWarning ("classif: " ++ repr classif
                               ++ " not support predict_proba(.)")%string) ;;;
             ret None) ;;
  match soft with
  | Some (proba, segm_soft) =>
      if Rltb 0 (gc_regul params) then
        let regul :=
          if gc_use_trans params
          then Matrix (map (map (fun x => (gc_regul params * x)%R))
                           (compute_pairwise_cost_from_transitions
                              (label_transitions params)))
          else Scalar (gc_regul params) in
        let labels_gc := segment_graph_cut_general slic proba img feats regul
                           (gc_edge_type params) in
        segm_gc <~ lift (take2 labels_gc slic) ;;
        segm_gc <~ lift (take2 (classes_ classif) segm_gc) ;;
        let path_img := path_join path_out (idx_name ++ "_gc.png")%string in
        emit (LogDebug ("export segmentation: " ++ path_img)%string) ;;;
        emit (SaveImage path_img (astype_uint8 segm_gc)) ;;;
        match visu_dir path_visu with
        | Some dir =>
            export_draw_image_segm_contour img segm_gc dir idx_name "_gc" ;;;
            (if show_debug_imgs
             then emit (ImSaveMap (path_join dir (idx_name ++ "_map.png")%string)) ;;;
                  save_unary dir idx_name segm_soft
             else ret tt)
        | None => ret tt
        end ;;;
        ret (idx_name, segm, segm_gc)
      else ret (idx_name, segm, zeros_like segm)
  | None => ret (idx_name, segm, zeros_like segm)
  end.

(** The local variables of [segment_image] that the result is stated in. *)
Definition image_name (item : Item) : string :=
  get_idx_name (fst (parse_imgs_idx_path item)) (snd (parse_imgs_idx_path item)).

Definition superpixels (item : Item) (params : params) : list (list Z) :=
  segment_slic_img2d (load_image (snd (parse_imgs_idx_path item)) (img_type params))
    (slic_size params) (slic_regul params).

Definition feature_matrix (item : Item) (params : params) : Features :=
  fst (compute_selected_features_img2d
         (convert_img_color_space
            (load_image (snd (parse_imgs_idx_path item)) (img_type params))
            (match clr_space params with Some s => s | None => "rgb"%string end))
         (superpixels item params) (features params)).

(** What [export_draw_image_segm_contour] leaves when [path_visu] is a
    directory. *)
Definition contour_events (path_visu : option string) (name posix : string)
  (segm : array2) : list event :=
  match visu_dir path_visu with
  | Some dir =>
      [LogDebug "export draw image segmentation countours";
       SaveFigure (path_join dir (name ++ posix ++ ".png")%string) segm]
  | None => []
  end.

(** C6. When [predict_proba] raises and the labels index by the superpixel
    map, [segment_image] returns: the hard-label segmentation is saved, a
    warning is logged, nothing of the graph cut is computed or saved, and
    the refined segmentation returned is all zeros. *)
Theorem segment_image_without_proba (item : Item) (params : params)
  (classif : classifier) (path_out : string) (path_visu : option string)
  (show_debug_imgs : bool) (e : exn) (segm : array2) (t : list event) :
  predict_proba classif (feature_matrix item params) = Raise e ->
  take2 (predict classif (feature_matrix item params)) (superpixels item params)
  = Return segm ->
  segment_image item params classif path_out path_visu show_debug_imgs t
  = (Return (image_name item, segm, zeros_like segm),
     t ++ [LogDebug ("segmenting image: "
                     ++ quoted (snd (parse_imgs_idx_path item)))%string;
           LogDebug ("export segmentation: "
                     ++ path_join path_out (image_name item ++ ".png"))%string;
           SaveImage (path_join path_out (image_name item ++ ".png")%string)
                     (astype_uint8 segm)]
       ++ contour_events path_visu (image_name item) "" segm
       ++ [LogWarning ("classif: " ++ repr classif
                       ++ " not support predict_proba(.)")%string]).
Proof.
  intros Hproba Hsegm.
  unfold segment_image, image_name, feature_matrix, superpixels, contour_events in *.
  destruct (parse_imgs_idx_path item) as [idx path_img]. simpl in *.
  unfold io_bind, emit, lift, try_except, ret. rewrite Hsegm. simpl.
  destruct (visu_dir path_visu) as [dir|]; simpl.
  - unfold export_draw_image_segm_contour, io_bind, emit. simpl.
    rewrite Hproba. simpl. rewrite <- !app_assoc. reflexivity.
  - rewrite Hproba. simpl. rewrite <- !app_assoc. reflexivity.
Qed.

End SegmentImage.

(** *** A classifier without probabilities *)

(** A classifier of two superpixels that has no [predict_proba]. *)
Definition hard_classifier : classifier unit :=
  {| predict := fun _ => [0; 1]%Z;
     predict_proba := fun _ => Raise AttributeError;
     classes_ := [0; 1]%Z;
     repr := "hard" |}.

Definition plain_params : params unit unit :=
  {| img_type := "2d_gray"; slic_size := 35; slic_regul := 3 / 10;
     clr_space := None; features := tt; gc_regul := 5; gc_use_trans := false;
     label_transitions := tt; gc_edge_type := "model" |}.

Lemma segment_image_without_proba_witness :
  segment_image unit unit unit unit unit
    (fun _ => (0%Z, "a.jpg"%string)) (fun _ _ => "img_0"%string) (fun _ _ => tt)
    (fun _ _ _ => [[0; 1]%Z]) (fun _ _ => tt) (fun _ _ _ => (tt, []))
    (fun _ => []) (fun _ _ _ _ _ _ => []) (fun _ => false)
    tt plain_params hard_classifier "out" None false []
  = (Return ("img_0"%string, [[0; 1]%Z], [[0; 0]%Z]),
     [LogDebug ("segmenting image: " ++ quoted "a.jpg")%string;
      LogDebug "export segmentation: out/img_0.png";
      SaveImage "out/img_0.png" [[0; 1]%Z];
      LogWarning "classif: hard not support predict_proba(.)"]).
Proof.
  exact (segment_image_without_proba unit unit unit unit unit
           (fun _ => (0%Z, "a.jpg"%string)) (fun _ _ => "img_0"%string) (fun _ _ => tt)
           (fun _ _ _ => [[0; 1]%Z]) (fun _ _ => tt) (fun _ _ _ => (tt, []))
           (fun _ => []) (fun _ _ _ _ _ _ => []) (fun _ => false)
           tt plain_params hard_classifier "out" None false AttributeError
           [[0; 1]%Z] [] eq_refl eq_refl).
Defined.

End Pipeline.

(** * Further properties of the code *)

(** ** [ransac_segm]: the mask, and an empty point set *)

Module RansacFacts.
Import Py Ransac.

Section Mask.

Context {Pt M : Type} {MC : ModelClass Pt M}.
Variables (points points_all : list Pt) (weights : list R) (labels : list Z).
Variable table_prob : list (list R).
Variable residual_threshold : R.

(** The inliers of a trial are the points whose residual is, in absolute
    value, below the threshold, for the model of that trial. *)
Lemma trial_inliers (min_samples : nat) (g g' : rng) (o : outcome M) :
  trial points points_all weights labels table_prob residual_threshold min_samples g
  = Return (Some o, g') ->
  model_inliers o
  = map (fun r => Rltb (Rabs r) residual_threshold) (residuals (model o) points).
Proof.
  unfold trial. intro H.
  destruct (randint g (length points) min_samples) as [[idx g1]|]; simpl in H; [|discriminate].
  destruct (take points idx) as [samples|]; simpl in H; [|discriminate].
  destruct (estimate new_model samples) as [m success].
  destruct success as [[|]|];
    try (destruct (criterion m points_all weights labels table_prob) as [f|];
         simpl in H; [injection H as Ho _; subst o; simpl; apply map_map | discriminate]).
  discriminate.
Qed.

Lemma trial_outcomes_inliers (min_samples n : nat) : forall g outs o,
  trial_outcomes points points_all weights labels table_prob residual_threshold
    min_samples n g = Return outs ->
  In (Some o) outs ->
  model_inliers o
  = map (fun r => Rltb (Rabs r) residual_threshold) (residuals (model o) points).
Proof.
  induction n as [|n IH]; intros g outs o H Hin; simpl in H.
  - injection H as H. subst outs. contradiction.
  - destruct (trial points points_all weights labels table_prob residual_threshold
                min_samples g) as [[x g']|] eqn:Et; simpl in H; [|discriminate].
    destruct (trial_outcomes points points_all weights labels table_prob
                residual_threshold min_samples n g') as [os|] eqn:Eo;
      simpl in H; [|discriminate].
    injection H as H. subst outs. destruct Hin as [Hx|Hin].
    + subst x. eapply trial_inliers. exact Et.
    + eapply IH; eassumption.
Qed.

Lemma compress_length {A : Type} (mask : list bool) : forall (a : list A),
  length mask = length a -> length (compress mask a) = count_true mask.
Proof.
  unfold count_true. induction mask as [|b mask IH]; intros [|x a] H;
    try discriminate; simpl; [reflexivity|].
  injection H as H. destruct b; simpl; rewrite IH by exact H; reflexivity.
Qed.

(** A mask that is returned has one entry per point and at least one
    [True]; it marks the points within the threshold of the model of one
    of the trials, as that model was before the final estimate; the final
    estimate is made on as many points as the mask has [True]. *)
Theorem ransac_segm_mask_shape (g : rng) (min_samples : number) (max_trials : Z)
  (bm : option M) (mask : list bool) :
  ransac_segm g points points_all weights labels table_prob min_samples
    residual_threshold max_trials = Return (bm, Some mask) ->
  length mask = length points /\
  (0 < count_true mask)%nat /\
  length (compress mask points) = count_true mask /\
  exists m,
    mask = map (fun r => Rltb (Rabs r) residual_threshold) (residuals m points).
Proof.
  intro H. apply ransac_segm_returns in H. destruct H as (ms & outs & Hc & Ht & Hf).
  destruct (fold_update_inv outs) as [Hm Hk].
  unfold mask_inv in Hk. unfold finish in Hf.
  destruct (best_inliers (fold_left update outs init)) as [mask'|];
    [|destruct (best_model (fold_left update outs init)); discriminate].
  destruct (best_model (fold_left update outs init)) as [m0|]; [|discriminate].
  injection Hf as _ Hmask. subst mask'.
  destruct Hk as (_ & Hpos & (before & o & after & Houts & _ & Ho) & _).
  assert (Hin : In (Some o) outs).
  { rewrite Houts. apply in_or_app. right. left. reflexivity. }
  pose proof (trial_outcomes_inliers _ _ _ _ _ Ht Hin) as Hinl.
  rewrite Ho in Hinl.
  assert (Hlen : length mask = length points).
  { rewrite Hinl, length_map. apply residuals_length. }
  split; [exact Hlen|]. split; [exact Hpos|]. split.
  - apply compress_length. exact Hlen.
  - exists (model o). exact Hinl.
Qed.

(** With no point to draw from, a positive sample count and at least one
    trial, the call raises [ValueError]: the generator is asked for an
    index below zero. It does not return [(None, None)]. *)
Theorem ransac_segm_no_points (g : rng) (n max_trials : Z) :
  (1 <= n)%Z -> (1 <= max_trials)%Z ->
  exists msg,
    ransac_segm g (@nil Pt) points_all weights labels table_prob (PyInt n)
      residual_threshold max_trials = Raise (ValueError msg).
Proof.
  intros Hn Hm. unfold ransac_segm, check_params. simpl.
  assert (E1 : (n <? 0)%Z = false) by (apply Z.ltb_ge; lia).
  assert (E2 : (max_trials <? 0)%Z = false) by (apply Z.ltb_ge; lia).
  rewrite E1, E2. simpl.
  destruct (Z.to_nat max_trials) as [|k] eqn:Ek; [lia|].
  simpl. unfold trial. simpl. eexists. reflexivity.
Qed.

End Mask.

Lemma ransac_segm_mask_shape_witness :
  length [true; true; false] = length Location.pts /\
  (0 < count_true [true; true; false])%nat /\
  length (compress [true; true; false] Location.pts) = count_true [true; true; false] /\
  exists m,
    [true; true; false]
    = map (fun r => Rltb (Rabs r) 2) (Location.loc_residuals m Location.pts).
Proof.
  exact (ransac_segm_mask_shape (MC := Location.model_class)
           Location.pts Location.field [] [] [] 2%R Location.draws
           (PyInt 1) 2%Z (Some 0%R) [true; true; false] location_two_trials).
Defined.

Lemma ransac_segm_no_points_witness :
  exists msg,
    ransac_segm (model_class := Location.model_class) Location.draws
      [] Location.field [] [] [] (PyInt 1) 2%R 3 = Raise (ValueError msg).
Proof.
  apply (ransac_segm_no_points (MC := Location.model_class)
           Location.field [] [] [] 2%R Location.draws 1%Z 3%Z); lia.
Defined.

End RansacFacts.

(** ** [EllipseModelSegm.criterion]: what it rejects and what it sums *)

Module CriterionFacts.
Import Py Float64 Ellipse.

Lemma fold_max_ge (l : list Z) : forall x y,
  (y = x \/ In y l) -> (y <= fold_left Z.max l x)%Z.
Proof.
  induction l as [|z l IH]; intros x y H; simpl.
  - destruct H as [H|[]]. lia.
  - destruct H as [H|[H|H]].
    + subst y. apply Z.le_trans with (Z.max x z); [lia|]. apply IH. left. reflexivity.
    + subst y. apply Z.le_trans with (Z.max x z); [lia|]. apply IH. left. reflexivity.
    + apply IH. right. exact H.
Qed.

(** The checks, in the order the code makes them: the three lengths, the
    two rows of the table, a label to take the maximum of, and that
    maximum against the number of columns. *)
Theorem criterion_rejects (self : params) (points : list point) (weights : list R)
  (labels : list Z) (table_p : list (list R)) :
  (length points <> length weights \/ length weights <> length labels ->
   criterion self points weights labels table_p
   = Raise (AssertionError "different sizes for points and weights and labels")) /\
  (length points = length weights -> length weights = length labels ->
   length table_p <> 2%nat ->
   criterion self points weights labels table_p
   = Raise (AssertionError "table shape")) /\
  (length points = length weights -> length weights = length labels ->
   length table_p = 2%nat -> labels = [] ->
   exists msg,
     criterion self points weights labels table_p = Raise (ValueError msg)) /\
  (forall row0 row1 l,
     length points = length weights -> length weights = length labels ->
     table_p = [row0; row1] -> length row0 = length row1 ->
     In l labels -> (Z.of_nat (length row0) <= l)%Z ->
     criterion self points weights labels table_p
     = Raise (AssertionError "labels exceed the table")).
Proof.
  split; [|split; [|split]].
  - intros H. unfold criterion.
    assert (E : ((length points =? length weights)%nat
                 && (length weights =? length labels)%nat) = false).
    { destruct H as [H|H]; apply Nat.eqb_neq in H; rewrite H;
        [reflexivity | apply andb_false_r]. }
    rewrite E. reflexivity.
  - intros H1 H2 Ht. unfold criterion. rewrite H1, H2, !Nat.eqb_refl. simpl.
    destruct table_p as [|r0 [|r1 [|r2 t]]]; try reflexivity.
    exfalso. apply Ht. reflexivity.
  - intros H1 H2 Ht Hl. unfold criterion. rewrite H1, H2, !Nat.eqb_refl. simpl.
    destruct table_p as [|r0 [|r1 [|r2 t]]]; try discriminate.
    subst labels. simpl. eexists. reflexivity.
  - intros row0 row1 l H1 H2 Ht Hrow Hin Hl. subst table_p. unfold criterion.
    rewrite H1, H2, !Nat.eqb_refl. simpl.
    destruct labels as [|l0 rest]; [destruct Hin|]. simpl.
    rewrite Hrow, Nat.eqb_refl. simpl.
    assert (Hmax : (l <= fold_left Z.max rest l0)%Z).
    { apply fold_max_ge. destruct Hin as [Hin|Hin]; [left; symmetry; exact Hin | right; exact Hin]. }
    assert (E : (fold_left Z.max rest l0 <? Z.of_nat (length row1))%Z = false).
    { apply Z.ltb_ge. rewrite <- Hrow. lia. }
    rewrite E. reflexivity.
Qed.

Lemma criterion_rejects_witness :
  criterion unit_circle [(0, 0)%R] [1%R] [2%Z] table_default
  = Raise (AssertionError "labels exceed the table").
Proof.
  apply (proj2 (proj2 (proj2 (criterion_rejects unit_circle [(0, 0)%R] [1%R] [2%Z]
                                 table_default)))
           [1 / 10; 9 / 10]%R [9 / 10; 1 / 10]%R 2%Z).
  - reflexivity.
  - reflexivity.
  - reflexivity.
  - reflexivity.
  - left. reflexivity.
  - simpl. lia.
Defined.

Lemma getitem_nth {A : Type} (a : list A) (d : A) (i : Z) :
  (0 <= i < Z.of_nat (length a))%Z ->
  getitem a i = Return (nth (Z.to_nat i) a d).
Proof.
  intro H. unfold getitem.
  assert (E1 : (i <? 0)%Z = false) by (apply Z.ltb_ge; lia). rewrite E1.
  assert (E2 : ((0 <=? i) && (i <? Z.of_nat (length a)))%Z = true).
  { apply andb_true_intro. split; [apply Z.leb_le | apply Z.ltb_lt]; lia. }
  rewrite E2.
  destruct (nth_error a (Z.to_nat i)) as [x|] eqn:E.
  - rewrite (nth_error_nth _ _ d E). reflexivity.
  - apply nth_error_None in E. lia.
Qed.











(** The test of a point against the ellipse is the same for the point and
    for its mirror image through the centre: rounding is symmetric, so each
    intermediate value changes its sign only. *)
Theorem inside_mirror (self : params) (pt : point) :
  inside self (2 * r_org self - fst pt, 2 * c_org self - snd pt)%R = inside self pt.
Proof.
  unfold inside.
  enough (H : distance self (2 * r_org self - fst pt, 2 * c_org self - snd pt)%R
              = distance self pt) by (rewrite H; reflexivity).
  unfold distance. cbn [fst snd].
  set (s := round (sin (phi self))). set (c := round (cos (phi self))).
  replace (2 * r_org self - fst pt - r_org self)%R with (- (fst pt - r_org self))%R
    by ring.
  replace (2 * c_org self - snd pt - c_org self)%R with (- (snd pt - c_org self))%R
    by ring.
  rewrite !round_opp.
  set (x := round (fst pt - r_org self)). set (y := round (snd pt - c_org self)).
  replace (- x * c)%R with (- (x * c))%R by ring.
  replace (- y * s)%R with (- (y * s))%R by ring.
  replace (- x * s)%R with (- (x * s))%R by ring.
  replace (- y * c)%R with (- (y * c))%R by ring.
  rewrite !round_opp.
  replace (- round (x * c) + - round (y * s))%R
    with (- (round (x * c) + round (y * s)))%R by ring.
  replace (- round (x * s) - - round (y * c))%R
    with (- (round (x * s) - round (y * c)))%R by ring.
  rewrite !round_opp.
  assert (Hsq : forall t d : R,
            fmul round (fdiv round (Num (- t)) (Num d)) (fdiv round (Num (- t)) (Num d))
            = fmul round (fdiv round (Num t) (Num d)) (fdiv round (Num t) (Num d))).
  { intros t d. unfold fdiv. destruct (Req_dec_T d 0) as [E|E].
    - unfold signed_inf.
      destruct (Rltb 0 t) eqn:E1; destruct (Rltb t 0) eqn:E2;
        try apply Rltb_true in E1; try apply Rltb_false in E1;
        try apply Rltb_true in E2; try apply Rltb_false in E2;
        try (exfalso; lra).
      + rewrite (proj2 (Rltb_false 0 (- t))) by lra.
        rewrite (proj2 (Rltb_true (- t) 0)) by lra. reflexivity.
      + rewrite (proj2 (Rltb_true 0 (- t))) by lra. reflexivity.
      + rewrite (proj2 (Rltb_false 0 (- t))) by lra.
        rewrite (proj2 (Rltb_false (- t) 0)) by lra. reflexivity.
    - replace (- t / d)%R with (- (t / d))%R by (field; exact E).
      rewrite round_opp. cbn [fmul]. do 2 f_equal. ring. }
  rewrite !Hsq. reflexivity.
Qed.

End CriterionFacts.

(** ** [add_overlap_ellipse]: what a call leaves alone, and when it paints *)

Module OverlapFacts.
Import Py Heap Overlap.

Lemma length_mapi_from {A B : Type} (f : nat -> A -> B) (l : list A) :
  forall i, length (mapi_from f i l) = length l.
Proof.
  induction l as [|x l IH]; intro i; simpl; [reflexivity|].
  rewrite IH. reflexivity.
Qed.

Lemma shape_paint (a : array2) (coords : list (Z * Z)) (label : Z) :
  shape (paint a coords label) = shape a.
Proof.
  unfold shape, paint, mapi. rewrite length_mapi_from.
  destruct a as [|row a]; simpl; [reflexivity|].
  rewrite length_mapi_from. reflexivity.
Qed.

Lemma mapi_from_ext {A B : Type} (f g : nat -> A -> B) (l : list A) :
  forall i, (forall j x, f j x = g j x) -> mapi_from f i l = mapi_from g i l.
Proof.
  induction l as [|x l IH]; intros i H; simpl; [reflexivity|].
  rewrite H, (IH (S i) H). reflexivity.
Qed.

Lemma mapi_from_compose {A B C : Type} (f : nat -> B -> C) (g : nat -> A -> B)
  (l : list A) :
  forall i, mapi_from f i (mapi_from g i l) = mapi_from (fun j x => f j (g j x)) i l.
Proof.
  induction l as [|x l IH]; intro i; simpl; [reflexivity|].
  rewrite IH. reflexivity.
Qed.

Lemma paint_twice (a : array2) (coords : list (Z * Z)) (label : Z) :
  paint (paint a coords label) coords label = paint a coords label.
Proof.
  unfold paint, mapi. rewrite mapi_from_compose.
  apply mapi_from_ext. intros r row.
  rewrite mapi_from_compose. apply mapi_from_ext. intros c v.
  destruct (in_mask coords r c); reflexivity.
Qed.

Lemma int_of_float_IZR (z : Z) : int_of_float (IZR z) = z.
Proof.
  unfold int_of_float. destruct (Rle_dec 0 (IZR z)) as [H|H].
  - symmetry. apply Int_part_spec. lra.
  - rewrite <- opp_IZR.
    rewrite <- (Int_part_spec (IZR (- z)) (- z)%Z) by lra. lia.
Qed.

Lemma in_range1 (stop lb : Z) : In lb (range1 stop) <-> (1 <= lb < stop)%Z.
Proof.
  unfold range1. rewrite in_map_iff. split.
  - intros (k & Hk & Hin). apply in_seq in Hin. lia.
  - intro H. exists (Z.to_nat lb). split; [lia|]. apply in_seq. lia.
Qed.

(** An array as numpy has it: every row as long as the first. *)
Definition rect (a : array2) : Prop :=
  forall row, In row a -> length row = snd (shape a).

Lemma positions_mapi_from {A : Type} (r : nat) (row : list A) :
  forall i, map fst (mapi_from (fun c v => (r, c, v)) i row)
            = map (fun c => (r, c)) (seq i (length row)).
Proof.
  induction row as [|v row IH]; intro i; simpl; [reflexivity|].
  rewrite IH. reflexivity.
Qed.

Lemma positions_rows (n : nat) (a : array2) :
  forall i, (forall row, In row a -> length row = n) ->
  map fst (concat (mapi_from (fun r row => mapi_from (fun c v => (r, c, v)) 0 row) i a))
  = concat (map (fun r => map (fun c => (r, c)) (seq 0 n)) (seq i (length a))).
Proof.
  induction a as [|row a IH]; intros i H; simpl; [reflexivity|].
  rewrite map_app, positions_mapi_from, (H row (or_introl eq_refl)).
  rewrite IH by (intros row' Hin; apply H; right; exact Hin). reflexivity.
Qed.

(** The positions of the cells of an array are those of its shape. *)
Lemma cells_positions (a : array2) : rect a -> map fst (cells a) = grid (shape a).
Proof.
  intro H. unfold cells, grid, mapi. apply positions_rows. exact H.
Qed.

Lemma filter_length_le {A : Type} (p q : A -> bool) (l : list A) :
  (forall x, p x = true -> q x = true) ->
  (length (filter p l) <= length (filter q l))%nat.
Proof.
  intro H. induction l as [|x l IH]; simpl; [lia|].
  destruct (p x) eqn:E.
  - rewrite (H x E). simpl. lia.
  - destruct (q x); simpl; lia.
Qed.

Lemma filter_map_length {A B : Type} (f : A -> B) (p : B -> bool) (l : list A) :
  length (filter p (map f l)) = length (filter (fun x => p (f x)) l).
Proof.
  induction l as [|x l IH]; simpl; [reflexivity|].
  destruct (p (f x)); simpl; rewrite IH; reflexivity.
Qed.

(** No object shares more pixels with the mask than the smaller of the two
    has. *)
Lemma overlap_le_sizes (segm : array2) (coords : list (Z * Z)) (lb : Z) :
  rect segm ->
  (overlap segm coords lb
   <= Nat.min (size_label segm lb) (size_mask (shape segm) coords))%nat.
Proof.
  intro Hrect. apply Nat.min_glb.
  - unfold overlap, size_label. apply filter_length_le.
    intros cell H. apply andb_prop in H. apply H.
  - unfold overlap, size_mask. rewrite <- (cells_positions segm Hrect).
    rewrite filter_map_length. apply filter_length_le.
    intros cell H. apply andb_prop in H. apply H.
Qed.

Lemma ratio_le_one (segm : array2) (coords : list (Z * Z)) (lb : Z) :
  rect segm ->
  Nat.min (size_label segm lb) (size_mask (shape segm) coords) <> 0%nat ->
  exists x, ratio segm coords lb = Return x /\ (x <= 1)%R.
Proof.
  intros Hrect Hsz. unfold ratio.
  pose proof Hsz as Hb. apply Nat.eqb_neq in Hb. rewrite Hb.
  eexists. split; [reflexivity|].
  set (n := Nat.min (size_label segm lb) (size_mask (shape segm) coords)) in *.
  assert (Hn : (0 < INR n)%R) by (apply lt_0_INR; lia).
  apply Rmult_le_reg_r with (INR n); [exact Hn|].
  unfold Rdiv. rewrite Rmult_assoc, Rinv_l by lra. rewrite Rmult_1_r, Rmult_1_l.
  apply le_INR. apply overlap_le_sizes. exact Hrect.
Qed.

Section Drawing.

Variable ellipse_pixels : Z -> Z -> Z -> Z -> R -> list (Z * Z).

(** Whatever the call does, it touches no other array and keeps the shape
    of the one it is given; when it returns, it returns that very array;
    when it raises, nothing has been written, and the exception comes from
    the maximum of an empty array or from the division. *)
Theorem add_overlap_ellipse_frame (h h' : heap) (segm : loc)
  (ellipse_params : option (R * R * R * R * R)) (label : Z) (thr_overlap : R)
  (res : result loc) :
  add_overlap_ellipse ellipse_pixels h segm ellipse_params label thr_overlap
  = (res, h') ->
  (forall l', l' <> segm -> h' l' = h l') /\
  shape (h' segm) = shape (h segm) /\
  match res with
  | Return l => l = segm
  | Raise e => h' = h /\ (e = ZeroDivisionError \/ exists msg, e = ValueError msg)
  end.
Proof.
  unfold add_overlap_ellipse. intro H.
  destruct ellipse_params as [[[[[c1 c2] height] width] phi]|].
  2:{ injection H as Hr Hh. subst res h'. repeat split; reflexivity. }
  destruct (np_max (h segm)) as [m|e] eqn:Em.
  - match type of H with context [filter_overlapping ?a ?c ?t ?l] =>
      assert (Hloop : forall e', filter_overlapping a c t l = Raise e' ->
                                 e' = ZeroDivisionError);
      [| destruct (filter_overlapping a c t l) as [[|]|e'] eqn:Ef] end.
    { generalize (range1 (m + 1)). intro lbs.
      induction lbs as [|lb lbs IH]; intros e' He'; simpl in He'; [discriminate|].
      unfold ratio in He' at 1.
      match type of He' with context [(?n =? 0)%nat] => destruct (n =? 0)%nat end;
        simpl in He'.
      - injection He' as He'. auto.
      - match type of He' with context [Rltb ?t ?y] => destruct (Rltb t y) end;
          [discriminate | apply IH; exact He']. }
    + injection H as Hr Hh. subst res h'. repeat split; reflexivity.
    + injection H as Hr Hh. subst res h'. split; [|split].
      * intros l' Hne. apply write_other. exact Hne.
      * rewrite write_same. apply shape_paint.
      * reflexivity.
    + injection H as Hr Hh. subst res h'. split; [|split]; [reflexivity..|].
      split; [reflexivity|]. left. apply Hloop. reflexivity.
  - injection H as Hr Hh. subst res h'. split; [|split]; [reflexivity..|].
    split; [reflexivity|]. right.
    unfold np_max in Em. destruct (concat (h segm)); [|discriminate].
    injection Em as Em. eexists. symmetry. exact Em.
Qed.

(** On a canvas without any positive label, such as a fresh array of
    zeros, the loop over the labels is empty: the ellipse is painted
    whatever the threshold. *)
Theorem add_overlap_ellipse_blank (h : heap) (segm : loc)
  (c1 c2 height width phi : R) (label : Z) (thr_overlap : R) (m : Z) :
  np_max (h segm) = Return m ->
  (m <= 0)%Z ->
  add_overlap_ellipse ellipse_pixels h segm (Some (c1, c2, height, width, phi))
    label thr_overlap
  = (Return segm,
     write h segm
       (paint (h segm)
          (ellipse ellipse_pixels (int_of_float c1) (int_of_float c2)
             (int_of_float height) (int_of_float width) phi (shape (h segm)))
          label)).
Proof.
  intros Hm Hle. unfold add_overlap_ellipse. rewrite Hm.
  unfold range1. replace (Z.to_nat (m + 1 - 1)) with 0%nat by lia. reflexivity.
Qed.

(** With the default threshold [1.0], or any larger one, the filter never
    keeps an ellipse out: on a canvas where every label from [1] to the
    maximum is present, an ellipse with a pixel in the image is always
    painted, however much it overlaps the objects there. *)
Theorem add_overlap_ellipse_default_paints (h : heap) (segm : loc)
  (c1 c2 height width phi : R) (label : Z) (thr_overlap : R) (m : Z) :
  let coords := ellipse ellipse_pixels (int_of_float c1) (int_of_float c2)
                  (int_of_float height) (int_of_float width) phi (shape (h segm)) in
  rect (h segm) ->
  np_max (h segm) = Return m ->
  (forall lb, (1 <= lb <= m)%Z -> size_label (h segm) lb <> 0%nat) ->
  size_mask (shape (h segm)) coords <> 0%nat ->
  (1 <= thr_overlap)%R ->
  add_overlap_ellipse ellipse_pixels h segm (Some (c1, c2, height, width, phi))
    label thr_overlap
  = (Return segm, write h segm (paint (h segm) coords label)).
Proof.
  intros coords Hrect Hm Hlab Hmask Hthr.
  apply (add_overlap_ellipse_paints ellipse_pixels h segm c1 c2 height width phi
           label thr_overlap m Hm).
  intros lb Hin. apply in_range1 in Hin.
  destruct (ratio_le_one (h segm) coords lb Hrect) as (x & Hx & Hle).
  - pose proof (Hlab lb ltac:(lia)). fold coords in Hmask. lia.
  - exists x. split; [exact Hx | lra].
Qed.

(** An ellipse without any pixel in the image, on a canvas with a positive
    label: the division by the size of the empty mask raises
    [ZeroDivisionError], and the canvas is not returned. *)
Theorem add_overlap_ellipse_off_image (h : heap) (segm : loc)
  (c1 c2 height width phi : R) (label : Z) (thr_overlap : R) (m : Z) :
  ellipse ellipse_pixels (int_of_float c1) (int_of_float c2) (int_of_float height)
    (int_of_float width) phi (shape (h segm)) = [] ->
  np_max (h segm) = Return m ->
  (1 <= m)%Z ->
  add_overlap_ellipse ellipse_pixels h segm (Some (c1, c2, height, width, phi))
    label thr_overlap
  = (Raise ZeroDivisionError, h).
Proof.
  intros Hc Hm Hle. unfold add_overlap_ellipse. rewrite Hm, Hc.
  unfold range1. replace (m + 1 - 1)%Z with m by lia.
  destruct (Z.to_nat m) as [|n] eqn:En; [lia|].
  simpl. unfold ratio.
  assert (Hz : size_mask (shape (h segm)) [] = 0%nat).
  { unfold size_mask. induction (grid (shape (h segm))) as [|rc g IH];
      [reflexivity | exact IH]. }
  rewrite Hz, Nat.min_0_r. reflexivity.
Qed.

(** Once the ellipse is painted, a further call with the same ellipse and
    label, under any threshold, changes no array if it returns. *)
Theorem add_overlap_ellipse_again (h h2 : heap) (segm l2 : loc)
  (c1 c2 height width phi : R) (label : Z) (thr_overlap : R) :
  let coords := ellipse ellipse_pixels (int_of_float c1) (int_of_float c2)
                  (int_of_float height) (int_of_float width) phi (shape (h segm)) in
  let h1 := write h segm (paint (h segm) coords label) in
  add_overlap_ellipse ellipse_pixels h1 segm (Some (c1, c2, height, width, phi))
    label thr_overlap
  = (Return l2, h2) ->
  l2 = segm /\ forall l', h2 l' = h1 l'.
Proof.
  intros coords h1 H.
  destruct (add_overlap_ellipse_returns ellipse_pixels _ _ _ _ _ _ _ _ _ _ _ H)
    as (Hl & Hother & Hsegm).
  split; [exact Hl|]. intro l'.
  destruct Hsegm as [Hsame|Hpaint]; [rewrite Hsame; reflexivity|].
  rewrite Hpaint. unfold write at 1.
  destruct (l' =? segm)%nat eqn:E; [|reflexivity].
  apply Nat.eqb_eq in E. subst l'.
  unfold h1. rewrite !write_same, shape_paint. fold coords.
  apply paint_twice.
Qed.

End Drawing.

Lemma add_overlap_ellipse_frame_witness :
  (forall l', l' <> 0%nat ->
     write (fun _ => [[1; 0]%Z]) 0%nat
       (paint [[1; 0]%Z] (ellipse axis_ellipse (int_of_float 0) (int_of_float 0) (int_of_float 1)
                (int_of_float 1) 0%R (1, 2)%nat) 2) l'
     = [[1; 0]%Z]) /\
  shape (write (fun _ => [[1; 0]%Z]) 0%nat
           (paint [[1; 0]%Z] (ellipse axis_ellipse (int_of_float 0) (int_of_float 0) (int_of_float 1)
                (int_of_float 1) 0%R (1, 2)%nat) 2) 0%nat)
  = shape [[1; 0]%Z] /\
  0%nat = 0%nat.
Proof.
  apply (add_overlap_ellipse_frame axis_ellipse (fun _ => [[1; 0]%Z]) _ 0%nat
           (Some (0, 0, 1, 1, 0)%R) 2 1%R (Return 0%nat)).
  apply (add_overlap_ellipse_paints axis_ellipse (fun _ => [[1; 0]%Z]) 0%nat
           0%R 0%R 1%R 1%R 0%R 2 1%R 1).
  - reflexivity.
  - intros lb Hin. apply in_range1 in Hin. assert (lb = 1%Z) by lia. subst lb.
    rewrite !int_of_float_IZR. unfold ratio. simpl.
    eexists. split; [reflexivity|]. simpl. lra.
Defined.

Lemma add_overlap_ellipse_blank_witness :
  add_overlap_ellipse axis_ellipse (fun _ => [[0; 0]; [0; 0]]%Z) 0%nat
    (Some (0, 0, 1, 1, 0)%R) 1 (1 / 2)%R
  = (Return 0%nat,
     write (fun _ => [[0; 0]; [0; 0]]%Z) 0%nat
       (paint [[0; 0]; [0; 0]]%Z
          (ellipse axis_ellipse (int_of_float 0) (int_of_float 0) (int_of_float 1)
             (int_of_float 1) 0%R (shape [[0; 0]; [0; 0]]%Z))
          1)).
Proof.
  apply (add_overlap_ellipse_blank axis_ellipse (fun _ => [[0; 0]; [0; 0]]%Z) 0%nat
           0%R 0%R 1%R 1%R 0%R 1 (1 / 2)%R 0).
  - reflexivity.
  - lia.
Defined.

Lemma add_overlap_ellipse_default_paints_witness :
  add_overlap_ellipse axis_ellipse (fun _ => [[1; 0]%Z]) 0%nat
    (Some (0, 0, 1, 1, 0)%R) 2 1%R
  = (Return 0%nat,
     write (fun _ => [[1; 0]%Z]) 0%nat
       (paint [[1; 0]%Z]
          (ellipse axis_ellipse (int_of_float 0) (int_of_float 0) (int_of_float 1)
             (int_of_float 1) 0%R (shape [[1; 0]%Z]))
          2)).
Proof.
  apply (add_overlap_ellipse_default_paints axis_ellipse (fun _ => [[1; 0]%Z]) 0%nat
           0%R 0%R 1%R 1%R 0%R 2 1%R 1).
  - intros row [Hrow|[]]. subst row. reflexivity.
  - reflexivity.
  - intros lb Hlb. assert (lb = 1%Z) by lia. subst lb. simpl. discriminate.
  - rewrite !int_of_float_IZR. simpl. discriminate.
  - lra.
Defined.

Lemma add_overlap_ellipse_off_image_witness :
  add_overlap_ellipse axis_ellipse (fun _ => [[1; 0]%Z]) 0%nat
    (Some (9, 9, 1, 1, 0)%R) 2 1%R
  = (Raise ZeroDivisionError, fun _ => [[1; 0]%Z]).
Proof.
  apply (add_overlap_ellipse_off_image axis_ellipse (fun _ => [[1; 0]%Z]) 0%nat
           9%R 9%R 1%R 1%R 0%R 2 1%R 1).
  - rewrite !int_of_float_IZR. reflexivity.
  - reflexivity.
  - lia.
Defined.

Lemma add_overlap_ellipse_again_witness :
  0%nat = 0%nat /\
  forall l',
    write (fun _ => [[0; 0]%Z]) 0%nat
      (paint [[0; 0]%Z]
         (ellipse axis_ellipse (int_of_float 0) (int_of_float 0) (int_of_float 1)
            (int_of_float 1) 0%R (shape [[0; 0]%Z]))
         1) l'
    = write (fun _ => [[0; 0]%Z]) 0%nat
        (paint [[0; 0]%Z]
           (ellipse axis_ellipse (int_of_float 0) (int_of_float 0) (int_of_float 1)
              (int_of_float 1) 0%R (shape [[0; 0]%Z]))
           1) l'.
Proof.
  apply (add_overlap_ellipse_again axis_ellipse (fun _ => [[0; 0]%Z])
           (write (fun _ => [[0; 0]%Z]) 0%nat
              (paint [[0; 0]%Z]
                 (ellipse axis_ellipse (int_of_float 0) (int_of_float 0)
                    (int_of_float 1) (int_of_float 1) 0%R (shape [[0; 0]%Z]))
                 1))
           0%nat 0%nat 0%R 0%R 1%R 1%R 0%R 1 (1 / 2)%R).
  unfold add_overlap_ellipse. rewrite !write_same, !shape_paint.
  rewrite !int_of_float_IZR. simpl. unfold ratio. simpl.
  rewrite (proj2 (Rltb_true (1 / 2) ((1 + 1) / (1 + 1)))) by lra.
  reflexivity.
Defined.

End OverlapFacts.

(** ** The boundary points of each centre *)

Module BoundaryFacts.
Import Py Boundary.




Lemma group_by_center_length (p0 : point) (points : list point)
  (c : center) (cs : list center) :
  group_by_center (p0 :: points) (c :: cs)
  = Return (map (fun i => compress (map (fun k => (k =? i)%nat)
                                        (map (nearest c cs) (p0 :: points)))
                                   (p0 :: points))
                (seq 0 (list_max (map (nearest c cs) (p0 :: points)) + 1))).
Proof.
  unfold group_by_center. rewrite close_centers_cons. reflexivity.
Qed.


Lemma ray_join_short_rays_witness :
  points_bg_of Flat.rays Flat.reconstruct Flat.reduce [[true]] (1, 1)%Z 5 3
  = points_fc_of Flat.rays Flat.reconstruct Flat.reduce [[false]] (1, 1)%Z 5 3.
Proof.
  apply (ray_join_short_rays Flat.rays Flat.reconstruct Flat.reduce
           [[true]] [[false]] (1, 1)%Z 5%R 3%R).
  - intros r Hr. unfold Flat.rays in Hr. simpl in Hr.
    destruct Hr as [Hr|[Hr|[Hr|[Hr|[]]]]]; subst r; lra.
  - intros r Hr. unfold Flat.rays in Hr. simpl in Hr.
    destruct Hr as [Hr|[Hr|[Hr|[Hr|[]]]]]; subst r; lra.
  - reflexivity.
Defined.

End BoundaryFacts.

(** ** Rays that found no edge: [prepare_boundary_points_ray_edge] and
    [prepare_boundary_points_ray_mean] *)

Module Rays.
Import Py Boundary.

(** An entry of the float array [rays]: a length, or [np.inf]. *)
Inductive ray : Type :=
| Len (d : R)
| Inf.

(** [x < y] for an entry and a number. *)
Definition lt (x : ray) (y : R) : bool :=
  match x with
  | Len d => Rltb d y
  | Inf => false
  end.

Definition isinf (x : ray) : bool :=
  match x with
  | Len _ => false
  | Inf => true
  end.

(** [row[cond] = v] *)
Definition set_where (cond : ray -> bool) (v : ray) (row : list ray) : list ray :=
  map (fun x => if cond x then v else x) row.

(** [np.array([ray_bg, ray_fc], dtype=float)]: the two rows, of one
    length. *)
Definition np_array (ray_bg ray_fc : list R) : result (list ray * list ray) :=
  if (length ray_bg =? length ray_fc)%nat
  then Return (map Len ray_bg, map Len ray_fc)
  else Raise (ValueError "setting an array element with a sequence").

(** [np.min] and [np.mean] of two entries. *)
Definition min2 (a b : ray) : ray :=
  match a, b with
  | Len x, Len y => Len (Rmin x y)
  | Len x, Inf => Len x
  | Inf, Len y => Len y
  | Inf, Inf => Inf
  end.

Definition mean2 (a b : ray) : ray :=
  match a, b with
  | Len x, Len y => Len ((x + y) / 2)
  | _, _ => Inf
  end.

(** The array [rays] after the two assignments. *)
Definition prepare_rays (min_diam : R) (ray_bg ray_fc : list R)
  : result (list ray * list ray) :=
  ' (bg, fc) <- np_array ray_bg ray_fc ;;
  let bg := set_where (fun x => lt x 0) Inf bg in
  let fc := set_where (fun x => lt x 0) Inf fc in
  let bg := set_where (fun x => lt x min_diam) (Len min_diam) bg in
  let fc := set_where (fun x => lt x min_diam) (Len min_diam) fc in
  Return (bg, fc).

(** [np.min(rays, axis=0)] *)
Definition min_axis0 (rays : list ray * list ray) : list ray :=
  map (fun ab => min2 (fst ab) (snd ab)) (combine (fst rays) (snd rays)).

(** [np.mean(rays, axis=0)] *)
Definition mean_axis0 (rays : list ray * list ray) : list ray :=
  map (fun ab => mean2 (fst ab) (snd ab)) (combine (fst rays) (snd rays)).

(** [ray_mean[np.isinf(ray_mean)] = ray_min[np.isinf(ray_mean)]] *)
Definition fill_inf (ray_mean ray_min : list ray) : list ray :=
  map (fun mm => if isinf (fst mm) then snd mm else fst mm) (combine ray_mean ray_min).

(** The body of a loop that appends one result for each element and stops
    at the first exception. *)
Fixpoint for_each {A B : Type} (body : A -> result B) (l : list A) : result (list B) :=
  match l with
  | [] => Return []
  | x :: rest =>
      y <- body x ;;
      ys <- for_each body rest ;;
      Return (y :: ys)
  end.

Section Strategies.

Variable binary_fill_holes : mask -> mask.
Variable opening_disk : mask -> R -> mask.

(** [segmentation.descriptors], as in [Boundary]; the distances given to
    the reconstruction may here be infinite, and so may the coordinates of
    the points it gives. *)
Variable Points : Type.
Variable compute_ray_features_segm_2d : mask -> center -> edge -> list R.
Variable reconstruct_ray_features_2d : center -> list ray -> option R -> Points.
Variable reduce_close_points : Points -> R -> Points.

Definition prepare_boundary_points_ray_edge (seg : segmentation)
  (centers : list center) (close_points min_diam sel_bg sel_fg : R)
  : result (list Points) :=
  let '(seg_bg, seg_fc) :=
    split_segm_background_foreground binary_fill_holes opening_disk seg sel_bg sel_fg in
  for_each
    (fun center =>
       let ray_bg := compute_ray_features_segm_2d seg_bg center Up in
       let ray_fc := compute_ray_features_segm_2d seg_fc center Down in
       rays <- prepare_rays min_diam ray_bg ray_fc ;;
       let ray_close := min_axis0 rays in
       let points_close := reconstruct_ray_features_2d center ray_close None in
       Return (reduce_close_points points_close close_points))
    centers.

Definition prepare_boundary_points_ray_mean (seg : segmentation)
  (centers : list center) (close_points min_diam sel_bg sel_fg : R)
  : result (list Points) :=
  let '(seg_bg, seg_fc) :=
    split_segm_background_foreground binary_fill_holes opening_disk seg sel_bg sel_fg in
  for_each
    (fun center =>
       let ray_bg := compute_ray_features_segm_2d seg_bg center Up in
       let ray_fc := compute_ray_features_segm_2d seg_fc center Down in
       rays <- prepare_rays min_diam ray_bg ray_fc ;;
       let ray_min := min_axis0 rays in
       let ray_mean := fill_inf (mean_axis0 rays) ray_min in
       let points_close := reconstruct_ray_features_2d center ray_mean None in
       Return (reduce_close_points points_close close_points))
    centers.

End Strategies.

(** *** The distances given to the reconstruction *)

(** An entry of [rays] after the two assignments, from the length the ray
    features report. *)
Definition prepared (min_diam x : R) : ray :=
  if Rltb x 0 then Inf else if Rltb x min_diam then Len min_diam else Len x.

Lemma prepare_rays_entries (min_diam : R) (ray_bg ray_fc : list R) :
  length ray_bg = length ray_fc ->
  prepare_rays min_diam ray_bg ray_fc
  = Return (map (prepared min_diam) ray_bg, map (prepared min_diam) ray_fc).
Proof.
  intro H. unfold prepare_rays, np_array. rewrite H, Nat.eqb_refl. simpl.
  unfold set_where. rewrite !map_map.
  assert (E : forall x, (if lt (if lt (Len x) 0 then Inf else Len x) min_diam
                         then Len min_diam
                         else if lt (Len x) 0 then Inf else Len x)
                        = prepared min_diam x).
  { intro x. unfold prepared. simpl. destruct (Rltb x 0); reflexivity. }
  rewrite (map_ext _ _ E ray_bg), (map_ext _ _ E ray_fc). reflexivity.
Qed.

Lemma nth_error_combine {A B : Type} (l : list A) :
  forall (l' : list B) k a b, nth_error l k = Some a -> nth_error l' k = Some b ->
  nth_error (combine l l') k = Some (a, b).
Proof.
  induction l as [|x l IH]; intros l' k a b Ha Hb; [destruct k; discriminate|].
  destruct l' as [|y l']; [destruct k; discriminate|].
  destruct k as [|k]; simpl in *.
  - congruence.
  - apply IH; assumption.
Qed.

Lemma for_each_map {A B : Type} (body : A -> result B) (g : A -> B) (l : list A) :
  (forall x, In x l -> body x = Return (g x)) ->
  for_each body l = Return (map g l).
Proof.
  induction l as [|x l IH]; intro H; simpl; [reflexivity|].
  rewrite (H x (or_introl eq_refl)). simpl.
  rewrite IH by (intros y Hy; apply H; right; exact Hy). reflexivity.
Qed.

Lemma prepared_negative (min_diam x : R) : (x < 0)%R -> prepared min_diam x = Inf.
Proof.
  intro H. unfold prepared. rewrite (proj2 (Rltb_true x 0) H). reflexivity.
Qed.

Lemma prepared_found (min_diam x : R) :
  (0 <= x)%R -> prepared min_diam x = Len (Rmax min_diam x).
Proof.
  intro H. unfold prepared. rewrite (proj2 (Rltb_false x 0)) by lra.
  destruct (Rltb x min_diam) eqn:E.
  - apply Rltb_true in E. rewrite Rmax_left by lra. reflexivity.
  - apply Rltb_false in E. rewrite Rmax_right by lra. reflexivity.
Qed.

Section Distances.

Variable binary_fill_holes : mask -> mask.
Variable opening_disk : mask -> R -> mask.
Variable Points : Type.
Variable compute_ray_features_segm_2d : mask -> center -> edge -> list R.
Variable reconstruct_ray_features_2d : center -> list ray -> option R -> Points.
Variable reduce_close_points : Points -> R -> Points.

(** [prepare_boundary_points_ray_edge], when the two kinds of rays of a
    centre are as many: one group for each centre, reconstructed from one
    distance for each ray. A ray that finds no edge in either mask keeps
    an infinite distance, which goes to the reconstruction; a ray that
    finds an edge in one mask only takes that length; one that finds both
    takes the shorter; and no finite distance is below [min_diam]. *)
Theorem ray_edge_distances (seg : segmentation) (centers : list center)
  (close_points min_diam sel_bg sel_fg : R) :
  let seg_bg := fst (split_segm_background_foreground binary_fill_holes opening_disk
                       seg sel_bg sel_fg) in
  let seg_fc := snd (split_segm_background_foreground binary_fill_holes opening_disk
                       seg sel_bg sel_fg) in
  (forall c, In c centers ->
     length (compute_ray_features_segm_2d seg_bg c Up)
     = length (compute_ray_features_segm_2d seg_fc c Down)) ->
  exists ray_close : center -> list ray,
    prepare_boundary_points_ray_edge binary_fill_holes opening_disk Points
      compute_ray_features_segm_2d reconstruct_ray_features_2d reduce_close_points
      seg centers close_points min_diam sel_bg sel_fg
    = Return (map (fun c => reduce_close_points
                              (reconstruct_ray_features_2d c (ray_close c) None)
                              close_points)
                  centers) /\
    forall c k b f,
      In c centers ->
      nth_error (compute_ray_features_segm_2d seg_bg c Up) k = Some b ->
      nth_error (compute_ray_features_segm_2d seg_fc c Down) k = Some f ->
      (b < 0 -> f < 0 -> nth_error (ray_close c) k = Some Inf)%R /\
      (b < 0 -> 0 <= f -> nth_error (ray_close c) k = Some (Len (Rmax min_diam f)))%R /\
      (0 <= b -> f < 0 -> nth_error (ray_close c) k = Some (Len (Rmax min_diam b)))%R /\
      (0 <= b -> 0 <= f ->
       nth_error (ray_close c) k
       = Some (Len (Rmin (Rmax min_diam b) (Rmax min_diam f))))%R.
Proof.
  intros seg_bg seg_fc Hlen.
  exists (fun c => min_axis0
                     (map (prepared min_diam) (compute_ray_features_segm_2d seg_bg c Up),
                      map (prepared min_diam)
                          (compute_ray_features_segm_2d seg_fc c Down))).
  split.
  - unfold prepare_boundary_points_ray_edge. subst seg_bg seg_fc.
    destruct (split_segm_background_foreground binary_fill_holes opening_disk seg
                sel_bg sel_fg) as [seg_bg seg_fc]. simpl in Hlen |- *.
    apply for_each_map. intros c Hc.
    rewrite (prepare_rays_entries _ _ _ (Hlen c Hc)). reflexivity.
  - intros c k b f Hc Hb Hf. unfold min_axis0. simpl.
    assert (E : nth_error
                  (map (fun ab => min2 (fst ab) (snd ab))
                     (combine
                        (map (prepared min_diam)
                             (compute_ray_features_segm_2d seg_bg c Up))
                        (map (prepared min_diam)
                             (compute_ray_features_segm_2d seg_fc c Down)))) k
                = Some (min2 (prepared min_diam b) (prepared min_diam f))).
    { rewrite nth_error_map.
      rewrite (nth_error_combine _ _ k (prepared min_diam b) (prepared min_diam f));
        [reflexivity | rewrite nth_error_map, Hb; reflexivity
         | rewrite nth_error_map, Hf; reflexivity]. }
    rewrite E. repeat split; intros H1 H2;
      rewrite ?(prepared_negative min_diam b), ?(prepared_negative min_diam f),
        ?(prepared_found min_diam b), ?(prepared_found min_diam f) by assumption;
      reflexivity.
Qed.

(** [prepare_boundary_points_ray_mean] differs on the rays that find an
    edge in both masks, where the distance is the mean of the two lengths,
    each raised to [min_diam]; on the other rays it gives the same as
    [prepare_boundary_points_ray_edge], the infinite distance included. *)
Theorem ray_mean_distances (seg : segmentation) (centers : list center)
  (close_points min_diam sel_bg sel_fg : R) :
  let seg_bg := fst (split_segm_background_foreground binary_fill_holes opening_disk
                       seg sel_bg sel_fg) in
  let seg_fc := snd (split_segm_background_foreground binary_fill_holes opening_disk
                       seg sel_bg sel_fg) in
  (forall c, In c centers ->
     length (compute_ray_features_segm_2d seg_bg c Up)
     = length (compute_ray_features_segm_2d seg_fc c Down)) ->
  exists ray_mean : center -> list ray,
    prepare_boundary_points_ray_mean binary_fill_holes opening_disk Points
      compute_ray_features_segm_2d reconstruct_ray_features_2d reduce_close_points
      seg centers close_points min_diam sel_bg sel_fg
    = Return (map (fun c => reduce_close_points
                              (reconstruct_ray_features_2d c (ray_mean c) None)
                              close_points)
                  centers) /\
    forall c k b f,
      In c centers ->
      nth_error (compute_ray_features_segm_2d seg_bg c Up) k = Some b ->
      nth_error (compute_ray_features_segm_2d seg_fc c Down) k = Some f ->
      (b < 0 -> f < 0 -> nth_error (ray_mean c) k = Some Inf)%R /\
      (b < 0 -> 0 <= f -> nth_error (ray_mean c) k = Some (Len (Rmax min_diam f)))%R /\
      (0 <= b -> f < 0 -> nth_error (ray_mean c) k = Some (Len (Rmax min_diam b)))%R /\
      (0 <= b -> 0 <= f ->
       nth_error (ray_mean c) k
       = Some (Len ((Rmax min_diam b + Rmax min_diam f) / 2)))%R.
Proof.
  intros seg_bg seg_fc Hlen.
  exists (fun c =>
            let rays :=
              (map (prepared min_diam) (compute_ray_features_segm_2d seg_bg c Up),
               map (prepared min_diam) (compute_ray_features_segm_2d seg_fc c Down)) in
            fill_inf (mean_axis0 rays) (min_axis0 rays)).
  split.
  - unfold prepare_boundary_points_ray_mean. subst seg_bg seg_fc.
    destruct (split_segm_background_foreground binary_fill_holes opening_disk seg
                sel_bg sel_fg) as [seg_bg seg_fc]. simpl in Hlen |- *.
    apply for_each_map. intros c Hc.
    rewrite (prepare_rays_entries _ _ _ (Hlen c Hc)). reflexivity.
  - intros c k b f Hc Hb Hf. cbv zeta. unfold fill_inf, mean_axis0, min_axis0. simpl.
    set (pb := map (prepared min_diam) (compute_ray_features_segm_2d seg_bg c Up)).
    set (pf := map (prepared min_diam) (compute_ray_features_segm_2d seg_fc c Down)).
    assert (Hpair : nth_error (combine pb pf) k
                    = Some (prepared min_diam b, prepared min_diam f)).
    { apply nth_error_combine; unfold pb, pf; rewrite nth_error_map;
        [rewrite Hb | rewrite Hf]; reflexivity. }
    assert (E : nth_error
                  (map (fun mm => if isinf (fst mm) then snd mm else fst mm)
                     (combine (map (fun ab => mean2 (fst ab) (snd ab)) (combine pb pf))
                              (map (fun ab => min2 (fst ab) (snd ab)) (combine pb pf))))
                  k
                = Some (if isinf (mean2 (prepared min_diam b) (prepared min_diam f))
                        then min2 (prepared min_diam b) (prepared min_diam f)
                        else mean2 (prepared min_diam b) (prepared min_diam f))).
    { rewrite nth_error_map.
      rewrite (nth_error_combine _ _ k
                 (mean2 (prepared min_diam b) (prepared min_diam f))
                 (min2 (prepared min_diam b) (prepared min_diam f)));
        [reflexivity | rewrite nth_error_map, Hpair; reflexivity
         | rewrite nth_error_map, Hpair; reflexivity]. }
    rewrite E. repeat split; intros H1 H2;
      rewrite ?(prepared_negative min_diam b), ?(prepared_negative min_diam f),
        ?(prepared_found min_diam b), ?(prepared_found min_diam f) by assumption;
      reflexivity.
Qed.

End Distances.

Lemma ray_edge_distances_witness :
  let seg_bg := fst (split_segm_background_foreground Flat.fill_holes Flat.opening
                       Flat.image 1 0) in
  let seg_fc := snd (split_segm_background_foreground Flat.fill_holes Flat.opening
                       Flat.image 1 0) in
  exists ray_close : center -> list ray,
    prepare_boundary_points_ray_edge Flat.fill_holes Flat.opening (list ray)
      Flat.rays (fun _ distances _ => distances) (fun points _ => points)
      Flat.image [(1, 1)%Z] 5 3 1 0
    = Return (map (fun c => ray_close c) [(1, 1)%Z]) /\
    forall c k b f,
      In c [(1, 1)%Z] ->
      nth_error (Flat.rays seg_bg c Up) k = Some b ->
      nth_error (Flat.rays seg_fc c Down) k = Some f ->
      (b < 0 -> f < 0 -> nth_error (ray_close c) k = Some Inf)%R /\
      (b < 0 -> 0 <= f -> nth_error (ray_close c) k = Some (Len (Rmax 3 f)))%R /\
      (0 <= b -> f < 0 -> nth_error (ray_close c) k = Some (Len (Rmax 3 b)))%R /\
      (0 <= b -> 0 <= f ->
       nth_error (ray_close c) k = Some (Len (Rmin (Rmax 3 b) (Rmax 3 f))))%R.
Proof.
  apply (ray_edge_distances Flat.fill_holes Flat.opening (list ray) Flat.rays
           (fun _ distances _ => distances) (fun points _ => points)
           Flat.image [(1, 1)%Z] 5%R 3%R 1%R 0%R).
  intros c Hc. reflexivity.
Defined.

Lemma ray_mean_distances_witness :
  let seg_bg := fst (split_segm_background_foreground Flat.fill_holes Flat.opening
                       Flat.image 1 0) in
  let seg_fc := snd (split_segm_background_foreground Flat.fill_holes Flat.opening
                       Flat.image 1 0) in
  exists ray_mean : center -> list ray,
    prepare_boundary_points_ray_mean Flat.fill_holes Flat.opening (list ray)
      Flat.rays (fun _ distances _ => distances) (fun points _ => points)
      Flat.image [(1, 1)%Z] 5 3 1 0
    = Return (map (fun c => ray_mean c) [(1, 1)%Z]) /\
    forall c k b f,
      In c [(1, 1)%Z] ->
      nth_error (Flat.rays seg_bg c Up) k = Some b ->
      nth_error (Flat.rays seg_fc c Down) k = Some f ->
      (b < 0 -> f < 0 -> nth_error (ray_mean c) k = Some Inf)%R /\
      (b < 0 -> 0 <= f -> nth_error (ray_mean c) k = Some (Len (Rmax 3 f)))%R /\
      (0 <= b -> f < 0 -> nth_error (ray_mean c) k = Some (Len (Rmax 3 b)))%R /\
      (0 <= b -> 0 <= f ->
       nth_error (ray_mean c) k = Some (Len ((Rmax 3 b + Rmax 3 f) / 2)))%R.
Proof.
  apply (ray_mean_distances Flat.fill_holes Flat.opening (list ray) Flat.rays
           (fun _ distances _ => distances) (fun points _ => points)
           Flat.image [(1, 1)%Z] 5%R 3%R 1%R 0%R).
  intros c Hc. reflexivity.
Defined.

End Rays.

(** ** Superpixels at the boundary: [filter_boundary_points] *)

Module SlicFilter.
Import Py.

(** A quotient of two floats, as numpy gives it: a number, [nan] for
    [0 / 0], a signed infinity for another division by zero. *)
Inductive float : Type :=
| Num (x : R)
| NaN
| PInf
| NInf.

Definition np_divide (x s : R) : float :=
  if Req_dec_T s 0 then
    if Req_dec_T x 0 then NaN else if Rltb 0 x then PInf else NInf
  else Num (x / s).

(** [q < 1] and [q > 0]; a comparison with [nan] is false. *)
Definition lt_one (q : float) : bool :=
  match q with
  | Num x => Rltb x 1
  | NInf => true
  | NaN | PInf => false
  end.

Definition gt_zero (q : float) : bool :=
  match q with
  | Num x => Rltb 0 x
  | PInf => true
  | NaN | NInf => false
  end.

(** [l] with [f] applied to the element at index [i]. *)
Fixpoint update {A : Type} (f : A -> A) (i : nat) (l : list A) : list A :=
  match l, i with
  | [], _ => []
  | x :: l', O => f x :: l'
  | x :: l', S i' => x :: update f i' l'
  end.

(** [segm[r, c]] *)
Definition getitem2 (segm : list (list Z)) (rc : Z * Z) : result Z :=
  row <- getitem segm (fst rc) ;;
  getitem row (snd rc).

(** [neighbour_labels[r, c] += 1] *)
Definition add_one (neighbour_labels : list (list R)) (r : nat) (c : Z)
  : result (list (list R)) :=
  match nth_error neighbour_labels r with
  | None => Raise IndexError
  | Some row =>
      let n := Z.of_nat (length row) in
      let j := if (c <? 0)%Z then (n + c)%Z else c in
      if ((0 <=? j) && (j <? n))%Z
      then Return (update (update (fun x => (x + 1)%R) (Z.to_nat j)) r neighbour_labels)
      else Raise IndexError
  end.

(** The loop over the edges. *)
Fixpoint count_edges (labels : list Z) (edges : list (nat * nat))
  (neighbour_labels : list (list R)) : result (list (list R)) :=
  match edges with
  | [] => Return neighbour_labels
  | (e1, e2) :: rest =>
      l2 <- getitem labels (Z.of_nat e2) ;;
      nl <- add_one neighbour_labels e1 l2 ;;
      l1 <- getitem labels (Z.of_nat e1) ;;
      nl <- add_one nl e2 l1 ;;
      count_edges labels rest nl
  end.

(** An elementwise operation on two one-dimensional arrays, with numpy's
    broadcasting of an array of length one. *)
Definition broadcast2 {A B C : Type} (f : A -> B -> C) (a : list A) (b : list B)
  : result (list C) :=
  if (length a =? length b)%nat
  then Return (map (fun ab => f (fst ab) (snd ab)) (combine a b))
  else
    match a, b with
    | [x], _ => Return (map (f x) b)
    | _, [y] => Return (map (fun x => f x y) a)
    | _, _ => Raise (ValueError "operands could not be broadcast together")
    end.

Section Filter.

(** [segmentation.superpixels], a module of the package that is not part
    of these files: the centres of the superpixels, here after
    [np.array(...).astype(int)], and the graph of the superpixels, its
    vertices and its edges between vertex indices. *)
Variable Slic : Type.
Variable superpixel_centers : Slic -> list (Z * Z).
Variable make_graph_segm_connect2d_conn4 : Slic -> list Z * list (nat * nat).

Definition filter_boundary_points (segm : list (list Z)) (slic : Slic)
  : result (list (Z * Z)) :=
  let slic_centers := superpixel_centers slic in
  labels <- Rays.for_each (getitem2 segm) slic_centers ;;
  let '(vertices, edges) := make_graph_segm_connect2d_conn4 slic in
  m <- Ellipse.np_max labels ;;
  let nb_labels := (m + 1)%Z in
  zeros <- (if (nb_labels <? 0)%Z
            then Raise (ValueError "negative dimensions are not allowed")
            else Return (repeat (repeat 0%R (Z.to_nat nb_labels)) (length vertices))) ;;
  counts <- count_edges labels edges zeros ;;
  let neighbour_labels :=
    map (fun row => map (fun x => np_divide x (Rsum row)) row) counts in
  column0 <- (if (nb_labels =? 0)%Z then Raise IndexError
              else Return (map (fun row => hd NaN row) neighbour_labels)) ;;
  filter_bg <- broadcast2 (fun l q => (l =? 0)%Z && lt_one q) labels column0 ;;
  filter_fc <- broadcast2 (fun l q => (l =? 1)%Z && gt_zero q) labels column0 ;;
  let selected := map (fun bf => fst bf || snd bf) (combine filter_bg filter_fc) in
  if (length selected =? length slic_centers)%nat
  then Return (compress selected slic_centers)
  else Raise IndexError.

End Filter.

(** *** What the loop over the edges counts *)

(** The superpixels that share an edge with [v], once for each edge. *)
Definition neighbours (edges : list (nat * nat)) (v : nat) : list nat :=
  flat_map (fun e => (if (fst e =? v)%nat then [snd e] else [])
                     ++ (if (snd e =? v)%nat then [fst e] else []))
           edges.

Definition adjacent (edges : list (nat * nat)) (v u : nat) : Prop :=
  In (v, u) edges \/ In (u, v) edges.

Definition is_zero (labels : list Z) (u : nat) : bool :=
  match nth_error labels u with
  | Some l => (l =? 0)%Z
  | None => false
  end.

Lemma in_neighbours (edges : list (nat * nat)) (v u : nat) :
  In u (neighbours edges v) <-> adjacent edges v u.
Proof.
  unfold neighbours, adjacent. rewrite in_flat_map. split.
  - intros ([e1 e2] & He & Hu). simpl in Hu. apply in_app_or in Hu.
    destruct Hu as [Hu|Hu].
    + destruct (e1 =? v)%nat eqn:E; [|destruct Hu].
      apply Nat.eqb_eq in E. destruct Hu as [Hu|[]]. subst. left. exact He.
    + destruct (e2 =? v)%nat eqn:E; [|destruct Hu].
      apply Nat.eqb_eq in E. destruct Hu as [Hu|[]]. subst. right. exact He.
  - intros [H|H].
    + exists (v, u). split; [exact H|]. simpl. rewrite Nat.eqb_refl.
      left. reflexivity.
    + exists (u, v). split; [exact H|]. simpl. rewrite Nat.eqb_refl.
      apply in_or_app. right. left. reflexivity.
Qed.

Lemma length_update {A : Type} (f : A -> A) (l : list A) :
  forall i, length (update f i l) = length l.
Proof.
  induction l as [|x l IH]; intros [|i]; simpl; try reflexivity.
  rewrite IH. reflexivity.
Qed.

Lemma nth_error_update {A : Type} (f : A -> A) (l : list A) :
  forall i j,
    nth_error (update f i l) j
    = if (j =? i)%nat then option_map f (nth_error l j) else nth_error l j.
Proof.
  induction l as [|x l IH]; intros i j.
  - destruct i; destruct j; simpl; try reflexivity;
      destruct (_ =? _)%nat; reflexivity.
  - destruct i as [|i]; destruct j as [|j]; simpl; try reflexivity.
    apply IH.
Qed.

Lemma in_update {A : Type} (f : A -> A) (l : list A) :
  forall i y, In y (update f i l) -> In y l \/ exists x, In x l /\ y = f x.
Proof.
  induction l as [|x l IH]; intros i y H; [destruct i; destruct H|].
  destruct i as [|i]; simpl in H.
  - destruct H as [H|H].
    + right. exists x. split; [left; reflexivity | symmetry; exact H].
    + left. right. exact H.
  - destruct H as [H|H]; [left; left; exact H|].
    destruct (IH i y H) as [H'|(x' & Hx' & Hy)].
    + left. right. exact H'.
    + right. exists x'. split; [right; exact Hx' | exact Hy].
Qed.

Lemma Rsum_update (l : list R) :
  forall i, (i < length l)%nat -> Rsum (update (fun x => (x + 1)%R) i l) = (Rsum l + 1)%R.
Proof.
  induction l as [|x l IH]; intros i H; simpl in H; [lia|].
  destruct i as [|i]; simpl.
  - unfold Rsum. simpl. ring.
  - unfold Rsum in *. simpl. rewrite IH by lia. ring.
Qed.

Lemma hd_update (l : list R) (i : nat) :
  (0 < length l)%nat ->
  hd 0%R (update (fun x => (x + 1)%R) i l)
  = (hd 0 l + if (i =? 0)%nat then 1 else 0)%R.
Proof.
  intro H. destruct l as [|x l]; simpl in H; [lia|].
  destruct i as [|i]; simpl; ring.
Qed.

(** One increment: the row [r] gains one in all, and one at its head when
    the column is [0]; the other rows are as before. *)
Lemma add_one_row (nb : nat) (nl : list (list R)) (r : nat) (c : Z) :
  (0 < nb)%nat ->
  (r < length nl)%nat ->
  (forall row, In row nl -> length row = nb) ->
  (0 <= c < Z.of_nat nb)%Z ->
  exists nl1,
    add_one nl r c = Return nl1 /\
    length nl1 = length nl /\
    (forall row, In row nl1 -> length row = nb) /\
    forall v row, nth_error nl v = Some row ->
      exists row1,
        nth_error nl1 v = Some row1 /\
        hd 0%R row1 = (hd 0 row + if ((v =? r)%nat && (c =? 0)%Z) then 1 else 0)%R /\
        Rsum row1 = (Rsum row + if (v =? r)%nat then 1 else 0)%R.
Proof.
  intros Hnb Hr Hrows Hc. unfold add_one.
  destruct (nth_error nl r) as [row_r|] eqn:Er;
    [|apply nth_error_None in Er; lia].
  assert (Hlen : length row_r = nb) by (apply Hrows; eapply nth_error_In; exact Er).
  rewrite Hlen.
  assert (E1 : (c <? 0)%Z = false) by (apply Z.ltb_ge; lia). rewrite E1.
  assert (E2 : ((0 <=? c) && (c <? Z.of_nat nb))%Z = true).
  { apply andb_true_intro. split; [apply Z.leb_le | apply Z.ltb_lt]; lia. }
  rewrite E2. eexists. split; [reflexivity|]. split; [apply length_update|]. split.
  - intros row Hin. apply in_update in Hin.
    destruct Hin as [Hin|(row0 & Hin & Hrow)]; [apply Hrows; exact Hin|].
    subst row. rewrite length_update. apply Hrows. exact Hin.
  - intros v row Hv. rewrite nth_error_update, Hv.
    destruct (v =? r)%nat eqn:Evr; simpl.
    + apply Nat.eqb_eq in Evr. subst v.
      assert (row = row_r) by congruence. subst row.
      eexists. split; [reflexivity|]. split.
      * rewrite hd_update by lia.
        replace (Z.to_nat c =? 0)%nat with (c =? 0)%Z; [reflexivity|].
        destruct (c =? 0)%Z eqn:Ec.
        -- apply Z.eqb_eq in Ec. subst c. reflexivity.
        -- apply Z.eqb_neq in Ec. symmetry. apply Nat.eqb_neq. lia.
      * apply Rsum_update. lia.
    + exists row. split; [reflexivity|]. split; ring.
Qed.

Lemma is_zero_label (labels : list Z) (u : nat) (l : Z) :
  getitem labels (Z.of_nat u) = Return l -> is_zero labels u = (l =? 0)%Z.
Proof.
  unfold getitem, is_zero.
  assert (E : (Z.of_nat u <? 0)%Z = false) by (apply Z.ltb_ge; lia). rewrite E.
  destruct ((0 <=? Z.of_nat u) && (Z.of_nat u <? Z.of_nat (length labels)))%Z;
    [|discriminate].
  rewrite Nat2Z.id. destruct (nth_error labels u); [|discriminate].
  intro H. injection H as H. subst. reflexivity.
Qed.

Lemma getitem_label (labels : list Z) (u : nat) :
  (u < length labels)%nat ->
  exists l, getitem labels (Z.of_nat u) = Return l /\ nth_error labels u = Some l.
Proof.
  intro H. destruct (nth_error labels u) as [l|] eqn:E;
    [|apply nth_error_None in E; lia].
  exists l. split; [|reflexivity].
  rewrite (CriterionFacts.getitem_nth labels 0%Z) by lia.
  rewrite Nat2Z.id. rewrite (nth_error_nth _ _ 0%Z E). reflexivity.
Qed.

(** After the loop, each row has gained the number of its neighbours in
    all, and at its head the number of those of label [0]. *)
Lemma count_edges_spec (labels : list Z) (nb : nat) :
  (0 < nb)%nat ->
  (forall l, In l labels -> (0 <= l < Z.of_nat nb)%Z) ->
  forall edges nl,
    length nl = length labels ->
    (forall e, In e edges -> (fst e < length nl)%nat /\ (snd e < length nl)%nat) ->
    (forall row, In row nl -> length row = nb) ->
    exists nl',
      count_edges labels edges nl = Return nl' /\
      length nl' = length nl /\
      (forall row, In row nl' -> length row = nb) /\
      forall v row, nth_error nl v = Some row ->
        exists row',
          nth_error nl' v = Some row' /\
          hd 0%R row'
          = (hd 0 row + INR (length (filter (is_zero labels) (neighbours edges v))))%R /\
          Rsum row' = (Rsum row + INR (length (neighbours edges v)))%R.
Proof.
  intros Hnb Hlab. induction edges as [|[e1 e2] rest IH]; intros nl Hlen Hedges Hrows.
  - exists nl. split; [reflexivity|]. split; [reflexivity|]. split; [exact Hrows|].
    intros v row Hv. exists row. split; [exact Hv|]. simpl. split; ring.
  - destruct (Hedges (e1, e2) (or_introl eq_refl)) as [He1 He2]. simpl in He1, He2.
    destruct (getitem_label labels e2 ltac:(lia)) as (l2 & Hg2 & Hn2).
    destruct (getitem_label labels e1 ltac:(lia)) as (l1 & Hg1 & Hn1).
    destruct (add_one_row nb nl e1 l2 Hnb He1 Hrows) as (nl1 & Ha1 & Hl1 & Hr1 & Hs1).
    { apply Hlab. eapply nth_error_In. exact Hn2. }
    destruct (add_one_row nb nl1 e2 l1 Hnb ltac:(lia) Hr1) as (nl2 & Ha2 & Hl2 & Hr2 & Hs2).
    { apply Hlab. eapply nth_error_In. exact Hn1. }
    destruct (IH nl2) as (nl' & Hc & Hl' & Hr' & Hs').
    { lia. }
    { intros e He. rewrite Hl2, Hl1. apply Hedges. right. exact He. }
    { exact Hr2. }
    exists nl'. split.
    { simpl. rewrite Hg2. simpl. rewrite Ha1. simpl. rewrite Hg1. simpl.
      rewrite Ha2. simpl. exact Hc. }
    split; [lia|]. split; [exact Hr'|].
    intros v row Hv.
    destruct (Hs1 v row Hv) as (row1 & Hv1 & Hh1 & Hsum1).
    destruct (Hs2 v row1 Hv1) as (row2 & Hv2 & Hh2 & Hsum2).
    destruct (Hs' v row2 Hv2) as (row' & Hv' & Hh' & Hsum').
    exists row'. split; [exact Hv'|].
    rewrite Hh', Hh2, Hh1, Hsum', Hsum2, Hsum1.
    change (neighbours ((e1, e2) :: rest) v)
      with (((if (e1 =? v)%nat then [e2] else [])
             ++ (if (e2 =? v)%nat then [e1] else []))
            ++ neighbours rest v).
    rewrite !filter_app, !length_app, !plus_INR.
    rewrite (Nat.eqb_sym v e1), (Nat.eqb_sym v e2).
    rewrite <- (is_zero_label labels e2 l2 Hg2), <- (is_zero_label labels e1 l1 Hg1).
    destruct (e1 =? v)%nat; destruct (e2 =? v)%nat; simpl;
      destruct (is_zero labels e1); destruct (is_zero labels e2); simpl;
      split; ring.
Qed.

Lemma for_each_length {A B : Type} (body : A -> result B) (l : list A) :
  forall ys, Rays.for_each body l = Return ys -> length ys = length l.
Proof.
  induction l as [|x l IH]; intros ys H; simpl in H.
  - injection H as H. subst ys. reflexivity.
  - destruct (body x) as [y|e]; [|discriminate]. simpl in H.
    destruct (Rays.for_each body l) as [ys'|e]; [|discriminate]. simpl in H.
    injection H as H. subst ys. simpl. rewrite (IH ys' eq_refl). reflexivity.
Qed.

Lemma Rsum_zeros (n : nat) : Rsum (repeat 0%R n) = 0%R.
Proof.
  induction n as [|n IH]; [reflexivity|].
  simpl. unfold Rsum in *. simpl. rewrite IH. ring.
Qed.

Lemma lt_one_counts (a b : nat) :
  lt_one (np_divide (INR a) (INR b)) = true <-> (a < b)%nat.
Proof.
  unfold np_divide. destruct (Req_dec_T (INR b) 0) as [Hb|Hb].
  - assert (b = 0%nat) by (apply INR_eq; exact Hb). subst b.
    destruct (Req_dec_T (INR a) 0) as [Ha|Ha]; simpl.
    + split; [discriminate | lia].
    + assert (Hpos : (0 < INR a)%R).
      { destruct a; [contradiction Ha; reflexivity | apply lt_0_INR; lia]. }
      rewrite (proj2 (Rltb_true 0 (INR a)) Hpos). simpl. split; [discriminate | lia].
  - simpl. assert (Hpos : (0 < INR b)%R).
    { destruct b; [contradiction Hb; reflexivity | apply lt_0_INR; lia]. }
    rewrite Rltb_true. split; intro H.
    + apply INR_lt. apply (Rmult_lt_compat_r (INR b)) in H; [|exact Hpos].
      unfold Rdiv in H. rewrite Rmult_assoc, Rinv_l in H by lra. lra.
    + apply lt_INR in H. apply (Rmult_lt_reg_r (INR b)); [exact Hpos|].
      unfold Rdiv. rewrite Rmult_assoc, Rinv_l by lra. lra.
Qed.

Lemma gt_zero_counts (a b : nat) :
  gt_zero (np_divide (INR a) (INR b)) = true <-> (0 < a)%nat.
Proof.
  unfold np_divide. destruct (Req_dec_T (INR b) 0) as [Hb|Hb].
  - destruct (Req_dec_T (INR a) 0) as [Ha|Ha]; simpl.
    + assert (a = 0%nat) by (apply INR_eq; exact Ha). subst a.
      split; [discriminate | lia].
    + assert (Hpos : (0 < a)%nat).
      { destruct a; [contradiction Ha; reflexivity | lia]. }
      rewrite (proj2 (Rltb_true 0 (INR a))) by (apply lt_0_INR; exact Hpos).
      simpl. split; auto.
  - simpl. assert (Hpos : (0 < INR b)%R).
    { destruct b; [contradiction Hb; reflexivity | apply lt_0_INR; lia]. }
    rewrite Rltb_true. split; intro H.
    + destruct a; [|lia]. simpl in H. unfold Rdiv in H. rewrite Rmult_0_l in H. lra.
    + apply lt_0_INR in H. apply Rdiv_lt_0_compat; assumption.
Qed.

Lemma filter_some_false {A : Type} (p : A -> bool) (l : list A) :
  (length (filter p l) < length l)%nat <-> exists x, In x l /\ p x = false.
Proof.
  induction l as [|x l IH]; simpl.
  - split; [lia | intros (x & [] & _)].
  - pose proof (filter_length_le p l) as Hle.
    destruct (p x) eqn:E; simpl.
    + rewrite <- Nat.succ_lt_mono, IH. split.
      * intros (y & Hy & Hp). exists y. auto.
      * intros (y & [Hy|Hy] & Hp); [subst y; congruence | exists y; auto].
    + split; [|lia]. intros _. exists x. auto.
Qed.

Lemma filter_some_true {A : Type} (p : A -> bool) (l : list A) :
  (0 < length (filter p l))%nat <-> exists x, In x l /\ p x = true.
Proof.
  split.
  - intro H. destruct (filter p l) as [|x rest] eqn:E; [simpl in H; lia|].
    exists x. apply (filter_In p x l). rewrite E. left. reflexivity.
  - intros (x & Hx & Hp).
    assert (Hin : In x (filter p l)) by (apply filter_In; auto).
    destruct (filter p l); [destruct Hin | simpl; lia].
Qed.

Section Selection.

Variable Slic : Type.
Variable superpixel_centers : Slic -> list (Z * Z).
Variable make_graph_segm_connect2d_conn4 : Slic -> list Z * list (nat * nat).

(** Which centres [filter_boundary_points] returns, when the labels at
    the centres are not negative and the graph has one vertex for each
    centre: the centres of label [0] with a neighbour of another label,
    and the centres of label [1] with a neighbour of label [0], in the
    order of the centres. A superpixel without any neighbour, or of a
    label above [1], is never returned. *)
Theorem filter_boundary_points_selects (segm : list (list Z)) (slic : Slic)
  (labels : list Z) (vertices : list Z) (edges : list (nat * nat)) :
  let slic_centers := superpixel_centers slic in
  Rays.for_each (getitem2 segm) slic_centers = Return labels ->
  make_graph_segm_connect2d_conn4 slic = (vertices, edges) ->
  length vertices = length slic_centers ->
  slic_centers <> [] ->
  (forall l, In l labels -> (0 <= l)%Z) ->
  (forall e, In e edges ->
     (fst e < length slic_centers)%nat /\ (snd e < length slic_centers)%nat) ->
  exists selected,
    filter_boundary_points Slic superpixel_centers make_graph_segm_connect2d_conn4
      segm slic = Return (compress selected slic_centers) /\
    length selected = length slic_centers /\
    forall v,
      nth_error selected v = Some true <->
      (nth_error labels v = Some 0%Z /\
       exists u l, adjacent edges v u /\ nth_error labels u = Some l /\ l <> 0%Z) \/
      (nth_error labels v = Some 1%Z /\
       exists u, adjacent edges v u /\ nth_error labels u = Some 0%Z).
Proof.
  intros slic_centers Hlabels Hgraph Hvert Hne Hpos Hedges.
  pose proof (for_each_length _ _ _ Hlabels) as Hlen.
  unfold filter_boundary_points. fold slic_centers. rewrite Hlabels, Hgraph.
  cbv beta iota delta [bind].
  destruct labels as [|l0 rest] eqn:El.
  { destruct slic_centers; [contradiction | discriminate]. }
  rewrite <- El in *. 
  assert (Hmax : Ellipse.np_max labels = Return (fold_left Z.max rest l0))
    by (rewrite El; reflexivity).
  rewrite Hmax. set (m := fold_left Z.max rest l0).
  assert (Hle : forall l, In l labels -> (l <= m)%Z).
  { intros l Hl. apply CriterionFacts.fold_max_ge. rewrite El in Hl.
    destruct Hl as [Hl|Hl]; [left; symmetry; exact Hl | right; exact Hl]. }
  assert (Hm : (0 <= m)%Z).
  { apply Z.le_trans with l0; [apply Hpos | apply Hle]; rewrite El; left; reflexivity. }
  assert (E1 : (m + 1 <? 0)%Z = false) by (apply Z.ltb_ge; lia).
  assert (E2 : (m + 1 =? 0)%Z = false) by (apply Z.eqb_neq; lia).
  rewrite E1, E2.
  set (nb := Z.to_nat (m + 1)).
  destruct (count_edges_spec labels nb ltac:(lia)) with
    (edges := edges) (nl := repeat (repeat 0%R nb) (length vertices))
    as (counts & Hcounts & Hclen & Hcrows & Hcspec).
  { intros l Hl. pose proof (Hpos l Hl). pose proof (Hle l Hl). lia. }
  { rewrite repeat_length. lia. }
  { rewrite repeat_length, Hvert. exact Hedges. }
  { intros row Hrow. apply repeat_spec in Hrow. subst row. apply repeat_length. }
  rewrite Hcounts. rewrite repeat_length in Hclen.
  set (column0 := map (fun row => hd NaN row)
                      (map (fun row => map (fun x => np_divide x (Rsum row)) row)
                           counts)).
  assert (Hcol : length column0 = length labels).
  { unfold column0. rewrite !length_map. lia. }
  unfold broadcast2. rewrite Hcol, Nat.eqb_refl.
  set (filter_bg := map (fun ab : Z * float => (fst ab =? 0)%Z && lt_one (snd ab))
                        (combine labels column0)).
  set (filter_fc := map (fun ab : Z * float => (fst ab =? 1)%Z && gt_zero (snd ab))
                        (combine labels column0)).
  set (selected := map (fun bf : bool * bool => fst bf || snd bf)
                       (combine filter_bg filter_fc)).
  assert (Hsel : length selected = length slic_centers).
  { unfold selected, filter_bg, filter_fc.
    rewrite !length_map, !length_combine, !length_map, !length_combine. lia. }
  rewrite Hsel, Nat.eqb_refl.
  exists selected. split; [reflexivity|]. split; [exact Hsel|].
  intro v. destruct (nth_error labels v) as [l|] eqn:Ev.
  2:{ apply nth_error_None in Ev.
      assert (Hnone : nth_error selected v = None) by (apply nth_error_None; lia).
      rewrite Hnone. split; [discriminate|].
      intros [[H _]|[H _]]; discriminate. }
  assert (Hv : (v < length labels)%nat) by (apply nth_error_Some; congruence).
  assert (Hzero : nth_error (repeat (repeat 0%R nb) (length vertices)) v
                  = Some (repeat 0%R nb)).
  { rewrite (nth_error_nth' _ (repeat 0%R nb)) by (rewrite repeat_length; lia).
    rewrite nth_repeat. reflexivity. }
  destruct (Hcspec v _ Hzero) as (row & Hrow & Hhd & Hsum).
  rewrite Rsum_zeros, Rplus_0_l in Hsum.
  assert (Hhd0 : hd 0%R (repeat 0%R nb) = 0%R) by (destruct nb; reflexivity).
  rewrite Hhd0, Rplus_0_l in Hhd.
  set (a := length (filter (is_zero labels) (neighbours edges v))) in *.
  set (b := length (neighbours edges v)) in *.
  assert (Hq : nth_error column0 v = Some (np_divide (INR a) (INR b))).
  { unfold column0. rewrite !nth_error_map, Hrow.
    assert (Hrlen : length row = nb) by (apply Hcrows; eapply nth_error_In; exact Hrow).
    destruct row as [|x row']; [simpl in Hrlen; lia|].
    cbn [option_map map hd]. rewrite Hsum. cbn [hd] in Hhd. rewrite Hhd.
    reflexivity. }
  assert (Hpair : nth_error (combine labels column0) v
                  = Some (l, np_divide (INR a) (INR b)))
    by (apply Rays.nth_error_combine; assumption).
  assert (Hs : nth_error selected v
               = Some (((l =? 0)%Z && lt_one (np_divide (INR a) (INR b)))
                       || ((l =? 1)%Z && gt_zero (np_divide (INR a) (INR b))))).
  { unfold selected. rewrite nth_error_map.
    rewrite (Rays.nth_error_combine filter_bg filter_fc v
               ((l =? 0)%Z && lt_one (np_divide (INR a) (INR b)))
               ((l =? 1)%Z && gt_zero (np_divide (INR a) (INR b))));
      [reflexivity | unfold filter_bg | unfold filter_fc];
      rewrite nth_error_map, Hpair; reflexivity. }
  rewrite Hs.
  assert (Hbg : lt_one (np_divide (INR a) (INR b)) = true <->
                exists u l', adjacent edges v u /\ nth_error labels u = Some l' /\
                             l' <> 0%Z).
  { rewrite lt_one_counts. unfold a, b. rewrite filter_some_false. split.
    - intros (u & Hu & Hz). apply in_neighbours in Hu.
      assert (Hul : (u < length labels)%nat).
      { destruct Hu as [Hu|Hu]; apply Hedges in Hu; simpl in Hu; lia. }
      destruct (nth_error labels u) as [l'|] eqn:Eu;
        [|apply nth_error_None in Eu; lia].
      exists u, l'. split; [exact Hu|]. split; [exact Eu|].
      unfold is_zero in Hz. rewrite Eu in Hz. apply Z.eqb_neq. exact Hz.
    - intros (u & l' & Hu & Hl' & Hnz). exists u. split; [apply in_neighbours; exact Hu|].
      unfold is_zero. rewrite Hl'. apply Z.eqb_neq. exact Hnz. }
  assert (Hfc : gt_zero (np_divide (INR a) (INR b)) = true <->
                exists u, adjacent edges v u /\ nth_error labels u = Some 0%Z).
  { rewrite gt_zero_counts. unfold a. rewrite filter_some_true. split.
    - intros (u & Hu & Hz). apply in_neighbours in Hu. exists u. split; [exact Hu|].
      unfold is_zero in Hz. destruct (nth_error labels u) as [l'|]; [|discriminate].
      apply Z.eqb_eq in Hz. subst l'. reflexivity.
    - intros (u & Hu & Hl'). exists u. split; [apply in_neighbours; exact Hu|].
      unfold is_zero. rewrite Hl'. reflexivity. }
  split.
  - intro H. injection H as H. apply orb_prop in H.
    destruct H as [H|H]; apply andb_prop in H; destruct H as [Hl Hq'].
    + left. apply Z.eqb_eq in Hl. subst l. split; [reflexivity|].
      apply Hbg. exact Hq'.
    + right. apply Z.eqb_eq in Hl. subst l. split; [reflexivity|].
      apply Hfc. exact Hq'.
  - intros [[Hl Hex]|[Hl Hex]]; injection Hl as Hl; subst l; simpl.
    + rewrite (proj2 Hbg Hex). reflexivity.
    + rewrite (proj2 Hfc Hex). reflexivity.
Qed.

End Selection.

Lemma filter_boundary_points_selects_witness :
  exists selected,
    filter_boundary_points unit (fun _ => [(0, 0); (0, 1); (0, 2)]%Z)
      (fun _ => ([0; 1; 2]%Z, [(0, 1); (1, 2)]%nat)) [[0; 0; 1]%Z] tt
    = Return (compress selected [(0, 0); (0, 1); (0, 2)]%Z) /\
    length selected = length [(0, 0); (0, 1); (0, 2)]%Z /\
    forall v,
      nth_error selected v = Some true <->
      (nth_error [0; 0; 1]%Z v = Some 0%Z /\
       exists u l, adjacent [(0, 1); (1, 2)]%nat v u /\
                   nth_error [0; 0; 1]%Z u = Some l /\ l <> 0%Z) \/
      (nth_error [0; 0; 1]%Z v = Some 1%Z /\
       exists u, adjacent [(0, 1); (1, 2)]%nat v u /\
                 nth_error [0; 0; 1]%Z u = Some 0%Z).
Proof.
  apply (filter_boundary_points_selects unit (fun _ => [(0, 0); (0, 1); (0, 2)]%Z)
           (fun _ => ([0; 1; 2]%Z, [(0, 1); (1, 2)]%nat)) [[0; 0; 1]%Z] tt
           [0; 0; 1]%Z [0; 1; 2]%Z [(0, 1); (1, 2)]%nat).
  - reflexivity.
  - reflexivity.
  - reflexivity.
  - discriminate.
  - intros l [H|[H|[H|[]]]]; subst l; lia.
  - intros e [H|[H|[]]]; subst e; simpl; lia.
Defined.

End SlicFilter.

(** ** Points of the superpixels: [prepare_boundary_points_close] *)

Module Close.
Import Py Boundary.

Section Strategy.

(** [segmentation.superpixels], a module of the package that is not part
    of these files: the superpixels of an image, their centres and their
    graph. *)
Variable Slic : Type.
Variable segment_slic_img2d : list (list Float64.float) -> R -> R -> result Slic.
Variable superpixel_centers : Slic -> list (Z * Z).
Variable make_graph_segm_connect2d_conn4 : Slic -> list Z * list (nat * nat).

(** [seg / float(m)] *)
Definition normalised (seg : segmentation) (m : Z) : list (list Float64.float) :=
  map (map (fun v => Float64.fdiv Float64.round
                       (Float64.Num (Float64.round (IZR v)))
                       (Float64.Num (Float64.round (IZR m)))))
      seg.

Definition prepare_boundary_points_close (seg : segmentation) (centers : list center)
  (sp_size rltv_compact : R) : result (list (list point)) :=
  m <- Overlap.np_max seg ;;
  slic <- segment_slic_img2d (normalised seg m) sp_size rltv_compact ;;
  points_all <- SlicFilter.filter_boundary_points Slic superpixel_centers
                  make_graph_segm_connect2d_conn4 seg slic ;;
  group_by_center (map point_of_center points_all) centers.

(** When the segmentation has a maximum, the superpixels are found and
    [filter_boundary_points] returns at least one of their centres, the
    groups of [prepare_boundary_points_close], with a centre at least, are
    those of the nearest centres: every point that [filter_boundary_points]
    returned is in the group of its nearest centre, and a group holds
    nothing else. *)
Theorem close_groups (seg : segmentation) (c : center) (cs : list center)
  (sp_size rltv_compact : R) (m : Z) (slic : Slic) (points_all : list (Z * Z)) :
  Overlap.np_max seg = Return m ->
  segment_slic_img2d (normalised seg m) sp_size rltv_compact = Return slic ->
  SlicFilter.filter_boundary_points Slic superpixel_centers
    make_graph_segm_connect2d_conn4 seg slic = Return points_all ->
  points_all <> [] ->
  exists groups,
    prepare_boundary_points_close seg (c :: cs) sp_size rltv_compact = Return groups /\
    (forall p, In p (map point_of_center points_all) ->
       exists group, nth_error groups (nearest c cs p) = Some group /\ In p group) /\
    (forall i group p, nth_error groups i = Some group -> In p group ->
       In p (map point_of_center points_all) /\ nearest c cs p = i).
Proof.
  intros Hm Hslic Hpts Hne. unfold prepare_boundary_points_close.
  rewrite Hm. cbn [bind]. rewrite Hslic. cbn [bind]. rewrite Hpts. cbn [bind].
  destruct points_all as [|p0 points]; [contradiction|].
  apply group_by_center_groups.
Qed.

(** What a call of [prepare_boundary_points_close] does. An exception of
    [seg.max()], which an empty segmentation raises, of the superpixels or
    of [filter_boundary_points] is the exception of the call. When the
    three return, the call returns exactly when [filter_boundary_points]
    gave at least one point and there is at least one centre; otherwise it
    raises [ValueError]. *)
Theorem close_outcome (seg : segmentation) (centers : list center)
  (sp_size rltv_compact : R) :
  (concat seg = [] ->
   exists msg,
     prepare_boundary_points_close seg centers sp_size rltv_compact
     = Raise (ValueError msg)) /\
  match Overlap.np_max seg with
  | Raise e => prepare_boundary_points_close seg centers sp_size rltv_compact = Raise e
  | Return m =>
      match segment_slic_img2d (normalised seg m) sp_size rltv_compact with
      | Raise e =>
          prepare_boundary_points_close seg centers sp_size rltv_compact = Raise e
      | Return slic =>
          match SlicFilter.filter_boundary_points Slic superpixel_centers
                  make_graph_segm_connect2d_conn4 seg slic with
          | Raise e =>
              prepare_boundary_points_close seg centers sp_size rltv_compact = Raise e
          | Return points_all =>
              ((exists groups,
                  prepare_boundary_points_close seg centers sp_size rltv_compact
                  = Return groups)
               <-> points_all <> [] /\ centers <> []) /\
              ((exists msg,
                  prepare_boundary_points_close seg centers sp_size rltv_compact
                  = Raise (ValueError msg))
               <-> points_all = [] \/ centers = [])
          end
      end
  end.
Proof.
  unfold prepare_boundary_points_close. split.
  { intro Hempty. unfold Overlap.np_max. rewrite Hempty. eexists. reflexivity. }
  destruct (Overlap.np_max seg) as [m|e]; [|reflexivity]. cbn [bind].
  destruct (segment_slic_img2d (normalised seg m) sp_size rltv_compact)
    as [slic|e]; [|reflexivity]. cbn [bind].
  destruct (SlicFilter.filter_boundary_points Slic superpixel_centers
              make_graph_segm_connect2d_conn4 seg slic)
    as [points_all|e]; [|reflexivity]. cbn [bind].
  destruct points_all as [|p0 points].
  - split; split.
    + intros (groups & H). discriminate.
    + intros [H _]. contradiction.
    + intros _. left. reflexivity.
    + intros _. eexists. reflexivity.
  - destruct centers as [|c cs].
    + split; split.
      * intros (groups & H). discriminate.
      * intros [_ H]. contradiction.
      * intros _. right. reflexivity.
      * intros _. eexists. reflexivity.
    + change (map point_of_center (p0 :: points))
        with (point_of_center p0 :: map point_of_center points).
      rewrite BoundaryFacts.group_by_center_length. split; split.
      * intros _. split; discriminate.
      * intros _. eexists. reflexivity.
      * intros (msg & H). discriminate.
      * intros [H|H]; discriminate.
Qed.

End Strategy.

(** Two superpixels side by side, one of the background and one of the
    object: both centres are boundary points. *)
Example two_superpixels :
  SlicFilter.filter_boundary_points unit (fun _ => [(0, 0); (0, 1)]%Z)
    (fun _ => ([0; 1]%Z, [(0, 1)]%nat)) [[0; 1]%Z] tt
  = Return [(0, 0); (0, 1)]%Z.
Proof.
  unfold SlicFilter.filter_boundary_points. simpl.
  unfold SlicFilter.np_divide. simpl.
  destruct (Req_dec_T (0 + (0 + 1 + 0)) 0) as [E|E]; [exfalso; lra|].
  destruct (Req_dec_T (0 + 1 + (0 + 0)) 0) as [E'|E']; [exfalso; lra|].
  cbn [SlicFilter.lt_one SlicFilter.gt_zero].
  rewrite (proj2 (Rltb_true (0 / (0 + (0 + 1 + 0))) 1))
    by (unfold Rdiv; rewrite Rmult_0_l; lra).
  rewrite (proj2 (Rltb_true 0 ((0 + 1) / (0 + 1 + (0 + 0)))))
    by (apply Rdiv_lt_0_compat; lra).
  reflexivity.
Qed.

Lemma close_groups_witness :
  exists groups,
    prepare_boundary_points_close unit (fun _ _ _ => Return tt)
      (fun _ => [(0, 0); (0, 1)]%Z) (fun _ => ([0; 1]%Z, [(0, 1)]%nat))
      [[0; 1]%Z] [(0, 0)%Z] 25 (3 / 10) = Return groups /\
    (forall p, In p (map point_of_center [(0, 0); (0, 1)]%Z) ->
       exists group, nth_error groups (nearest (0, 0)%Z [] p) = Some group /\ In p group) /\
    (forall i group p, nth_error groups i = Some group -> In p group ->
       In p (map point_of_center [(0, 0); (0, 1)]%Z) /\ nearest (0, 0)%Z [] p = i).
Proof.
  apply (close_groups unit (fun _ _ _ => Return tt)
           (fun _ => [(0, 0); (0, 1)]%Z) (fun _ => ([0; 1]%Z, [(0, 1)]%nat))
           [[0; 1]%Z] (0, 0)%Z [] 25%R (3 / 10)%R 1%Z tt [(0, 0); (0, 1)]%Z).
  - reflexivity.
  - reflexivity.
  - exact two_superpixels.
  - discriminate.
Defined.

End Close.

(** ** [segment_image]: the other ways through *)

Module PipelineFacts.
Import Py Pipeline.

Lemma getitem_in {A : Type} (a : list A) (i : Z) (x : A) :
  getitem a i = Return x -> In x a.
Proof.
  unfold getitem.
  destruct ((0 <=? (if (i <? 0)%Z then (Z.of_nat (length a) + i)%Z else i))
            && ((if (i <? 0)%Z then (Z.of_nat (length a) + i)%Z else i)
                <? Z.of_nat (length a)))%Z; [|discriminate].
  destruct (nth_error a _) eqn:E; [|discriminate].
  intro H. injection H as H. subst. eapply nth_error_In. exact E.
Qed.

Lemma take_in {A : Type} (a : list A) (idx : list Z) :
  forall xs, take a idx = Return xs ->
  length xs = length idx /\ forall x, In x xs -> In x a.
Proof.
  induction idx as [|i idx IH]; intros xs H; simpl in H.
  - injection H as H. subst xs. split; [reflexivity | intros x []].
  - destruct (getitem a i) as [x0|e] eqn:E; [|discriminate]. simpl in H.
    destruct (take a idx) as [xs'|e]; [|discriminate]. simpl in H.
    injection H as H. subst xs. destruct (IH xs' eq_refl) as [Hlen Hin].
    split; [simpl; rewrite Hlen; reflexivity|].
    intros x [Hx|Hx]; [subst x; eapply getitem_in; exact E | apply Hin; exact Hx].
Qed.

(** Two arrays of one shape: as many rows, and row by row as many entries. *)
Definition same_shape {A B : Type} (a : list (list A)) (b : list (list B)) : Prop :=
  Forall2 (fun row row' => length row = length row') a b.

(** Indexing by a two-dimensional index gives an array of the shape of the
    index, made of elements of the indexed array. *)
Lemma take2_in {A : Type} (a : list A) (idx : list (list Z)) :
  forall xss, take2 a idx = Return xss ->
  same_shape xss idx /\ forall row x, In row xss -> In x row -> In x a.
Proof.
  induction idx as [|r idx IH]; intros xss H; simpl in H.
  - injection H as H. subst xss. split; [constructor | intros row x []].
  - destruct (take a r) as [xs|e] eqn:E; [|discriminate]. simpl in H.
    destruct (take2 a idx) as [xss'|e]; [|discriminate]. simpl in H.
    injection H as H. subst xss. destruct (IH xss' eq_refl) as [Hsh Hin].
    destruct (take_in a r xs E) as [Hlen Hxs].
    split; [constructor; assumption|].
    intros row x [Hrow|Hrow] Hx; [subst row; apply Hxs; exact Hx|].
    eapply Hin; eassumption.
Qed.

Lemma same_shape_zeros (segm : array2) (idx : list (list Z)) :
  same_shape segm idx -> same_shape (zeros_like segm) idx.
Proof.
  unfold zeros_like. induction 1; simpl; constructor; [|assumption].
  rewrite length_map. assumption.
Qed.

Lemma same_shape_trans {A B C : Type} (a : list (list A)) (b : list (list B))
  (c : list (list C)) :
  same_shape a b -> same_shape b c -> same_shape a c.
Proof.
  unfold same_shape. intro Hab. revert c.
  induction Hab as [|x y a b Hxy Hab IH]; intros c Hbc; inversion Hbc; subst;
    constructor; [congruence | apply IH; assumption].
Qed.

(** The unary images leave records only, and always return. *)
Lemma save_unary_trace (path_visu idx_name : string)
  (segm_soft : list (list (list R))) :
  exists events, forall t,
    save_unary path_visu idx_name segm_soft t = (Return tt, t ++ events).
Proof.
  unfold save_unary.
  generalize (seq 0 match segm_soft with
                    | (px :: _) :: _ => length px
                    | _ => 0%nat
                    end).
  intro lbs. induction lbs as [|lb lbs IH]; simpl.
  - exists []. intro t. unfold ret. rewrite app_nil_r. reflexivity.
  - destruct IH as (events & IH).
    exists (ImSaveUnary path_visu idx_name lb :: events). intro t.
    unfold io_bind, emit. rewrite IH, <- app_assoc. reflexivity.
Qed.

Section Paths.

Variables (Img Features FeatureSet Transitions Item : Type).
Variable parse_imgs_idx_path : Item -> Z * string.
Variable get_idx_name : Z -> string -> string.
Variable load_image : string -> string -> Img.
Variable segment_slic_img2d : Img -> R -> R -> list (list Z).
Variable convert_img_color_space : Img -> string -> Img.
Variable compute_selected_features_img2d :
  Img -> list (list Z) -> FeatureSet -> Features * list string.
Variable compute_pairwise_cost_from_transitions : Transitions -> list (list R).
Variable segment_graph_cut_general :
  list (list Z) -> proba -> Img -> Features -> regul -> string -> labels.
Variable isdir : string -> bool.

Local Abbreviation run :=
  (segment_image Img Features FeatureSet Transitions Item parse_imgs_idx_path
     get_idx_name load_image segment_slic_img2d convert_img_color_space
     compute_selected_features_img2d compute_pairwise_cost_from_transitions
     segment_graph_cut_general isdir) (only parsing).
Local Abbreviation name_of := (image_name Item parse_imgs_idx_path get_idx_name)
  (only parsing).
Local Abbreviation slic_of :=
  (superpixels Img FeatureSet Transitions Item parse_imgs_idx_path load_image
     segment_slic_img2d) (only parsing).
Local Abbreviation feats_of :=
  (feature_matrix Img Features FeatureSet Transitions Item parse_imgs_idx_path
     load_image segment_slic_img2d convert_img_color_space
     compute_selected_features_img2d) (only parsing).

(** With probabilities but [gc_regul] not above zero, the probabilities
    are saved, no warning is logged, the graph cut is not run, and the
    refined segmentation returned is all zeros. *)
Theorem segment_image_regul_off (item : Item) (params : params FeatureSet Transitions)
  (classif : classifier Features) (path_out : string) (path_visu : option string)
  (show_debug_imgs : bool) (probs : proba) (segm_soft : list (list (list R)))
  (segm : array2) (t : list event) :
  predict_proba Features classif (feats_of item params) = Return probs ->
  take2 probs (slic_of item params) = Return segm_soft ->
  take2 (predict Features classif (feats_of item params)) (slic_of item params) = Return segm ->
  (gc_regul FeatureSet Transitions params <= 0)%R ->
  run item params classif path_out path_visu show_debug_imgs t
  = (Return (name_of item, segm, zeros_like segm),
     t ++ [LogDebug ("segmenting image: "
                     ++ quoted (snd (parse_imgs_idx_path item)))%string;
           LogDebug ("export segmentation: "
                     ++ path_join path_out (name_of item ++ ".png"))%string;
           SaveImage (path_join path_out (name_of item ++ ".png")%string)
                     (astype_uint8 segm)]
       ++ contour_events isdir path_visu (name_of item) "" segm
       ++ [SaveNpz (path_join path_out (name_of item ++ ".npz")%string) segm_soft]).
Proof.
  intros Hproba Hsoft Hsegm Hregul.
  unfold segment_image, image_name, feature_matrix, superpixels, contour_events in *.
  destruct (parse_imgs_idx_path item) as [idx path_img]. simpl in *.
  unfold io_bind, emit, lift, try_except, ret. rewrite Hsegm. simpl.
  destruct (visu_dir isdir path_visu) as [dir|]; simpl.
  - unfold export_draw_image_segm_contour, io_bind, emit. simpl.
    rewrite Hproba. simpl. rewrite Hsoft. simpl.
    rewrite (proj2 (Rltb_false 0 (gc_regul FeatureSet Transitions params))) by lra.
    rewrite <- !app_assoc. reflexivity.
  - rewrite Hproba. simpl. rewrite Hsoft. simpl.
    rewrite (proj2 (Rltb_false 0 (gc_regul FeatureSet Transitions params))) by lra.
    rewrite <- !app_assoc. reflexivity.
Qed.

(** When the classifier gives probabilities but indexing them by the
    superpixel map fails, the bare [except] takes it as a classifier
    without [predict_proba]: the same warning is logged, nothing more is
    saved, and the refined segmentation is all zeros, whatever [gc_regul]. *)
Theorem segment_image_proba_index_caught (item : Item)
  (params : params FeatureSet Transitions) (classif : classifier Features)
  (path_out : string) (path_visu : option string) (show_debug_imgs : bool)
  (probs : proba) (e : exn) (segm : array2) (t : list event) :
  predict_proba Features classif (feats_of item params) = Return probs ->
  take2 probs (slic_of item params) = Raise e ->
  take2 (predict Features classif (feats_of item params)) (slic_of item params) = Return segm ->
  run item params classif path_out path_visu show_debug_imgs t
  = (Return (name_of item, segm, zeros_like segm),
     t ++ [LogDebug ("segmenting image: "
                     ++ quoted (snd (parse_imgs_idx_path item)))%string;
           LogDebug ("export segmentation: "
                     ++ path_join path_out (name_of item ++ ".png"))%string;
           SaveImage (path_join path_out (name_of item ++ ".png")%string)
                     (astype_uint8 segm)]
       ++ contour_events isdir path_visu (name_of item) "" segm
       ++ [LogWarning ("classif: " ++ repr Features classif
                       ++ " not support predict_proba(.)")%string]).
Proof.
  intros Hproba Hsoft Hsegm.
  unfold segment_image, image_name, feature_matrix, superpixels, contour_events in *.
  destruct (parse_imgs_idx_path item) as [idx path_img]. simpl in *.
  unfold io_bind, emit, lift, try_except, ret. rewrite Hsegm. simpl.
  destruct (visu_dir isdir path_visu) as [dir|]; simpl.
  - unfold export_draw_image_segm_contour, io_bind, emit. simpl.
    rewrite Hproba. simpl. rewrite Hsoft. simpl.
    rewrite <- !app_assoc. reflexivity.
  - rewrite Hproba. simpl. rewrite Hsoft. simpl.
    rewrite <- !app_assoc. reflexivity.
Qed.

(** When the predicted labels cannot be indexed by the superpixel map, the
    call raises that exception: it is outside the [try], nothing is saved,
    and only the first record is logged. *)
Theorem segment_image_labels_index_raises (item : Item)
  (params : params FeatureSet Transitions) (classif : classifier Features)
  (path_out : string) (path_visu : option string) (show_debug_imgs : bool)
  (e : exn) (t : list event) :
  take2 (predict Features classif (feats_of item params)) (slic_of item params) = Raise e ->
  run item params classif path_out path_visu show_debug_imgs t
  = (Raise e,
     t ++ [LogDebug ("segmenting image: "
                     ++ quoted (snd (parse_imgs_idx_path item)))%string]).
Proof.
  intros Hsegm.
  unfold segment_image, feature_matrix, superpixels in *.
  destruct (parse_imgs_idx_path item) as [idx path_img]. simpl in *.
  unfold io_bind, emit, lift. rewrite Hsegm. reflexivity.
Qed.

(** Whenever [segment_image] returns: the name is that of the image; the
    first segmentation is the predicted labels indexed by the superpixel
    map, and it has been saved under [path_out] before anything else was
    written; both segmentations have the shape of the superpixel map; and
    the refined one is all zeros or made of classes of the classifier. *)
Theorem segment_image_returns (item : Item) (params : params FeatureSet Transitions)
  (classif : classifier Features) (path_out : string) (path_visu : option string)
  (show_debug_imgs : bool) (t t' : list event) (name : string)
  (segm segm_gc : array2) :
  run item params classif path_out path_visu show_debug_imgs t
  = (Return (name, segm, segm_gc), t') ->
  name = name_of item /\
  take2 (predict Features classif (feats_of item params)) (slic_of item params)
  = Return segm /\
  same_shape segm (slic_of item params) /\
  same_shape segm_gc (slic_of item params) /\
  (segm_gc = zeros_like segm \/
   forall row v, In row segm_gc -> In v row -> In v (classes_ Features classif)) /\
  exists rest,
    t' = t ++ [LogDebug ("segmenting image: "
                         ++ quoted (snd (parse_imgs_idx_path item)))%string;
               LogDebug ("export segmentation: "
                         ++ path_join path_out (name_of item ++ ".png"))%string;
               SaveImage (path_join path_out (name_of item ++ ".png")%string)
                         (astype_uint8 segm)]
           ++ rest.
Proof.
  unfold segment_image, image_name, feature_matrix, superpixels.
  destruct (parse_imgs_idx_path item) as [idx path_img]. simpl.
  set (slic := segment_slic_img2d (load_image path_img
                                     (img_type FeatureSet Transitions params))
                 (slic_size FeatureSet Transitions params)
                 (slic_regul FeatureSet Transitions params)).
  set (img := convert_img_color_space _ _).
  set (feats := fst (compute_selected_features_img2d img slic
                       (features FeatureSet Transitions params))).
  unfold io_bind, emit, lift, try_except, ret.
  destruct (take2 (predict Features classif feats) slic) as [segm0|e] eqn:Hsegm;
    [|discriminate].
  destruct (take2_in _ _ _ Hsegm) as [Hshape _].
  assert (Hzero : forall tr,
            (Return (get_idx_name idx path_img, segm0, zeros_like segm0), tr)
            = (Return (name, segm, segm_gc), t') ->
            forall rest,
              tr = t ++ [LogDebug ("segmenting image: " ++ quoted path_img)%string;
                         LogDebug ("export segmentation: "
                                   ++ path_join path_out
                                        (get_idx_name idx path_img ++ ".png"))%string;
                         SaveImage (path_join path_out
                                      (get_idx_name idx path_img ++ ".png")%string)
                                   (astype_uint8 segm0)] ++ rest ->
            name = get_idx_name idx path_img /\
            Return segm0 = Return segm /\
            same_shape segm slic /\ same_shape segm_gc slic /\
            (segm_gc = zeros_like segm \/
             forall row v, In row segm_gc -> In v row ->
                           In v (classes_ Features classif)) /\
            exists rest',
              t' = t ++ [LogDebug ("segmenting image: " ++ quoted path_img)%string;
                         LogDebug ("export segmentation: "
                                   ++ path_join path_out
                                        (get_idx_name idx path_img ++ ".png"))%string;
                         SaveImage (path_join path_out
                                      (get_idx_name idx path_img ++ ".png")%string)
                                   (astype_uint8 segm)] ++ rest').
  { intros tr H rest Htr. injection H as Hn Hs Hg Ht. subst name segm segm_gc t' tr.
    split; [reflexivity|]. split; [reflexivity|]. split; [exact Hshape|].
    split; [apply same_shape_zeros; exact Hshape|].
    split; [left; reflexivity|]. exists rest. reflexivity. }
  assert (Hcut : forall tr segm1,
            (Return (get_idx_name idx path_img, segm0, segm1), tr)
            = (Return (name, segm, segm_gc), t') ->
            same_shape segm1 slic ->
            (forall row v, In row segm1 -> In v row ->
                           In v (classes_ Features classif)) ->
            forall rest,
              tr = t ++ [LogDebug ("segmenting image: " ++ quoted path_img)%string;
                         LogDebug ("export segmentation: "
                                   ++ path_join path_out
                                        (get_idx_name idx path_img ++ ".png"))%string;
                         SaveImage (path_join path_out
                                      (get_idx_name idx path_img ++ ".png")%string)
                                   (astype_uint8 segm0)] ++ rest ->
            name = get_idx_name idx path_img /\
            Return segm0 = Return segm /\
            same_shape segm slic /\ same_shape segm_gc slic /\
            (segm_gc = zeros_like segm \/
             forall row v, In row segm_gc -> In v row ->
                           In v (classes_ Features classif)) /\
            exists rest',
              t' = t ++ [LogDebug ("segmenting image: " ++ quoted path_img)%string;
                         LogDebug ("export segmentation: "
                                   ++ path_join path_out
                                        (get_idx_name idx path_img ++ ".png"))%string;
                         SaveImage (path_join path_out
                                      (get_idx_name idx path_img ++ ".png")%string)
                                   (astype_uint8 segm)] ++ rest').
  { intros tr segm1 H Hsh Hcl rest Htr.
    injection H as Hn Hs Hg Ht. subst name segm segm_gc t' tr.
    split; [reflexivity|]. split; [reflexivity|]. split; [exact Hshape|].
    split; [exact Hsh|]. split; [right; exact Hcl|]. exists rest. reflexivity. }
  simpl.
  destruct (visu_dir isdir path_visu) as [dir|];
    unfold export_draw_image_segm_contour, io_bind, emit; simpl;
    (destruct (predict_proba Features classif feats) as [probs|e1]; simpl;
     [destruct (take2 probs slic) as [segm_soft|e2]; simpl;
      [destruct (Rltb 0 (gc_regul FeatureSet Transitions params)); simpl;
       [match goal with |- context [take2 ?lg slic] =>
          destruct (take2 lg slic) as [gc1|e3] eqn:Hgc1 end; simpl;
        [destruct (take2 (classes_ Features classif) gc1) as [gc2|e4] eqn:Hgc2;
         simpl | ] | ] | ] | ]);
    try discriminate;
    try (intro H; eapply Hzero; [exact H|];
         rewrite <- !app_assoc; simpl; reflexivity).
  - destruct (take2_in _ _ _ Hgc1) as [Hsh1 _].
    destruct (take2_in _ _ _ Hgc2) as [Hsh2 Hin2].
    assert (Hsh : same_shape gc2 slic)
      by (eapply same_shape_trans; eassumption).
    destruct show_debug_imgs.
    + destruct (save_unary_trace dir (get_idx_name idx path_img) segm_soft)
        as (events & Hev).
      rewrite Hev. intro H. eapply (Hcut _ gc2 H Hsh Hin2).
      rewrite <- !app_assoc. simpl. reflexivity.
    + intro H. eapply (Hcut _ gc2 H Hsh Hin2).
      rewrite <- !app_assoc. simpl. reflexivity.
  - destruct (take2_in _ _ _ Hgc1) as [Hsh1 _].
    destruct (take2_in _ _ _ Hgc2) as [Hsh2 Hin2].
    assert (Hsh : same_shape gc2 slic)
      by (eapply same_shape_trans; eassumption).
    intro H. eapply (Hcut _ gc2 H Hsh Hin2).
    rewrite <- !app_assoc. simpl. reflexivity.
Qed.

End Paths.

(** *** Runs on two superpixels *)

(** A classifier of two superpixels with probabilities. *)
Definition soft_classifier : classifier unit :=
  {| predict := fun _ => [0; 1]%Z;
     predict_proba := fun _ => Return [[1; 0]; [0; 1]]%R;
     classes_ := [0; 1]%Z;
     repr := "soft" |}.

(** One whose probabilities have a row less than there are superpixels,
    and one that predicts a label less. *)
Definition short_proba_classifier : classifier unit :=
  {| predict := fun _ => [0; 1]%Z;
     predict_proba := fun _ => Return [[1; 0]]%R;
     classes_ := [0; 1]%Z;
     repr := "short" |}.

Definition short_classifier : classifier unit :=
  {| predict := fun _ => [0]%Z;
     predict_proba := fun _ => Return [[1; 0]]%R;
     classes_ := [0; 1]%Z;
     repr := "short" |}.

Definition no_regul_params : params unit unit :=
  {| img_type := "2d_gray"; slic_size := 35; slic_regul := 3 / 10;
     clr_space := None; features := tt; gc_regul := 0; gc_use_trans := false;
     label_transitions := tt; gc_edge_type := "model" |}.

Lemma segment_image_regul_off_witness :
  segment_image unit unit unit unit unit
    (fun _ => (0%Z, "a.jpg"%string)) (fun _ _ => "img_0"%string) (fun _ _ => tt)
    (fun _ _ _ => [[0; 1]%Z]) (fun _ _ => tt) (fun _ _ _ => (tt, []))
    (fun _ => []) (fun _ _ _ _ _ _ => []) (fun _ => false)
    tt no_regul_params soft_classifier "out" None false []
  = (Return ("img_0"%string, [[0; 1]%Z], [[0; 0]%Z]),
     [LogDebug ("segmenting image: " ++ quoted "a.jpg")%string;
      LogDebug "export segmentation: out/img_0.png";
      SaveImage "out/img_0.png" [[0; 1]%Z];
      SaveNpz "out/img_0.npz" [[[1; 0]; [0; 1]]]%R]).
Proof.
  refine (segment_image_regul_off unit unit unit unit unit
            (fun _ => (0%Z, "a.jpg"%string)) (fun _ _ => "img_0"%string)
            (fun _ _ => tt) (fun _ _ _ => [[0; 1]%Z]) (fun _ _ => tt)
            (fun _ _ _ => (tt, [])) (fun _ => []) (fun _ _ _ _ _ _ => [])
            (fun _ => false)
            tt no_regul_params soft_classifier "out" None false
            [[1; 0]; [0; 1]]%R [[[1; 0]; [0; 1]]]%R [[0; 1]%Z] []
            eq_refl eq_refl eq_refl _).
  simpl. lra.
Defined.

Lemma segment_image_proba_index_caught_witness :
  segment_image unit unit unit unit unit
    (fun _ => (0%Z, "a.jpg"%string)) (fun _ _ => "img_0"%string) (fun _ _ => tt)
    (fun _ _ _ => [[0; 1]%Z]) (fun _ _ => tt) (fun _ _ _ => (tt, []))
    (fun _ => []) (fun _ _ _ _ _ _ => []) (fun _ => false)
    tt plain_params short_proba_classifier "out" None false []
  = (Return ("img_0"%string, [[0; 1]%Z], [[0; 0]%Z]),
     [LogDebug ("segmenting image: " ++ quoted "a.jpg")%string;
      LogDebug "export segmentation: out/img_0.png";
      SaveImage "out/img_0.png" [[0; 1]%Z];
      LogWarning "classif: short not support predict_proba(.)"]).
Proof.
  exact (segment_image_proba_index_caught unit unit unit unit unit
           (fun _ => (0%Z, "a.jpg"%string)) (fun _ _ => "img_0"%string)
           (fun _ _ => tt) (fun _ _ _ => [[0; 1]%Z]) (fun _ _ => tt)
           (fun _ _ _ => (tt, [])) (fun _ => []) (fun _ _ _ _ _ _ => [])
           (fun _ => false)
           tt plain_params short_proba_classifier "out" None false
           [[1; 0]]%R IndexError [[0; 1]%Z] [] eq_refl eq_refl eq_refl).
Defined.

Lemma segment_image_labels_index_raises_witness :
  segment_image unit unit unit unit unit
    (fun _ => (0%Z, "a.jpg"%string)) (fun _ _ => "img_0"%string) (fun _ _ => tt)
    (fun _ _ _ => [[0; 1]%Z]) (fun _ _ => tt) (fun _ _ _ => (tt, []))
    (fun _ => []) (fun _ _ _ _ _ _ => []) (fun _ => false)
    tt plain_params short_classifier "out" None false []
  = (Raise IndexError,
     [LogDebug ("segmenting image: " ++ quoted "a.jpg")%string]).
Proof.
  exact (segment_image_labels_index_raises unit unit unit unit unit
           (fun _ => (0%Z, "a.jpg"%string)) (fun _ _ => "img_0"%string)
           (fun _ _ => tt) (fun _ _ _ => [[0; 1]%Z]) (fun _ _ => tt)
           (fun _ _ _ => (tt, [])) (fun _ => []) (fun _ _ _ _ _ _ => [])
           (fun _ => false)
           tt plain_params short_classifier "out" None false IndexError []
           eq_refl).
Defined.

Lemma segment_image_returns_witness :
  "img_0"%string = "img_0"%string /\
  take2 [0; 1]%Z [[0; 1]%Z] = Return [[0; 1]%Z] /\
  same_shape [[0; 1]%Z] [[0; 1]%Z] /\
  same_shape [[0; 0]%Z] [[0; 1]%Z] /\
  ([[0; 0]%Z] = zeros_like [[0; 1]%Z] \/
   forall row v, In row [[0; 0]%Z] -> In v row -> In v [0; 1]%Z) /\
  exists rest,
    [LogDebug ("segmenting image: " ++ quoted "a.jpg")%string;
     LogDebug "export segmentation: out/img_0.png";
     SaveImage "out/img_0.png" [[0; 1]%Z];
     LogWarning "classif: hard not support predict_proba(.)"]
    = [] ++ [LogDebug ("segmenting image: " ++ quoted "a.jpg")%string;
             LogDebug "export segmentation: out/img_0.png";
             SaveImage "out/img_0.png" [[0; 1]%Z]] ++ rest.
Proof.
  exact (segment_image_returns unit unit unit unit unit
           (fun _ => (0%Z, "a.jpg"%string)) (fun _ _ => "img_0"%string)
           (fun _ _ => tt) (fun _ _ _ => [[0; 1]%Z]) (fun _ _ => tt)
           (fun _ _ _ => (tt, [])) (fun _ => []) (fun _ _ _ _ _ _ => [])
           (fun _ => false)
           tt plain_params hard_classifier "out" None false []
           [LogDebug ("segmenting image: " ++ quoted "a.jpg")%string;
            LogDebug "export segmentation: out/img_0.png";
            SaveImage "out/img_0.png" [[0; 1]%Z];
            LogWarning "classif: hard not support predict_proba(.)"]
           "img_0"%string [[0; 1]%Z] [[0; 0]%Z] eq_refl).
Defined.

End PipelineFacts.

(** ** Leaving images out: [retrain_loo_segment_image] and
    [retrain_lpo_segment_image] *)

Module Retrain.
Import Py Pipeline.

(** A Python [dict] with string keys, in the order of insertion; a key
    occurs once. *)
Definition dict (V : Type) : Type := list (string * V).

Definition keys {V : Type} (d : dict V) : list string := map fst d.

(** [d.pop(k, None)] *)
Definition pop {V : Type} (k : string) (d : dict V) : dict V :=
  filter (fun kv => negb (String.eqb (fst kv) k)) d.

(** [d[k] = v] *)
Fixpoint setitem {V : Type} (k : string) (v : V) (d : dict V) : dict V :=
  match d with
  | [] => [(k, v)]
  | (k', v') :: d' =>
      if String.eqb k' k then (k, v) :: d' else (k', v') :: setitem k v d'
  end.

(** What the calls leave: the records of this module, and those of
    [segment_image]. *)
Inductive record : Type :=
| LogInfo (msg : string)
| Segment (e : event).

Definition run (A : Type) : Type := list record -> result A * list record.

(** A call of [segment_image], which only adds records. *)
Definition within {A : Type} (m : io A) : run A :=
  fun t => let '(r, t') := m [] in (r, t ++ map Segment t').

Definition SHOW_DEBUG_IMAGES : bool := false.

Section LeaveOut.

Variables (Img Features FeatureSet Transitions Dataset Balance : Type).

(** The images a call is given are pairs [(idx, path_img)]. *)
Variable parse_imgs_idx_path : Z * string -> Z * string.
Variable get_idx_name : Z -> string -> string.
Variable load_image : string -> string -> Img.
Variable segment_slic_img2d : Img -> R -> R -> list (list Z).
Variable convert_img_color_space : Img -> string -> Img.
Variable compute_selected_features_img2d :
  Img -> list (list Z) -> FeatureSet -> Features * list string.
Variable compute_pairwise_cost_from_transitions : Transitions -> list (list R).
Variable segment_graph_cut_general :
  list (list Z) -> proba -> Img -> Features -> regul -> string -> labels.
Variable isdir : string -> bool.

(** What [retrain_loo_segment_image] and [retrain_lpo_segment_image] read
    of the dumped data. *)
Record dump : Type := {
  dict_imgs : dict Img;
  dict_features : dict Features;
  dict_labels : dict labels
}.

(** [np.load] of the dump; [segmentation.classification]: the saved
    classifier with its parameters, the data set of the images of two
    dictionaries (with [drop_labels=[-1]]), and [classif.fit], which gives
    the classifier as it is afterwards; [params['balance']]. *)
Variable np_load : string -> dump.
Variable load_classifier :
  string -> classifier Features * params FeatureSet Transitions.
Variable convert_set_features_labels_2_dataset :
  dict Features -> dict labels -> Balance -> Dataset.
Variable fit : classifier Features -> Dataset -> classifier Features.
Variable balance : params FeatureSet Transitions -> Balance.

(** ['%i' % n] *)
Variable format_int : Z -> string.

Definition load_dump_data (path_dump_data : string) : run dump :=
  fun t =>
    (Return (np_load path_dump_data),
     t ++ [LogInfo ("loading dumped data " ++ quoted path_dump_data)%string]).

Definition segment (imgs_idx_path : Z * string)
  (params : params FeatureSet Transitions) (classif : classifier Features)
  (path_out path_visu : string) : run (string * array2 * array2) :=
  within (segment_image Img Features FeatureSet Transitions (Z * string)%type
            parse_imgs_idx_path get_idx_name load_image segment_slic_img2d
            convert_img_color_space compute_selected_features_img2d
            compute_pairwise_cost_from_transitions segment_graph_cut_general isdir
            imgs_idx_path params classif path_out (Some path_visu)
            SHOW_DEBUG_IMAGES).

Definition retrain_loo_segment_image (imgs_idx_path : Z * string)
  (path_classif path_dump path_out path_visu : string)
  : run (string * array2 * array2) :=
  fun t =>
    let '(idx, path_img) := parse_imgs_idx_path imgs_idx_path in
    match load_dump_data path_dump t with
    | (Raise e, t) => (Raise e, t)
    | (Return data, t) =>
        let '(classif, params) := load_classifier path_classif in
        let idx_name := get_idx_name idx path_img in
        let features := pop idx_name (dict_features data) in
        let labels := pop idx_name (dict_labels data) in
        if negb (Z.of_nat (length (dict_imgs data)) - Z.of_nat (length features)
                 =? 1)%Z
        then (Raise (AssertionError "no image was dropped from training set"), t)
        else
          let dataset :=
            convert_set_features_labels_2_dataset features labels (balance params) in
          let classif := fit classif dataset in
          segment imgs_idx_path params classif path_out path_visu t
    end.

(** The first loop of [retrain_lpo_segment_image]. *)
Definition pop_all {V : Type} (list_imgs_idx_path : list (Z * string)) (d : dict V)
  : dict V :=
  fold_left (fun d item => pop (get_idx_name (fst item) (snd item)) d)
            list_imgs_idx_path d.

(** The second loop. *)
Fixpoint segment_all (list_imgs_idx_path : list (Z * string))
  (params : params FeatureSet Transitions) (classif : classifier Features)
  (path_out path_visu : string) (dict_segm dict_segm_gc : dict array2)
  : run (dict array2 * dict array2) :=
  fun t =>
    match list_imgs_idx_path with
    | [] => (Return (dict_segm, dict_segm_gc), t)
    | imgs_idx_path :: rest =>
        match segment imgs_idx_path params classif path_out path_visu t with
        | (Raise e, t) => (Raise e, t)
        | (Return (idx_name, segm, segm_gc), t) =>
            segment_all rest params classif path_out path_visu
              (setitem idx_name segm dict_segm)
              (setitem idx_name segm_gc dict_segm_gc) t
        end
    end.

Definition retrain_lpo_segment_image (list_imgs_idx_path : list (Z * string))
  (path_classif path_dump path_out path_visu : string)
  : run (dict array2 * dict array2) :=
  fun t =>
    match load_dump_data path_dump t with
    | (Raise e, t) => (Raise e, t)
    | (Return data, t) =>
        let '(classif, params) := load_classifier path_classif in
        let features := pop_all list_imgs_idx_path (dict_features data) in
        let labels := pop_all list_imgs_idx_path (dict_labels data) in
        if negb (Z.of_nat (length (dict_imgs data)) - Z.of_nat (length features)
                 =? Z.of_nat (length list_imgs_idx_path))%Z
        then (Raise (AssertionError
                       ("no (" ++ format_int (Z.of_nat (length list_imgs_idx_path))
                        ++ ") images of ("
                        ++ format_int (Z.of_nat (length (dict_imgs data)))
                        ++ ") was dropped from training set ("
                        ++ format_int (Z.of_nat (length features)) ++ ")")%string),
              t)
        else
          let dataset :=
            convert_set_features_labels_2_dataset features labels (balance params) in
          let classif := fit classif dataset in
          segment_all list_imgs_idx_path params classif path_out path_visu [] [] t
    end.

End LeaveOut.

(** *** What [pop] drops *)

Lemma pop_absent {V : Type} (k : string) (d : dict V) :
  ~ In k (keys d) -> pop k d = d.
Proof.
  induction d as [|[k' v] d IH]; intro H; simpl; [reflexivity|].
  destruct (String.eqb k' k) eqn:E; simpl.
  - apply String.eqb_eq in E. subst k'. contradiction H. left. reflexivity.
  - rewrite IH; [reflexivity|]. intro Hin. apply H. right. exact Hin.
Qed.

Lemma in_keys_pop {V : Type} (k k' : string) (d : dict V) :
  In k' (keys (pop k d)) <-> In k' (keys d) /\ k' <> k.
Proof.
  unfold keys, pop. rewrite !in_map_iff. split.
  - intros ([k0 v] & Hk & Hin). apply filter_In in Hin. destruct Hin as [Hin Hne].
    simpl in *. subst k0. split; [exists (k', v); auto|].
    apply String.eqb_neq. destruct (String.eqb k' k); [discriminate | reflexivity].
  - intros [([k0 v] & Hk & Hin) Hne]. simpl in Hk. subst k0.
    exists (k', v). split; [reflexivity|]. apply filter_In. split; [exact Hin|].
    simpl. apply String.eqb_neq in Hne. rewrite Hne. reflexivity.
Qed.

Lemma NoDup_pop {V : Type} (k : string) (d : dict V) :
  NoDup (keys d) -> NoDup (keys (pop k d)).
Proof.
  induction d as [|[k' v] d IH]; intro H; simpl; [constructor|].
  inversion H as [|x l Hnotin Hnd]; subst.
  destruct (String.eqb k' k); simpl; [apply IH; exact Hnd|].
  constructor; [|apply IH; exact Hnd].
  intro Hin. apply Hnotin. apply (in_keys_pop k k' d) in Hin. apply Hin.
Qed.

Lemma length_pop {V : Type} (k : string) (d : dict V) :
  NoDup (keys d) -> In k (keys d) -> S (length (pop k d)) = length d.
Proof.
  induction d as [|[k' v] d IH]; intros Hnd Hin; [destruct Hin|].
  inversion Hnd as [|x l Hnotin Hnd']; subst. simpl.
  destruct (String.eqb k' k) eqn:E; simpl.
  - apply String.eqb_eq in E. subst k'.
    change (filter (fun kv : string * V => negb (String.eqb (fst kv) k)) d)
      with (pop k d).
    rewrite (pop_absent k d Hnotin). reflexivity.
  - destruct Hin as [Hin|Hin]; [simpl in Hin; subst k'; rewrite String.eqb_refl in E;
                                discriminate|].
    f_equal. apply IH; assumption.
Qed.

(** A run of [pop] over a list of names drops as many entries as the list
    is long exactly when the names are distinct keys. *)
Lemma length_pop_names {V : Type} (names : list string) :
  forall d : dict V,
    NoDup (keys d) ->
    (length d <= length (fold_left (fun d n => pop n d) names d) + length names)%nat /\
    (length (fold_left (fun d n => pop n d) names d) + length names = length d
     <-> NoDup names /\ forall n, In n names -> In n (keys d)).
Proof.
  induction names as [|n names IH]; intros d Hnd; simpl.
  - split; [lia|]. split; [intros _; split; [constructor | intros n []] | lia].
  - destruct (IH (pop n d) (NoDup_pop n d Hnd)) as [Hle Hiff].
    destruct (in_dec string_dec n (keys d)) as [Hin|Hout].
    + pose proof (length_pop n d Hnd Hin) as Hlen. split; [lia|].
      split.
      * intro H. assert (H' : length (fold_left (fun d0 n0 => pop n0 d0) names (pop n d))
                              + length names = length (pop n d)) by lia.
        apply Hiff in H'. destruct H' as [Hnames Hkeys]. split.
        -- constructor; [|exact Hnames]. intro Hn. apply Hkeys in Hn.
           apply in_keys_pop in Hn. destruct Hn as [_ Hn]. contradiction.
        -- intros m [Hm|Hm]; [subst m; exact Hin|].
           apply Hkeys in Hm. apply in_keys_pop in Hm. apply Hm.
      * intros [Hnames Hkeys]. inversion Hnames as [|x l Hnotin Hnames']; subst.
        assert (H' : length (fold_left (fun d0 n0 => pop n0 d0) names (pop n d))
                     + length names = length (pop n d)).
        { apply Hiff. split; [exact Hnames'|]. intros m Hm. apply in_keys_pop.
          split; [apply Hkeys; right; exact Hm|]. intro E. subst m. contradiction. }
        lia.
    + rewrite (pop_absent n d Hout) in *. split; [lia|]. split.
      * intro H. lia.
      * intros [_ Hkeys]. contradiction Hout. apply Hkeys. left. reflexivity.
Qed.

Section Assertions.

Variables (Img Features FeatureSet Transitions Dataset Balance : Type).
Variable parse_imgs_idx_path : Z * string -> Z * string.
Variable get_idx_name : Z -> string -> string.
Variable load_image : string -> string -> Img.
Variable segment_slic_img2d : Img -> R -> R -> list (list Z).
Variable convert_img_color_space : Img -> string -> Img.
Variable compute_selected_features_img2d :
  Img -> list (list Z) -> FeatureSet -> Features * list string.
Variable compute_pairwise_cost_from_transitions : Transitions -> list (list R).
Variable segment_graph_cut_general :
  list (list Z) -> proba -> Img -> Features -> regul -> string -> labels.
Variable isdir : string -> bool.
Variable np_load : string -> dump Img Features.
Variable load_classifier :
  string -> classifier Features * params FeatureSet Transitions.
Variable convert_set_features_labels_2_dataset :
  dict Features -> dict labels -> Balance -> Dataset.
Variable fit : classifier Features -> Dataset -> classifier Features.
Variable balance : params FeatureSet Transitions -> Balance.
Variable format_int : Z -> string.

Local Abbreviation segment_with :=
  (segment Img Features FeatureSet Transitions parse_imgs_idx_path get_idx_name
     load_image segment_slic_img2d convert_img_color_space
     compute_selected_features_img2d compute_pairwise_cost_from_transitions
     segment_graph_cut_general isdir) (only parsing).
Local Abbreviation segment_all_with :=
  (segment_all Img Features FeatureSet Transitions parse_imgs_idx_path get_idx_name
     load_image segment_slic_img2d convert_img_color_space
     compute_selected_features_img2d compute_pairwise_cost_from_transitions
     segment_graph_cut_general isdir) (only parsing).
Local Abbreviation retrain_loo :=
  (retrain_loo_segment_image Img Features FeatureSet Transitions Dataset Balance
     parse_imgs_idx_path get_idx_name load_image segment_slic_img2d
     convert_img_color_space compute_selected_features_img2d
     compute_pairwise_cost_from_transitions segment_graph_cut_general isdir
     np_load load_classifier convert_set_features_labels_2_dataset fit balance)
  (only parsing).
Local Abbreviation retrain_lpo :=
  (retrain_lpo_segment_image Img Features FeatureSet Transitions Dataset Balance
     parse_imgs_idx_path get_idx_name load_image segment_slic_img2d
     convert_img_color_space compute_selected_features_img2d
     compute_pairwise_cost_from_transitions segment_graph_cut_general isdir
     np_load load_classifier convert_set_features_labels_2_dataset fit balance
     format_int) (only parsing).

(** [retrain_loo_segment_image] on a dump with as many images as feature
    sets: when the image is among the feature sets, the classifier is fit
    on the data without it and the image is segmented with the classifier
    so fit; when it is not, the call raises [AssertionError] before any
    fit, and segments nothing. *)
Theorem retrain_loo_drops_image (imgs_idx_path : Z * string)
  (path_classif path_dump path_out path_visu : string) (t : list record) :
  let data := np_load path_dump in
  let classif := fst (load_classifier path_classif) in
  let params := snd (load_classifier path_classif) in
  let idx_name := get_idx_name (fst (parse_imgs_idx_path imgs_idx_path))
                    (snd (parse_imgs_idx_path imgs_idx_path)) in
  let features := pop idx_name (dict_features Img Features data) in
  let labels := pop idx_name (dict_labels Img Features data) in
  let loaded := t ++ [LogInfo ("loading dumped data " ++ quoted path_dump)%string] in
  NoDup (keys (dict_features Img Features data)) ->
  length (dict_imgs Img Features data) = length (dict_features Img Features data) ->
  (In idx_name (keys (dict_features Img Features data)) ->
   ~ In idx_name (keys features) /\ ~ In idx_name (keys labels) /\
   retrain_loo imgs_idx_path path_classif path_dump path_out path_visu t
   = segment_with imgs_idx_path params
       (fit classif (convert_set_features_labels_2_dataset features labels
                       (balance params)))
       path_out path_visu loaded) /\
  (~ In idx_name (keys (dict_features Img Features data)) ->
   retrain_loo imgs_idx_path path_classif path_dump path_out path_visu t
   = (Raise (AssertionError "no image was dropped from training set"), loaded)).
Proof.
  intros data classif params idx_name features labels loaded Hnd Hlen.
  unfold retrain_loo_segment_image, load_dump_data.
  subst data classif params idx_name features labels loaded.
  destruct (parse_imgs_idx_path imgs_idx_path) as [idx path_img].
  destruct (load_classifier path_classif) as [classif params]. simpl.
  set (data := np_load path_dump) in *.
  set (idx_name := get_idx_name idx path_img).
  split.
  - intro Hin. pose proof (length_pop idx_name _ Hnd Hin) as Hpop.
    split; [|split].
    + intro H. apply in_keys_pop in H. destruct H as [_ H]. contradiction.
    + intro H. apply in_keys_pop in H. destruct H as [_ H]. contradiction.
    + assert (E : (Z.of_nat (length (dict_imgs Img Features data))
                   - Z.of_nat (length (pop idx_name (dict_features Img Features data)))
                   =? 1)%Z = true) by (apply Z.eqb_eq; lia).
      rewrite E. reflexivity.
  - intro Hout. rewrite (pop_absent idx_name _ Hout).
    assert (E : (Z.of_nat (length (dict_imgs Img Features data))
                 - Z.of_nat (length (dict_features Img Features data))
                 =? 1)%Z = false) by (apply Z.eqb_neq; lia).
    rewrite E. reflexivity.
Qed.

Lemma pop_all_names {V : Type} (list_imgs_idx_path : list (Z * string)) :
  forall d : dict V,
    pop_all get_idx_name list_imgs_idx_path d
    = fold_left (fun d n => pop n d)
        (map (fun item => get_idx_name (fst item) (snd item)) list_imgs_idx_path) d.
Proof.
  unfold pop_all. induction list_imgs_idx_path as [|item rest IH]; intro d; simpl;
    [reflexivity | apply IH].
Qed.

(** [retrain_lpo_segment_image] on a dump with as many images as feature
    sets: the assertion holds exactly when the names of the images to
    leave out are distinct and all among the feature sets. A list that
    names an image twice, or an image that is not in the dump, raises
    [AssertionError] before any fit; otherwise the classifier is fit on the
    data without these images and each image of the list is segmented. *)
Theorem retrain_lpo_drops_images (list_imgs_idx_path : list (Z * string))
  (path_classif path_dump path_out path_visu : string) (t : list record) :
  let data := np_load path_dump in
  let classif := fst (load_classifier path_classif) in
  let params := snd (load_classifier path_classif) in
  let names := map (fun item => get_idx_name (fst item) (snd item))
                   list_imgs_idx_path in
  let features := pop_all get_idx_name list_imgs_idx_path
                    (dict_features Img Features data) in
  let labels := pop_all get_idx_name list_imgs_idx_path
                  (dict_labels Img Features data) in
  let loaded := t ++ [LogInfo ("loading dumped data " ++ quoted path_dump)%string] in
  NoDup (keys (dict_features Img Features data)) ->
  length (dict_imgs Img Features data) = length (dict_features Img Features data) ->
  (NoDup names /\
   (forall n, In n names -> In n (keys (dict_features Img Features data))) ->
   retrain_lpo list_imgs_idx_path path_classif path_dump path_out path_visu t
   = segment_all_with list_imgs_idx_path params
       (fit classif (convert_set_features_labels_2_dataset features labels
                       (balance params)))
       path_out path_visu [] [] loaded) /\
  (~ (NoDup names /\
      forall n, In n names -> In n (keys (dict_features Img Features data))) ->
   exists msg,
     retrain_lpo list_imgs_idx_path path_classif path_dump path_out path_visu t
     = (Raise (AssertionError msg), loaded)).
Proof.
  intros data classif params names features labels loaded Hnd Hlen.
  unfold retrain_lpo_segment_image, load_dump_data.
  subst classif params features labels loaded.
  destruct (load_classifier path_classif) as [classif params]. simpl.
  fold data.
  destruct (length_pop_names names (dict_features Img Features data) Hnd)
    as [Hle Hiff].
  rewrite <- (pop_all_names list_imgs_idx_path) in Hle, Hiff.
  assert (Hnames : length names = length list_imgs_idx_path)
    by (unfold names; apply length_map).
  split.
  - intro H. apply Hiff in H.
    assert (E : (Z.of_nat (length (dict_imgs Img Features data))
                 - Z.of_nat (length (pop_all get_idx_name list_imgs_idx_path
                                       (dict_features Img Features data)))
                 =? Z.of_nat (length list_imgs_idx_path))%Z = true)
      by (apply Z.eqb_eq; lia).
    rewrite E. reflexivity.
  - intro H.
    assert (E : (Z.of_nat (length (dict_imgs Img Features data))
                 - Z.of_nat (length (pop_all get_idx_name list_imgs_idx_path
                                       (dict_features Img Features data)))
                 =? Z.of_nat (length list_imgs_idx_path))%Z = false).
    { apply Z.eqb_neq. intro Heq. apply H. apply Hiff. lia. }
    rewrite E. eexists. reflexivity.
Qed.

End Assertions.

(** *** A dump of two images *)

Definition two_images : dump unit unit :=
  {| dict_imgs := [("a"%string, tt); ("b"%string, tt)];
     dict_features := [("a"%string, tt); ("b"%string, tt)];
     dict_labels := [("a"%string, [0%Z]); ("b"%string, [1%Z])] |}.

Lemma two_images_keys : NoDup (keys (dict_features unit unit two_images)).
Proof.
  simpl. constructor; [|constructor; [|constructor]].
  - intros [H|[]]. discriminate.
  - intros [].
Qed.

Lemma retrain_loo_drops_image_witness :
  retrain_loo_segment_image unit unit unit unit unit unit
    (fun item => item) (fun _ path_img => path_img) (fun _ _ => tt)
    (fun _ _ _ => [[0; 1]%Z]) (fun _ _ => tt) (fun _ _ _ => (tt, []))
    (fun _ => []) (fun _ _ _ _ _ _ => []) (fun _ => false)
    (fun _ => two_images) (fun _ => (hard_classifier, plain_params))
    (fun _ _ _ => tt) (fun classif _ => classif) (fun _ => tt)
    (1%Z, "c"%string) "classif" "dump" "out" "visu" []
  = (Raise (AssertionError "no image was dropped from training set"),
     [LogInfo ("loading dumped data " ++ quoted "dump")%string]).
Proof.
  apply (proj2
           (retrain_loo_drops_image unit unit unit unit unit unit
              (fun item => item) (fun _ path_img => path_img) (fun _ _ => tt)
              (fun _ _ _ => [[0; 1]%Z]) (fun _ _ => tt) (fun _ _ _ => (tt, []))
              (fun _ => []) (fun _ _ _ _ _ _ => []) (fun _ => false)
              (fun _ => two_images) (fun _ => (hard_classifier, plain_params))
              (fun _ _ _ => tt) (fun classif _ => classif) (fun _ => tt)
              (1%Z, "c"%string) "classif" "dump" "out" "visu" []
              two_images_keys eq_refl)).
  simpl. intros [H|[H|[]]]; discriminate.
Defined.

Lemma retrain_lpo_drops_images_witness :
  exists msg,
    retrain_lpo_segment_image unit unit unit unit unit unit
      (fun item => item) (fun _ path_img => path_img) (fun _ _ => tt)
      (fun _ _ _ => [[0; 1]%Z]) (fun _ _ => tt) (fun _ _ _ => (tt, []))
      (fun _ => []) (fun _ _ _ _ _ _ => []) (fun _ => false)
      (fun _ => two_images) (fun _ => (hard_classifier, plain_params))
      (fun _ _ _ => tt) (fun classif _ => classif) (fun _ => tt) (fun _ => "n"%string)
      [(1%Z, "a"%string); (2%Z, "a"%string)] "classif" "dump" "out" "visu" []
    = (Raise (AssertionError msg),
       [LogInfo ("loading dumped data " ++ quoted "dump")%string]).
Proof.
  apply (proj2
           (retrain_lpo_drops_images unit unit unit unit unit unit
              (fun item => item) (fun _ path_img => path_img) (fun _ _ => tt)
              (fun _ _ _ => [[0; 1]%Z]) (fun _ _ => tt) (fun _ _ _ => (tt, []))
              (fun _ => []) (fun _ _ _ _ _ _ => []) (fun _ => false)
              (fun _ => two_images) (fun _ => (hard_classifier, plain_params))
              (fun _ _ _ => tt) (fun classif _ => classif) (fun _ => tt)
              (fun _ => "n"%string)
              [(1%Z, "a"%string); (2%Z, "a"%string)] "classif" "dump" "out" "visu" []
              two_images_keys eq_refl)).
  simpl. intros [Hnd _]. inversion Hnd as [|x l Hnotin _]. subst.
  apply Hnotin. left. reflexivity.
Defined.

End Retrain.
